(** * Edit Quick AI: the job-processing pipeline

    A shallow embedding of the asynchronous job pipeline of the backend:
    the job store ([database.js]), the FFmpeg stage library and local
    pipeline ([ai-processor.js]) and the orchestrator and HTTP handlers of
    the database-backed server ([server.js]).

    JavaScript values are modelled as follows.  Strings are [string];
    SQLite [INTEGER] columns are [Z]; nullable [TEXT] columns are
    [option string]; the numbers of the intensity table are rationals [Q];
    an object literal used as a lookup table is the ordered list of its own
    properties together with the members it inherits from
    [Object.prototype]; a thrown [Error] is represented by its [message].
    Asynchronous code is modelled by explicit state passing in a
    state-and-exception monad; [setTimeout] callbacks are kept in a queue
    of pending timers. *)

From Stdlib Require Import QArith Ascii String.
From stdpp Require Import gmap strings list fin_maps pretty sorting.
Close Scope Q_scope.
Open Scope string_scope.
Open Scope list_scope.
Open Scope Z_scope.

(** ** JavaScript object literals used as lookup tables *)

Module JsObject.

(** The own property names of [Object.prototype].  Every ordinary object
    literal inherits them, so [table[key]] finds a (truthy) member for
    each of these keys even when the literal does not list it. *)
Definition objectPrototypeKeys : list string :=
  [ "constructor"; "__defineGetter__"; "__defineSetter__"; "hasOwnProperty";
    "__lookupGetter__"; "__lookupSetter__"; "isPrototypeOf";
    "propertyIsEnumerable"; "toString"; "valueOf"; "__proto__";
    "toLocaleString" ].

(** The result of [table[key]]. *)
Inductive property (A : Type) : Type :=
| Own (a : A)               (* listed in the literal *)
| Inherited (key : string)  (* found on [Object.prototype] *)
| Missing.                  (* [undefined] *)
Arguments Own {A} a.
Arguments Inherited {A} key.
Arguments Missing {A}.

Fixpoint own {A : Type} (table : list (string * A)) (key : string) : option A :=
  match table with
  | [] => None
  | (k, v) :: rest => if String.eqb k key then Some v else own rest key
  end.

Definition get {A : Type} (table : list (string * A)) (key : string) : property A :=
  match own table key with
  | Some v => Own v
  | None =>
      if bool_decide (key ∈ objectPrototypeKeys) then Inherited key else Missing
  end.

End JsObject.
Import JsObject.

(** ** Paths ([path.join], [path.dirname]) *)

(** [path.join(a, b)] for an absolute or relative directory [a] and one
    further segment [b]; an empty segment is dropped, as Node does.  Paths
    are taken as normalised: no [.] or [..] segment, no doubled or trailing
    separator. *)
Definition path_join (a b : string) : string :=
  match b with
  | "" => a
  | _ => a +:+ "/" +:+ b
  end.

Fixpoint dirname_aux (s : string) : option string :=
  match s with
  | "" => None
  | String c rest =>
      match dirname_aux rest with
      | Some d => Some (String c d)
      | None => if Ascii.eqb c "/"%char then Some "" else None
      end
  end.

(** [path.dirname(p)]: everything before the last separator. *)
Definition path_dirname (p : string) : string :=
  match dirname_aux p with
  | Some "" => "/"
  | Some d => d
  | None => "."
  end.

(** [p] is [dir] itself or lies below it. *)
Definition under (dir p : string) : bool :=
  String.eqb dir p || String.prefix (dir +:+ "/") p.

(** ** A monad for code that mutates state and may throw *)

Inductive result (S A : Type) : Type :=
| Ok (a : A) (s : S)
| Thrown (e : string) (s : S).
Arguments Ok {S A} a s.
Arguments Thrown {S A} e s.

Definition js (S A : Type) : Type := S → result S A.

#[export] Instance js_ret {S : Type} : MRet (js S) := λ A a s, Ok a s.

#[export] Instance js_bind {S : Type} : MBind (js S) :=
  λ A B f m s,
    match m s with
    | Ok a s' => f a s'
    | Thrown e s' => Thrown e s'
    end.

Definition throw {S A : Type} (e : string) : js S A := λ s, Thrown e s.

(** [try { body } catch (error) { handler(error.message) }]: the writes made
    before the throw stay. *)
Definition try_catch {S A : Type} (body : js S A) (handler : string → js S A) : js S A :=
  λ s,
    match body s with
    | Ok a s' => Ok a s'
    | Thrown e s' => handler e s'
    end.

Definition gets {S A : Type} (f : S → A) : js S A := λ s, Ok (f s) s.
Definition modify {S : Type} (f : S → S) : js S unit := λ s, Ok tt (f s).

Definition final {S A : Type} (r : result S A) : S :=
  match r with
  | Ok _ s => s
  | Thrown _ s => s
  end.

(** ** The job store ([database.js]) *)

Module Project.
(** A row of the [projects] table. *)
Record t : Type := mk {
  id : string;
  name : string;
  status : string;
  style : string;
  intensity : string;
  quality : string;
  customEffects : string;
  platformOptimize : string;
  aiIntelligence : string;
  createdAt : string;
  fileSize : Z;
  progress : Z;
  currentStep : string;
  thumbnail : option string;
  processedVideo : option string;
  originalVideo : string;
  userId : string
}.

(** [SET status = ?, progress = ?, currentStep = ?] *)
Definition set_status (st : string) (pr : Z) (step : string) (p : t) : t :=
  mk (id p) (name p) st (style p) (intensity p) (quality p) (customEffects p)
     (platformOptimize p) (aiIntelligence p) (createdAt p) (fileSize p)
     pr step (thumbnail p) (processedVideo p) (originalVideo p) (userId p).

(** [SET name = ?, style = ?, intensity = ?, quality = ?, customEffects = ?,
    platformOptimize = ?, aiIntelligence = ?, thumbnail = ?,
    processedVideo = ?] *)
Definition set_details (nm sty int qual eff plat ai : string)
    (thumb pv : option string) (p : t) : t :=
  mk (id p) nm (status p) sty int qual eff plat ai (createdAt p) (fileSize p)
     (progress p) (currentStep p) thumb pv (originalVideo p) (userId p).
End Project.

(** A row of [processing_history] (its fresh id and its timestamp are left
    out). *)
Record history_entry : Type := {
  h_projectId : string;
  h_step : string;
  h_status : string;
  h_message : string
}.

(** The prepared statements of [projectOperations], as functions on the
    table.  [UPDATE ... WHERE id = ?] changes the matching row and is
    silent when there is none. *)
Definition getProjectById (pid : string) (db : gmap string Project.t) : option Project.t :=
  db !! pid.

Definition updateProjectStatus (st : string) (pr : Z) (step : string) (pid : string)
    (db : gmap string Project.t) : gmap string Project.t :=
  alter (Project.set_status st pr step) pid db.

Definition updateProject (nm sty int qual eff plat ai : string)
    (thumb pv : option string) (pid : string)
    (db : gmap string Project.t) : gmap string Project.t :=
  alter (Project.set_details nm sty int qual eff plat ai thumb pv) pid db.

(** The terminal states of a job. *)
Definition terminal (st : string) : bool :=
  String.eqb st "completed" || String.eqb st "error".

(** ** Numbers in template strings *)

Fixpoint decimal_digits (fuel : nat) (num den : Z) : string :=
  match fuel with
  | O => ""
  | S fuel' =>
      if num =? 0 then ""
      else pretty (num * 10 / den) +:+ decimal_digits fuel' (num * 10 mod den) den
  end.

(** [`${x}`] for a number [x].  The pipeline interpolates only numbers with
    a short decimal expansion: the intensity adjustments [1 + (m - 1) * 0.3]
    and [1 + (m - 1) * 0.2] at a table multiplier [m] (whose double results
    are the doubles nearest to 0.85, 1.15, 1.3, 0.9, 1.1 and 1.2, printed as
    such) and the scene boundaries parsed from decimal text. *)
Definition show_number (q : Q) : string :=
  let n := Qnum q in
  let d := Z.pos (Qden q) in
  let a := Z.abs n in
  (if n <? 0 then "-" else "") +:+ pretty (a / d) +:+
  (if a mod d =? 0 then "" else "." +:+ decimal_digits 17 (a mod d) d).

(** ** The stage library and local pipeline ([ai-processor.js]) *)

Module AIVideoProcessor.

(** *** Style tables *)

(** The value stored under [intensity] in a style configuration: a number
    of the multiplier table, or a member inherited from
    [Object.prototype] (a function or object, not a number). *)
Inductive multiplier : Type :=
| Number (q : Q)
| Member (key : string).

(** A style configuration; a field is [None] when the object has no such
    property. *)
Record styleConfig : Type := {
  colorGrading : option string;
  contrast : option string;
  sharpness : option string;
  fps : option Z;
  intensity : multiplier
}.

(** The four properties of an entry of [baseConfigs]. *)
Record baseConfig : Type := {
  b_colorGrading : string;
  b_contrast : string;
  b_sharpness : string;
  b_fps : Z
}.

Definition cinematic : baseConfig :=
  {| b_colorGrading := "colorlevels=rimin=0.058:gimin=0.058:bimin=0.058:rimax=0.942:gimax=0.942:bimax=0.942";
     b_contrast := "eq=contrast=1.2:brightness=0.05:saturation=1.1";
     b_sharpness := "unsharp=3:3:1.5:3:3:0.5";
     b_fps := 24 |}.

Definition mrbeast : baseConfig :=
  {| b_colorGrading := "colorlevels=rimin=0.1:gimin=0.1:bimin=0.1:rimax=0.9:gimax=0.9:bimax=0.9";
     b_contrast := "eq=contrast=1.5:brightness=0.1:saturation=1.3";
     b_sharpness := "unsharp=5:5:2:5:5:1";
     b_fps := 30 |}.

Definition vlog : baseConfig :=
  {| b_colorGrading := "colorlevels=rimin=0.05:gimin=0.05:bimin=0.05:rimax=0.95:gimax=0.95:bimax=0.95";
     b_contrast := "eq=contrast=1.1:brightness=0.02:saturation=1.05";
     b_sharpness := "unsharp=2:2:0.8:2:2:0.4";
     b_fps := 30 |}.

Definition podcast : baseConfig :=
  {| b_colorGrading := "colorlevels=rimin=0.02:gimin=0.02:bimin=0.02:rimax=0.98:gimax=0.98:bimax=0.98";
     b_contrast := "eq=contrast=1.05:brightness=0:saturation=0.95";
     b_sharpness := "unsharp=1:1:0.5:1:1:0.25";
     b_fps := 30 |}.

Definition baseConfigs : list (string * baseConfig) :=
  [ ("cinematic", cinematic); ("mrbeast", mrbeast);
    ("vlog", vlog); ("podcast", podcast) ].

Definition intensityMultipliers : list (string * Q) :=
  [ ("light", 0.5%Q); ("medium", 1.0%Q); ("high", 1.5%Q); ("extreme", 2.0%Q) ].

(** [{ ...baseConfig, intensity: multiplier }] for an entry of the table. *)
Definition spread (b : baseConfig) (m : multiplier) : styleConfig :=
  {| colorGrading := Some (b_colorGrading b);
     contrast := Some (b_contrast b);
     sharpness := Some (b_sharpness b);
     fps := Some (b_fps b);
     intensity := m |}.

(** [{ ...f, intensity: multiplier }] for a member [f] of
    [Object.prototype]: it has no enumerable own property, so nothing is
    copied. *)
Definition spread_member (m : multiplier) : styleConfig :=
  {| colorGrading := None; contrast := None; sharpness := None; fps := None;
     intensity := m |}.

(** [getStyleConfig(style, intensity)] *)
Definition getStyleConfig (style intensity : string) : styleConfig :=
  let multiplier :=
    match JsObject.get intensityMultipliers intensity with
    | Own q => if Qeq_bool q 0 then Number 1.0%Q else Number q
    | Inherited key => Member key
    | Missing => Number 1.0%Q
    end in
  match JsObject.get baseConfigs style with
  | Own b => spread b multiplier
  | Inherited _ => spread_member multiplier
  | Missing => spread cinematic multiplier
  end.

(** Truthiness of an optional string property. *)
Definition present (s : option string) : list string :=
  match s with
  | Some "" => []
  | Some v => [v]
  | None => []
  end.

(** [1 + (styleConfig.intensity - 1) * k] inside a template string; a
    member of [Object.prototype] is not a number. *)
Definition adjusted (m : multiplier) (k : Q) : string :=
  match m with
  | Number q => show_number (Qred (1 + (q - 1) * k)%Q)
  | Member _ => "NaN"
  end.

(** [buildStyleFilters(styleConfig)] *)
Definition buildStyleFilters (c : styleConfig) : string :=
  let filters := present (colorGrading c) in
  let filters := filters ++ present (contrast c) in
  let filters := filters ++ present (sharpness c) in
  let filters :=
    filters ++
    match intensity c with
    | Number q =>
        if Qeq_bool q 1.0%Q then []
        else [ "eq=contrast=" +:+ adjusted (Number q) 0.3%Q +:+
               ":saturation=" +:+ adjusted (Number q) 0.2%Q ]
    | Member key =>
        [ "eq=contrast=" +:+ adjusted (Member key) 0.3%Q +:+
          ":saturation=" +:+ adjusted (Member key) 0.2%Q ]
    end in
  let filters :=
    filters ++
    match fps c with
    | Some 24 => [ "fps=fps=24" ]
    | _ => []
    end in
  String.concat "," filters.

(** [qualitySettings[quality] || qualitySettings['1080p']] *)
Definition qualitySettings : list (string * list string) :=
  [ ("720p", ["-vf"; "scale=1280:720"; "-crf"; "23"]);
    ("1080p", ["-vf"; "scale=1920:1080"; "-crf"; "20"]);
    ("4k", ["-vf"; "scale=3840:2160"; "-crf"; "18"]);
    ("8k", ["-vf"; "scale=7680:4320"; "-crf"; "16"]) ].

(** *** The machine: files and child processes *)

Inductive node : Type :=
| File (content : string)
| Directory.

Record machine : Type := {
  files : gmap string node;
  spawned : nat  (* child processes started so far *)
}.

(** How a child process ends: the [close] event with its exit code and
    captured output, or the [error] event when it cannot be started.
    [written] is what the tool leaves at its output path, the last
    argument of the command line. *)
Inductive exit : Type :=
| Closed (code : Z) (stdout stderr : string) (written : option string)
| SpawnError (message : string).

(** What [JSON.parse(output)] of the ffprobe output gives, as far as
    [processVideo] looks at it. *)
Inductive videoInfo : Type :=
| Unparsable                      (* [JSON.parse] throws *)
| NoFormat (typeError : string)   (* reading [info.format.duration] throws *)
| Parsed.

Record scene : Type := {
  start : Q;
  end_ : Q;
  duration : Q
}.

(** The world outside the program.  A child process is a function of the
    number of processes started before it, its command line and the files
    it finds.  The ffprobe child is assumed to start ([getVideoInfo]
    registers no [error] listener), so it always closes. *)
Record tools : Type := {
  ffmpegPath : string;
  ffprobePath : string;
  spawn : nat → string → list string → gmap string node → exit;
  probe : nat → list string → gmap string node → Z * string * string;
  parseInfo : string → videoInfo;
  (** the scenes collected from the silencedetect output, [None] when the
      loop throws (a [silence_start] without its [silence_end]) *)
  parseSilences : string → option (list scene);
  (** the text of a member of [Object.prototype] in a template string *)
  memberText : string → string;
  (** the message of the [TypeError] raised when such a member is spread
      into an array literal *)
  spreadError : string → string
}.

(** *** fs-extra *)

Definition set_files (f : gmap string node) (m : machine) : machine :=
  {| files := f; spawned := spawned m |}.

(** [fs.ensureDir(dir)] *)
Definition ensureDir (dir : string) : js machine unit :=
  λ m,
    match files m !! dir with
    | Some (File _) => Thrown ("EEXIST: file already exists, mkdir '" +:+ dir +:+ "'") m
    | _ => Ok tt (set_files (<[dir := Directory]> (files m)) m)
    end.

(** The entries of [src] and below, moved under [dest]. *)
Definition copied_tree (src dest : string) (f : gmap string node) : gmap string node :=
  list_to_map
    (omap (λ kv : string * node,
             if under src kv.1
             then Some (dest +:+ String.substring (String.length src)
                                   (String.length kv.1 - String.length src) kv.1, kv.2)
             else None)
          (map_to_list f)).

(** [fs.copy(src, dest)]: overwrites a file at [dest]; fails when [src]
    is missing, when [src] and [dest] are the same, when one of them is a
    directory and the other a file, and when a directory is copied below
    itself. *)
Definition copy (src dest : string) : js machine unit :=
  λ m,
    match files m !! src, files m !! dest with
    | None, _ =>
        Thrown ("ENOENT: no such file or directory, lstat '" +:+ src +:+ "'") m
    | Some (File content), Some Directory =>
        Thrown ("Cannot overwrite directory '" +:+ dest +:+
                "' with non-directory '" +:+ src +:+ "'.") m
    | Some Directory, Some (File _) =>
        Thrown ("Cannot overwrite non-directory '" +:+ dest +:+
                "' with directory '" +:+ src +:+ "'.") m
    | Some (File content), _ =>
        if String.eqb src dest
        then Thrown "Source and destination must not be the same." m
        else Ok tt (set_files (<[dest := File content]> (files m)) m)
    | Some Directory, _ =>
        if under src dest
        then Thrown (if String.eqb src dest
                     then "Source and destination must not be the same."
                     else "Cannot copy '" +:+ src +:+ "' to a subdirectory of itself, '" +:+
                          dest +:+ "'.") m
        else Ok tt (set_files (copied_tree src dest (files m) ∪ files m) m)
    end.

(** [fs.remove(path)]: the file, or the directory with all below it;
    silent when there is nothing. *)
Definition remove (path : string) : js machine unit :=
  λ m, Ok tt (set_files (filter (λ kv : string * node, under path kv.1 = false) (files m)) m).

(** *** Child processes *)

(** The file a command line names as its output: its last argument,
    unless that is an option or [-]. *)
Definition outputOf (args : list string) : option string :=
  match last args with
  | Some (String "-" _) => None
  | o => o
  end.

Definition leave (written : option string) (args : list string)
    (f : gmap string node) : gmap string node :=
  match written, outputOf args with
  | Some content, Some path => <[path := File content]> f
  | _, _ => f
  end.

Section pipeline.
Context (t : tools).

(** [runCommand(command, args)] *)
Definition runCommand (command : string) (args : list string) : js machine string :=
  λ m,
    match spawn t (spawned m) command args (files m) with
    | Closed code stdout stderr written =>
        let m' := {| files := leave written args (files m);
                     spawned := S (spawned m) |} in
        if code =? 0 then Ok stdout m'
        else Thrown ("Command failed: " +:+ stderr) m'
    | SpawnError message =>
        Thrown ("Failed to start command: " +:+ message)
               {| files := files m; spawned := S (spawned m) |}
    end.

(** [checkFFmpeg()] *)
Definition checkFFmpeg : js machine bool :=
  try_catch (_ ← runCommand (ffmpegPath t) ["-version"]; mret true)
            (λ _, mret false).

(** [getVideoInfo(videoPath)] *)
Definition getVideoInfo (videoPath : string) : js machine videoInfo :=
  λ m,
    let m' := {| files := files m; spawned := S (spawned m) |} in
    match probe t (spawned m)
            ["-v"; "quiet"; "-print_format"; "json"; "-show_format";
             "-show_streams"; videoPath] (files m) with
    | (code, output, error) =>
        if code =? 0 then
          match parseInfo t output with
          | Unparsable => Thrown "Failed to parse video info" m'
          | info => Ok info m'
          end
        else Thrown ("FFprobe failed: " +:+ error) m'
    end.

(** [detectScenes(videoPath, outputPath)] *)
Definition detectScenes (videoPath outputPath : string) : js machine (list scene) :=
  try_catch
    (let audioPath := path_join (path_dirname outputPath) "temp_audio.wav" in
     _ ← runCommand (ffmpegPath t)
           ["-i"; videoPath; "-vn"; "-acodec"; "pcm_s16le"; "-ar"; "44100";
            "-ac"; "1"; audioPath];
     silenceInfo ← runCommand (ffmpegPath t)
           ["-i"; audioPath; "-af"; "silencedetect=noise=-50dB:d=0.5";
            "-f"; "null"; "-"];
     scenes ← match parseSilences t silenceInfo with
               | Some scenes => mret scenes
               | None => throw "Cannot read properties of undefined (reading 'split')"
               end;
     _ ← remove audioPath;
     mret scenes)
    (λ _, mret []).

(** [applyStyle(videoPath, outputPath, style, intensity)] *)
Definition applyStyle (videoPath outputPath style intensity : string) : js machine bool :=
  let styleConfig := getStyleConfig style intensity in
  try_catch
    (let filters := buildStyleFilters styleConfig in
     _ ← runCommand (ffmpegPath t)
           ["-i"; videoPath; "-vf"; filters; "-c:a"; "copy"; "-preset"; "medium";
            outputPath];
     mret true)
    (λ error, throw error).

(** [buildJumpCutFilter(scenes, style)] *)
Definition buildJumpCutFilter (scenes : list scene) (style : string) : string :=
  let cutThreshold := if String.eqb style "mrbeast" then 0.3%Q else 0.5%Q in
  let kept :=
    List.filter (λ ix : nat * scene,
                   match Qlt_le_dec cutThreshold (duration ix.2) with
                   | left _ => true
                   | right _ => false
                   end)
                (imap (λ index scene, (index, scene)) scenes) in
  let inputs :=
    map (λ ix : nat * scene,
           "[0:v]trim=start=" +:+ show_number (start ix.2) +:+ ":end=" +:+
           show_number (end_ ix.2) +:+ ",setpts=PTS-STARTPTS[v" +:+ pretty ix.1 +:+ "]")
        kept in
  let outputs := map (λ ix : nat * scene, "[v" +:+ pretty ix.1 +:+ "]") kept in
  match outputs with
  | [] => "[0:v]copy[outv]"
  | _ =>
      String.concat ";" inputs +:+ ";" +:+ String.concat "" outputs +:+
      "concat=n=" +:+ pretty (length outputs) +:+ ":v=1:a=0[outv]"
  end.

(** [applyJumpCuts(videoPath, outputPath, style)] *)
Definition applyJumpCuts (videoPath outputPath style : string) : js machine unit :=
  try_catch
    (scenes ← detectScenes videoPath outputPath;
     match scenes with
     | [] => copy videoPath outputPath
     | _ =>
         let filterComplex := buildJumpCutFilter scenes style in
         _ ← runCommand (ffmpegPath t)
               ["-i"; videoPath; "-filter_complex"; filterComplex; "-c:a"; "copy";
                "-preset"; "fast"; outputPath];
         mret tt
     end)
    (λ _, copy videoPath outputPath).

Definition captions : list (string * string) :=
  [ ("mrbeast", "ðŸ”¥ EPIC CONTENT ðŸ”¥"); ("cinematic", "ðŸŽ¬ CINEMATIC MASTERPIECE ðŸŽ¬");
    ("vlog", "ðŸ“¹ DAILY VLOG ðŸ“¹"); ("podcast", "ðŸŽ™ï¸ PODCAST EPISODE ðŸŽ™ï¸") ].

(** [getStyleCaption(style)], as the text that ends up in the filter. *)
Definition getStyleCaption (style : string) : string :=
  match JsObject.get captions style with
  | Own "" => "âœ¨ AI EDITED âœ¨"
  | Own caption => caption
  | Inherited key => memberText t key
  | Missing => "âœ¨ AI EDITED âœ¨"
  end.

(** [addCaptions(videoPath, outputPath, style)] *)
Definition addCaptions (videoPath outputPath style : string) : js machine unit :=
  try_catch
    (let captionText := getStyleCaption style in
     let filter :=
       "drawtext=text='" +:+ captionText +:+
       "':fontcolor=white:fontsize=48:box=1:boxcolor=black@0.5:boxborderw=5:x=(w-text_w)/2:y=h-th-10" in
     _ ← runCommand (ffmpegPath t)
           ["-i"; videoPath; "-vf"; filter; "-c:a"; "copy"; "-preset"; "medium";
            outputPath];
     mret tt)
    (λ _, copy videoPath outputPath).

(** [optimizeQuality(inputPath, outputPath, quality)] *)
Definition optimizeQuality (inputPath outputPath quality : string) : js machine unit :=
  let run (settings : list string) : js machine unit :=
    _ ← runCommand (ffmpegPath t)
          (["-i"; inputPath] ++ settings ++
           ["-c:a"; "aac"; "-b:a"; "128k"; "-preset"; "slow";
            "-movflags"; "+faststart"; outputPath]);
    mret tt in
  match JsObject.get qualitySettings quality with
  | Own settings => run settings
  | Inherited key => throw (spreadError t key)
  | Missing => run ["-vf"; "scale=1920:1080"; "-crf"; "20"]
  end.

(** The scratch directory of a run. *)
Definition tempDirOf (outputPath : string) : string :=
  path_join (path_dirname outputPath) "temp_processing".

(** [processVideo(inputPath, outputPath, style, intensity, quality)] *)
Definition processVideo (inputPath outputPath style intensity quality : string)
    : js machine bool :=
  try_catch
    (ffmpegAvailable ← checkFFmpeg;
     if negb ffmpegAvailable then throw "FFmpeg not available"
     else
       videoInfo ← getVideoInfo inputPath;
       _ ← match videoInfo with
           | NoFormat typeError => throw typeError
           | _ => mret tt
           end;
       let tempDir := tempDirOf outputPath in
       _ ← ensureDir tempDir;
       let styledPath := path_join tempDir "styled.mp4" in
       _ ← applyStyle inputPath styledPath style intensity;
       let cutPath := path_join tempDir "cut.mp4" in
       _ ← (if bool_decide (style ∈ ["mrbeast"; "cinematic"; "vlog"])
            then applyJumpCuts styledPath cutPath style
            else copy styledPath cutPath);
       let captionedPath := path_join tempDir "captioned.mp4" in
       _ ← addCaptions cutPath captionedPath style;
       _ ← optimizeQuality captionedPath outputPath quality;
       _ ← remove tempDir;
       mret true)
    (λ error, throw error).

End pipeline.

End AIVideoProcessor.

(** ** The orchestrator and its HTTP handlers ([server.js]) *)

Import AIVideoProcessor.

(** A settled promise of an external service. *)
Inductive settled (A : Type) : Type :=
| Resolved (a : A)
| Rejected (message : string).
Arguments Resolved {A} a.
Arguments Rejected {A} message.

(** What [pollUntilComplete] resolves with: [success], [url] and
    [status?.status]. *)
Record renderResult : Type := {
  r_success : bool;
  r_url : option string;
  r_status : option string
}.

(** The [shotstack] module; each call is a function of the number of
    requests made before it. *)
Record shotstackModule : Type := {
  ensureRemoteUrlForLocalFile : nat → string → string → settled string;
  submitRenderFromUrl : nat → string → string → string → settled string;
  pollUntilComplete : nat → string → settled renderResult
}.

(** What [fetch(url)] followed by [resp.arrayBuffer()] gives. *)
Inductive fetched : Type :=
| Response (ok : bool) (body : string)
| FetchError (message : string).

(** The configuration and the outside world of the server. *)
Record env : Type := {
  e_tools : tools;
  AI_MODE : option string;              (* [process.env.AI_MODE] *)
  shotstack : option shotstackModule;   (* [None] when [require] failed *)
  uploadsDir : string;
  projectsDir : string;
  editedDir : string;
  fetch : nat → string → fetched;
  stringify : string → string           (* [JSON.stringify] of a non-empty string *)
}.

(** A pending [setTimeout] callback of [simulateAIProcessing]: the closure
    over [projectId], the [project] read at the start and [currentStep]. *)
Inductive callback : Type :=
| SimulationStep (projectId : string) (project : Project.t) (currentStep : nat).

Record timer : Type := {
  delay : Z;
  action : callback
}.

(** What an observer of a run can see.  The log is not program state: it
    records the store after each write of the pipeline, the store that
    other request handlers find while the pipeline is suspended, and the
    steps of the retry loop. *)
Inductive event : Type :=
| StatusWritten (pid st : string) (pr : Z) (step : string) (after : gmap string Project.t)
| DetailsWritten (pid : string) (thumb pv : option string) (after : gmap string Project.t)
| Slept (ms : Z) (visible : gmap string Project.t)
| Awaited (visible : gmap string Project.t)
| Attempt (n : nat)
| Backoff (ms : Z) (visible : gmap string Project.t)
| Fallback.

Record world : Type := {
  projects : gmap string Project.t;
  history : list history_entry;
  disk : machine;
  requests : nat;           (* calls to external services so far *)
  timers : list timer;
  background : list (string * nat);  (* pipelines started and not yet run *)
  log : list event
}.

Definition with_projects (db : gmap string Project.t) (w : world) : world :=
  {| projects := db; history := history w; disk := disk w; requests := requests w;
     timers := timers w; background := background w; log := log w |}.

Definition with_history (h : list history_entry) (w : world) : world :=
  {| projects := projects w; history := h; disk := disk w; requests := requests w;
     timers := timers w; background := background w; log := log w |}.

Definition with_disk (m : machine) (w : world) : world :=
  {| projects := projects w; history := history w; disk := m; requests := requests w;
     timers := timers w; background := background w; log := log w |}.

Definition with_requests (n : nat) (w : world) : world :=
  {| projects := projects w; history := history w; disk := disk w; requests := n;
     timers := timers w; background := background w; log := log w |}.

Definition with_timers (ts : list timer) (w : world) : world :=
  {| projects := projects w; history := history w; disk := disk w; requests := requests w;
     timers := ts; background := background w; log := log w |}.

Definition with_background (b : list (string * nat)) (w : world) : world :=
  {| projects := projects w; history := history w; disk := disk w; requests := requests w;
     timers := timers w; background := b; log := log w |}.

Definition with_log (l : list event) (w : world) : world :=
  {| projects := projects w; history := history w; disk := disk w; requests := requests w;
     timers := timers w; background := background w; log := l |}.

Definition record (ev : event) : js world unit :=
  modify (λ w, with_log (log w ++ [ev]) w).

(** [projectOperations.updateProjectStatus.run(status, progress, step, id)] *)
Definition writeStatus (st : string) (pr : Z) (step pid : string) : js world unit :=
  λ w,
    let db := updateProjectStatus st pr step pid (projects w) in
    Ok tt (with_log (log w ++ [StatusWritten pid st pr step db]) (with_projects db w)).

(** [projectOperations.updateProject.run(...)] *)
Definition writeDetails (nm sty int qual eff plat ai : string) (thumb pv : option string)
    (pid : string) : js world unit :=
  λ w,
    let db := updateProject nm sty int qual eff plat ai thumb pv pid (projects w) in
    Ok tt (with_log (log w ++ [DetailsWritten pid thumb pv db]) (with_projects db w)).

(** [historyOperations.addStep.run(uuidv4(), projectId, step, status, message, now)] *)
Definition addStep (pid step st message : string) : js world unit :=
  modify (λ w, with_history (history w ++ [ {| h_projectId := pid; h_step := step;
                                               h_status := st; h_message := message |} ]) w).

(** [await new Promise(resolve => setTimeout(resolve, ms))] *)
Definition sleep (ms : Z) : js world unit :=
  λ w, Ok tt (with_log (log w ++ [Slept ms (projects w)]) w).

(** Code of the processor runs on the disk of the server; the pipeline is
    suspended meanwhile. *)
Definition onDisk {A : Type} (c : js machine A) : js world A :=
  λ w,
    let w' := with_log (log w ++ [Awaited (projects w)]) w in
    match c (disk w) with
    | Ok a m => Ok a (with_disk m w')
    | Thrown err m => Thrown err (with_disk m w')
    end.

(** [await] of a call to an external service. *)
Definition request {A : Type} (call : nat → settled A) : js world A :=
  λ w,
    let w' := with_requests (S (requests w)) (with_log (log w ++ [Awaited (projects w)]) w) in
    match call (requests w) with
    | Resolved a => Ok a w'
    | Rejected message => Thrown message w'
    end.

(** [x || fallback] for strings. *)
Definition or_else (x fallback : string) : string :=
  match x with
  | "" => fallback
  | _ => x
  end.

Definition or_else_opt (x : option string) (fallback : string) : string :=
  match x with
  | Some v => or_else v fallback
  | None => fallback
  end.

(** [fs.writeFileSync(path, content)]; the directories of the server exist
    from start-up. *)
Definition writeFileSync (path content : string) : js world unit :=
  modify (λ w, with_disk (set_files (<[path := File content]> (files (disk w))) (disk w)) w).

Section server.
Context (e : env).

(** [JSON.stringify(project.customEffects || [])] *)
Definition effectsJson (project : Project.t) : string :=
  match Project.customEffects project with
  | "" => "[]"
  | effects => stringify e effects
  end.

(** [process.env.AI_MODE || 'ffmpeg'] *)
Definition mode : string := or_else_opt (AI_MODE e) "ffmpeg".

(** The cloud branch of step 4 of [processVideoWithAI]. *)
Definition renderInCloud (sh : shotstackModule) (updateProgress : Z → string → js world unit)
    (project : Project.t) (inputPath projectId : string) : js world unit :=
  _ ← updateProgress 76 "Uploading to cloud renderer...";
  inputUrl ← request (λ n, ensureRemoteUrlForLocalFile sh n inputPath
                              (Project.originalVideo project));
  _ ← updateProgress 82 "Submitting cloud render...";
  jobId ← request (λ n, submitRenderFromUrl sh n inputUrl (Project.style project)
                           (Project.quality project));
  _ ← updateProgress 90 "Rendering in the cloud...";
  result ← request (λ n, pollUntilComplete sh n jobId);
  match r_success result, or_else_opt (r_url result) "" with
  | true, String c rest =>
      let url := String c rest in
      processedField ←
        try_catch
          ('(ok, body) ← request (λ n, match fetch e n url with
                                       | Response ok body => Resolved (ok, body)
                                       | FetchError message => Rejected message
                                       end);
           if ok : bool then
             let localEditedName := "edited-" +:+ Project.id project +:+ ".mp4" in
             let localEditedPath := path_join (editedDir e) localEditedName in
             _ ← writeFileSync localEditedPath body;
             mret localEditedName
           else mret url)
          (λ _, mret url);
      writeDetails (Project.name project) (Project.style project)
        (Project.intensity project) (Project.quality project) (effectsJson project)
        (or_else (Project.platformOptimize project) "auto")
        (or_else (Project.aiIntelligence project) "smart")
        (Some (or_else_opt (Project.thumbnail project) "demo-thumbnail.jpg"))
        (Some processedField) projectId
  | _, _ =>
      throw ("Cloud render failed: " +:+ or_else_opt (r_status result) "unknown")
  end.

(** [processVideoWithAI(projectId)] *)
Definition processVideoWithAI (projectId : string) : js world unit :=
  try_catch
    (project ← gets (λ w, getProjectById projectId (projects w));
     match project with
     | None => mret tt
     | Some project =>
         _ ← writeStatus "processing" 0 "Starting AI processing" projectId;
         let updateProgress (progress : Z) (message : string) : js world unit :=
           _ ← writeStatus "processing" progress message projectId;
           addStep projectId "progress_update" "success" message in
         let inputPath := path_join (uploadsDir e) (Project.originalVideo project) in
         let outputPath :=
           path_join (projectsDir e) ("processed-" +:+ Project.id project +:+ ".mp4") in
         _ ← updateProgress 10 "Analyzing video content...";
         _ ← sleep 1000;
         _ ← updateProgress 25 "Detecting scenes and cuts...";
         _ ← sleep 2000;
         _ ← updateProgress 50 "Applying AI editing style...";
         _ ← sleep 3000;
         _ ← updateProgress 75 "Processing with AI algorithms...";
         _ ← match String.eqb mode "shotstack", shotstack e with
             | true, Some sh => renderInCloud sh updateProgress project inputPath projectId
             | _, _ =>
                 _ ← onDisk (processVideo (e_tools e) inputPath outputPath
                               (Project.style project) (Project.intensity project)
                               (Project.quality project));
                 mret tt
             end;
         _ ← updateProgress 100 "Finalizing video...";
         _ ← sleep 1000;
         _ ← (if negb (String.eqb mode "shotstack") then
                writeDetails (Project.name project) (Project.style project)
                  (Project.intensity project) (Project.quality project)
                  (effectsJson project)
                  (or_else (Project.platformOptimize project) "auto")
                  (or_else (Project.aiIntelligence project) "smart")
                  (Some ("thumbnail-" +:+ Project.id project +:+ ".jpg"))
                  (Some ("processed-" +:+ Project.id project +:+ ".mp4")) projectId
              else mret tt);
         writeStatus "completed" 100 "Processing completed successfully" projectId
     end)
    (λ error,
       _ ← writeStatus "error" 0 ("Error: " +:+ error) projectId;
       addStep projectId "error" "error" error).

End server.

(** [setTimeout(callback, ms)]: the callback is queued and the handler
    returns; the store stays visible to other handlers until it fires. *)
Definition setTimeout (cb : callback) (ms : Z) : js world unit :=
  λ w,
    Ok tt (with_log (log w ++ [Slept ms (projects w)])
             (with_timers (timers w ++ [ {| delay := ms; action := cb |} ]) w)).

Definition mp4Header : string :=
  string_of_list_ascii
    (map ascii_of_nat
       [0; 0; 0; 32; 102; 116; 121; 112; 105; 115; 111; 109;
        0; 0; 2; 0; 105; 115; 111; 109; 105; 115; 111; 50;
        97; 118; 99; 49; 109; 112; 52; 49]%nat).

Definition jpegHeader : string :=
  string_of_list_ascii
    (map ascii_of_nat
       [255; 216; 255; 224; 0; 16; 74; 70; 73; 70; 0; 1;
        1; 1; 0; 72; 0; 72; 0; 0]%nat).

(** The steps of the simulation: name, duration, progress. *)
Definition processingSteps : list (string * Z * Z) :=
  [ ("Analyzing video content", 2000, 20);
    ("Detecting scenes and cuts", 3000, 40);
    ("Applying style effects", 4000, 60);
    ("Color grading and enhancement", 3000, 80);
    ("Final rendering", 2000, 100) ].

(** [try { ... } catch (_) {}] *)
Definition ignoring (c : js world unit) : js world unit :=
  try_catch c (λ _, mret tt).

(** An HTTP response: status code and JSON body. *)
Inductive body : Type :=
| ErrorBody (error : string)
| Started (message : string) (project : Project.t)
| ProgressBody (st : string) (pr : Z) (step : string)
| Received (note : string)
| Success
| SuccessError (error : string).

Record response : Type := {
  statusCode : Z;
  json : body
}.

(** What the render webhook reads from its request: [status], the output
    URL and the project id, each after its chain of alternatives. *)
Record webhookRequest : Type := {
  wh_status : option string;
  wh_outputUrl : option string;
  wh_projectId : option string
}.

Section orchestrator.
Context (e : env).

(** [createDemoVideo(projectId)] *)
Definition createDemoVideo : js world bool :=
  let demoVideoPath := path_join (projectsDir e) "demo-video.mp4" in
  exists_ ← gets (λ w, files (disk w) !! demoVideoPath);
  match exists_ with
  | Some _ => mret true
  | None => _ ← writeFileSync demoVideoPath mp4Header; mret true
  end.

(** [createDemoThumbnail(projectId)] *)
Definition createDemoThumbnail : js world bool :=
  let demoThumbnailPath := path_join (projectsDir e) "demo-thumbnail.jpg" in
  exists_ ← gets (λ w, files (disk w) !! demoThumbnailPath);
  match exists_ with
  | Some _ => mret true
  | None => _ ← writeFileSync demoThumbnailPath jpegHeader; mret true
  end.

(** [processStep()] of [simulateAIProcessing], at a value of
    [currentStep]. *)
Definition processStep (projectId : string) (project : Project.t) (currentStep : nat)
    : js world unit :=
  match processingSteps !! currentStep with
  | None =>
      _ ← writeStatus "completed" 100 "Simulation processing completed" projectId;
      _ ← writeDetails (Project.name project) (Project.style project)
            (Project.intensity project) (Project.quality project)
            (effectsJson e project)
            (or_else (Project.platformOptimize project) "auto")
            (or_else (Project.aiIntelligence project) "smart")
            (Some "demo-thumbnail.jpg") (Some "demo-video.mp4") projectId;
      _ ← createDemoVideo;
      _ ← createDemoThumbnail;
      addStep projectId "completion" "success"
        "Simulation processing completed successfully"
  | Some (name, duration, progress) =>
      _ ← writeStatus "processing" progress name projectId;
      setTimeout (SimulationStep projectId project currentStep) duration
  end.

(** [simulateAIProcessing(projectId)] *)
Definition simulateAIProcessing (projectId : string) : js world unit :=
  try_catch
    (project ← gets (λ w, getProjectById projectId (projects w));
     match project with
     | None => mret tt
     | Some project =>
         _ ← writeStatus "processing" 0 "Starting simulation processing" projectId;
         processStep projectId project 0
     end)
    (λ error,
       _ ← writeStatus "error" 0 ("Simulation error: " +:+ error) projectId;
       addStep projectId "error" "error" error).

(** The callback [() => { currentStep++; processStep(); }]. *)
Definition runCallback (cb : callback) : js world unit :=
  match cb with
  | SimulationStep projectId project currentStep =>
      processStep projectId project (S currentStep)
  end.

(** The [i]-th pending timer fires. *)
Definition fireTimer (i : nat) (w : world) : world :=
  match timers w !! i with
  | Some t => final (runCallback (action t) (with_timers (delete i (timers w)) w))
  | None => w
  end.

(** Timers fire, oldest first, until none is pending. *)
Fixpoint drainTimers (fuel : nat) (w : world) : world :=
  match fuel, timers w with
  | S fuel', _ :: _ => drainTimers fuel' (fireTimer 0 w)
  | _, _ => w
  end.

(** The retry loop of [startProcessingWithRetry], for any [run] and any
    fallback:
    [for (let attempt = 1; attempt <= retries; attempt++) { try { await
    run(); return; } catch (err) { ... } }]. *)
Section retry.
Context (run fallback : js world unit) (retries : nat).

Fixpoint attemptsFrom (fuel attempt : nat) : js world unit :=
  match fuel with
  | O => mret tt
  | S fuel' =>
      if (attempt <=? retries)%nat then
        _ ← record (Attempt attempt);
        returned ←
          try_catch
            (_ ← run; mret true)
            (λ err,
               _ ← (if (attempt =? retries)%nat then
                      _ ← record Fallback;
                      ignoring fallback
                    else
                      λ w, record (Backoff (1000 * Z.of_nat attempt) (projects w)) w);
               mret false);
        if returned : bool then mret tt else attemptsFrom fuel' (S attempt)
      else mret tt
  end.
End retry.

(** [startProcessingWithRetry(projectId, retries)] *)
Definition startProcessingWithRetry (projectId : string) (retries : nat) : js world unit :=
  let useSimulation :=
    match AI_MODE e with
    | Some m => String.eqb m "simulate"
    | None => false
    end in
  let run : js world unit :=
    if useSimulation then simulateAIProcessing projectId
    else processVideoWithAI e projectId in
  attemptsFrom run (simulateAIProcessing projectId) retries retries 1.

(** A pipeline started by a handler runs in the background. *)
Definition runBackground (w : world) : world :=
  match background w with
  | [] => w
  | (projectId, retries) :: rest =>
      final (startProcessingWithRetry projectId retries (with_background rest w))
  end.

(** [POST /api/projects/:id/process] *)
Definition postProcess (pid : string) (w : world) : response * world :=
  match getProjectById pid (projects w) with
  | None => ({| statusCode := 404; json := ErrorBody "Project not found" |}, w)
  | Some project =>
      if String.eqb (Project.status project) "processing" then
        ({| statusCode := 400; json := ErrorBody "Project is already processing" |}, w)
      else
        let w1 := final (writeStatus "processing" 0 "Starting AI processing" pid w) in
        let w2 := final (addStep pid "start_processing" "success"
                           "AI processing started" w1) in
        let w3 := with_background (background w2 ++ [(pid, 3%nat)]) w2 in
        ({| statusCode := 200; json := Started "AI processing started" project |}, w3)
  end.

(** [GET /api/projects/:id/progress] *)
Definition getProgress (pid : string) (db : gmap string Project.t) : response :=
  match getProjectById pid db with
  | None => {| statusCode := 404; json := ErrorBody "Project not found" |}
  | Some project =>
      {| statusCode := 200;
         json := ProgressBody (Project.status project) (Project.progress project)
                   (Project.currentStep project) |}
  end.

(** [POST /api/render/webhook] *)
Definition postRenderWebhook (req : webhookRequest) (w : world) : response * world :=
  match or_else_opt (wh_projectId req) "" with
  | "" => ({| statusCode := 202; json := Received "No projectId provided" |}, w)
  | projectId =>
      match getProjectById projectId (projects w) with
      | None => ({| statusCode := 404; json := ErrorBody "Project not found" |}, w)
      | Some project =>
          let st := or_else_opt (wh_status req) "" in
          let outputUrl := or_else_opt (wh_outputUrl req) "" in
          if String.eqb st "done" && negb (String.eqb outputUrl "") then
            let w1 :=
              final (writeDetails (Project.name project) (Project.style project)
                       (Project.intensity project) (Project.quality project)
                       (effectsJson e project)
                       (or_else (Project.platformOptimize project) "auto")
                       (or_else (Project.aiIntelligence project) "smart")
                       (Some (or_else_opt (Project.thumbnail project)
                                ("thumbnail-" +:+ Project.id project +:+ ".jpg")))
                       (Some outputUrl) projectId w) in
            let w2 := final (writeStatus "completed" 100
                               "Processing completed via webhook" projectId w1) in
            ({| statusCode := 200; json := Success |}, w2)
          else if String.eqb st "failed" || String.eqb st "error"
                  || String.eqb st "cancelled" then
            let w1 := final (writeStatus "error" 0 ("Render failed (" +:+ st +:+ ")")
                               projectId w) in
            ({| statusCode := 200; json := SuccessError st |}, w1)
          else
            ({| statusCode := 202;
                json := Received (or_else st "unknown") |}, w)
      end
  end.

End orchestrator.


(** * Specifications *)

(** ** Triples for code in the monad *)

(** [triple P c Q X]: from a state satisfying [P], [c] returns in a state
    satisfying [Q] or throws in a state satisfying [X]. *)
Definition triple {S A : Type} (P : S → Prop) (c : js S A)
    (Q : A → S → Prop) (X : string → S → Prop) : Prop :=
  ∀ s, P s →
    match c s with
    | Ok a s' => Q a s'
    | Thrown err s' => X err s'
    end.

(** ** What the log shows *)

(** The status writes made for a job: status, progress and step. *)
Definition statusWrites (pid : string) (l : list event) : list (string * Z * string) :=
  omap (λ ev, match ev with
              | StatusWritten pid' st pr step _ =>
                  if String.eqb pid' pid then Some (st, pr, step) else None
              | _ => None
              end) l.

(** The store after each write of the pipeline. *)
Definition storesWritten (l : list event) : list (gmap string Project.t) :=
  omap (λ ev, match ev with
              | StatusWritten _ _ _ _ after => Some after
              | DetailsWritten _ _ _ after => Some after
              | _ => None
              end) l.

(** The store found by other handlers each time the pipeline is suspended. *)
Definition storesVisible (l : list event) : list (gmap string Project.t) :=
  omap (λ ev, match ev with
              | Slept _ visible => Some visible
              | Awaited visible => Some visible
              | Backoff _ visible => Some visible
              | _ => None
              end) l.

(** The body of the progress endpoint's answer for a job, when it has one. *)
Definition polled (pid : string) (db : gmap string Project.t) : option (string * Z) :=
  match json (getProgress pid db) with
  | ProgressBody st pr _ => Some (st, pr)
  | _ => None
  end.

(** The attempts, back-off delays and fallbacks of the retry loop. *)
Definition attemptsMade (l : list event) : list nat :=
  omap (λ ev, match ev with Attempt n => Some n | _ => None end) l.

Definition backoffs (l : list event) : list Z :=
  omap (λ ev, match ev with Backoff ms _ => Some ms | _ => None end) l.

Definition fallbacks (l : list event) : nat :=
  length (List.filter (λ ev, match ev with Fallback => true | _ => false end) l).

(** ** Consistency of the status columns *)

(** A row is consistent when a completed job is at 100 and a failed job is
    at 0. *)
Definition rowOk (p : Project.t) : Prop :=
  (Project.status p = "completed" → Project.progress p = 100) ∧
  (Project.status p = "error" → Project.progress p = 0).

Definition storeOk (db : gmap string Project.t) : Prop :=
  map_Forall (λ _ p, rowOk p) db.

Definition eventOk (ev : event) : Prop :=
  match ev with
  | StatusWritten _ st pr _ after =>
      (st = "completed" → pr = 100) ∧ (st = "error" → pr = 0) ∧ storeOk after
  | DetailsWritten _ _ _ after => storeOk after
  | Slept _ visible => storeOk visible
  | Awaited visible => storeOk visible
  | Backoff _ visible => storeOk visible
  | Attempt _ => True
  | Fallback => True
  end.

Definition consistent (w : world) : Prop :=
  storeOk (projects w) ∧ Forall eventOk (log w).

(** One step of the system that writes to the job store: a pipeline runs,
    a timer of the simulation fires, or one of the two writing handlers
    answers a request. *)
Inductive pipelineStep (e : env) : world → world → Prop :=
| step_pipeline pid w :
    pipelineStep e w (final (processVideoWithAI e pid w))
| step_simulation pid w :
    pipelineStep e w (final (simulateAIProcessing e pid w))
| step_retry pid retries w :
    pipelineStep e w (final (startProcessingWithRetry e pid retries w))
| step_background w :
    pipelineStep e w (runBackground e w)
| step_timer i w :
    pipelineStep e w (fireTimer e i w)
| step_start pid w :
    pipelineStep e w (postProcess pid w).2
| step_webhook req w :
    pipelineStep e w (postRenderWebhook e req w).2.

(** ** The invariants of the data model, as stated *)

(** The output reference is set exactly when the job is completed, and the
    progress is 100 exactly when the job is completed. *)
Definition outputIffCompleted (db : gmap string Project.t) : Prop :=
  ∀ pid p, db !! pid = Some p →
    (Project.processedVideo p ≠ None ↔ Project.status p = "completed") ∧
    (Project.progress p = 100 ↔ Project.status p = "completed").

(** Terminal immutability of the store's status update. *)
Definition terminalImmutable : Prop :=
  ∀ (db : gmap string Project.t) (pid : string) (p : Project.t)
    (st : string) (pr : Z) (step : string),
    db !! pid = Some p →
    terminal (Project.status p) = true →
    ∃ p', updateProjectStatus st pr step pid db !! pid = Some p' ∧
          Project.progress p' = Project.progress p ∧
          Project.currentStep p' = Project.currentStep p.

(** ** Example inputs *)

Definition doubleQuote : string := String (ascii_of_nat 34) "".

Definition exampleProject : Project.t :=
  Project.mk "p1" "Holiday" "uploaded" "cinematic" "medium" "1080p" "[]"
    "auto" "smart" "2024-01-01T00:00:00.000Z" 1024 0 "Uploaded successfully"
    None None "clip.mp4" "guest_127_0_0_1".

Definition exampleDisk : machine :=
  {| files := {[ "/srv/uploads/clip.mp4" := File "source" ]};
     spawned := 0 |}.

Definition exampleWorld : world :=
  {| projects := {[ "p1" := exampleProject ]};
     history := [];
     disk := exampleDisk;
     requests := 0;
     timers := [];
     background := [];
     log := [] |}.

(** Every tool runs and leaves a file. *)
Definition workingTools : tools :=
  {| ffmpegPath := "ffmpeg";
     ffprobePath := "ffprobe";
     spawn := λ _ _ _ _, Closed 0 "" "" (Some "video");
     probe := λ _ _ _, (0, "{}", "");
     parseInfo := λ _, Parsed;
     parseSilences := λ _, Some [];
     memberText := λ _, "function () { [native code] }";
     spreadError := λ _, "settings is not iterable" |}.

(** FFmpeg cannot be started. *)
Definition missingTools : tools :=
  {| ffmpegPath := "ffmpeg";
     ffprobePath := "ffprobe";
     spawn := λ _ _ _ _, SpawnError "spawn ffmpeg ENOENT";
     probe := λ _ _ _, (0, "{}", "");
     parseInfo := λ _, Parsed;
     parseSilences := λ _, Some [];
     memberText := λ _, "function () { [native code] }";
     spreadError := λ _, "settings is not iterable" |}.

(** FFmpeg answers [-version] and fails on every other command line. *)
Definition failingTools : tools :=
  {| ffmpegPath := "ffmpeg";
     ffprobePath := "ffprobe";
     spawn := λ _ _ args _,
       match args with
       | ["-version"] => Closed 0 "ffmpeg version 6.0" "" None
       | _ => Closed 1 "" "Conversion failed!" None
       end;
     probe := λ _ _ _, (0, "{}", "");
     parseInfo := λ _, Parsed;
     parseSilences := λ _, Some [];
     memberText := λ _, "function () { [native code] }";
     spreadError := λ _, "settings is not iterable" |}.

(** The command lines of the optional stages: the two commands of scene
    detection and the caption overlay. *)
Definition optionalStage (args : list string) : bool :=
  match args with
  | "-i" :: _ :: "-vn" :: _ => true
  | "-i" :: _ :: "-af" :: _ => true
  | "-i" :: _ :: "-vf" :: f :: _ => String.prefix "drawtext" f
  | _ => false
  end.

(** FFmpeg fails exactly on the optional stages. *)
Definition optionalFailTools : tools :=
  {| ffmpegPath := "ffmpeg";
     ffprobePath := "ffprobe";
     spawn := λ _ _ args _,
       if optionalStage args then Closed 1 "" "Conversion failed!" None
       else Closed 0 "" "" (Some "video");
     probe := λ _ _ _, (0, "{}", "");
     parseInfo := λ _, Parsed;
     parseSilences := λ _, Some [];
     memberText := λ _, "function () { [native code] }";
     spreadError := λ _, "settings is not iterable" |}.

(** A server that renders locally. *)
Definition localEnv (t : tools) : env :=
  {| e_tools := t;
     AI_MODE := None;
     shotstack := None;
     uploadsDir := "/srv/uploads";
     projectsDir := "/srv/projects";
     editedDir := "/srv/edited";
     fetch := λ _ _, FetchError "fetch failed";
     stringify := λ s, doubleQuote +:+ s +:+ doubleQuote |}.

(** [c] keeps the status columns consistent, whether it returns or throws. *)
Definition keeps {A : Type} (c : js world A) : Prop :=
  triple consistent c (λ _, consistent) (λ _, consistent).

(** What a client polling the progress endpoint can have seen of a job:
    status and progress at each suspension of the pipeline. *)
Definition progressSeen (pid : string) (l : list event) : list (string * Z) :=
  omap (polled pid) (storesVisible l).

(** The server renders locally: [AI_MODE] is not [shotstack]. *)
Definition rendersLocally (e : env) : Prop :=
  String.eqb (mode e) "shotstack" = false.

(** The arguments with which [processVideoWithAI] calls the processor. *)
Definition localRender (e : env) (project : Project.t) : js machine bool :=
  processVideo (e_tools e)
    (path_join (uploadsDir e) (Project.originalVideo project))
    (path_join (projectsDir e) ("processed-" +:+ Project.id project +:+ ".mp4"))
    (Project.style project) (Project.intensity project) (Project.quality project).

(** The history entry of a progress update. *)
Definition progressEntry (pid message : string) : history_entry :=
  {| h_projectId := pid; h_step := "progress_update"; h_status := "success";
     h_message := message |}.

(** The job is being processed at progress [n], and what a polling client
    has seen so far climbs up to [n]. *)
Definition progressing (pid : string) (n : Z) (w : world) : Prop :=
  (∃ p, projects w !! pid = Some p ∧ Project.status p = "processing" ∧
        Project.progress p = n) ∧
  Forall (λ sp : string * Z, sp.1 = "processing" ∧ sp.2 ≤ n) (progressSeen pid (log w)) ∧
  StronglySorted Z.le (progressSeen pid (log w)).*2.




(** ** The claims about a run, as stated *)


Definition statusOf (pid : string) (w : world) : option string :=
  Project.status <$> projects w !! pid.


(** The progress values persisted while the job is [processing]. *)
Definition checkpoints (pid : string) (l : list event) : list Z :=
  omap (λ x : string * Z * string,
          if String.eqb x.1.1 "processing" then Some x.1.2 else None)
       (statusWrites pid l).

(** Six checkpoints: after the reset to 0, a completed run has persisted
    10, 25, 50, 75, 90 and 100. *)
Definition sixCheckpoints (e : env) (pid : string) (w : world) : Prop :=
  let w' := final (processVideoWithAI e pid w) in
  statusOf pid w' = Some "completed" →
  checkpoints pid (log w') = checkpoints pid (log w) ++ [0; 10; 25; 50; 75; 90; 100].


(** The invariant of the data model at every state after a store write. *)
Definition outputInvariant (e : env) (pid : string) (w : world) : Prop :=
  Forall outputIffCompleted
    (storesWritten (log (final (processVideoWithAI e pid w)))).

(** [c] adds nothing to the record of the retry loop. *)
Definition quiet (c : js world unit) : Prop :=
  ∀ w, attemptsMade (log (final (c w))) = attemptsMade (log w) ∧
       backoffs (log (final (c w))) = backoffs (log w) ∧
       fallbacks (log (final (c w))) = fallbacks (log w).


(** ** More example inputs *)

(** A cloud renderer that accepts the job and delivers. *)
Definition deliveringShotstack : shotstackModule :=
  {| ensureRemoteUrlForLocalFile := λ _ _ originalName,
       Resolved ("https://cdn.example/uploads/" +:+ originalName);
     submitRenderFromUrl := λ _ _ _ _, Resolved "render-1";
     pollUntilComplete := λ _ _,
       Resolved {| r_success := true;
                   r_url := Some "https://cdn.example/out/render-1.mp4";
                   r_status := Some "done" |} |}.

Definition cloudEnv : env :=
  {| e_tools := missingTools;
     AI_MODE := Some "shotstack";
     shotstack := Some deliveringShotstack;
     uploadsDir := "/srv/uploads";
     projectsDir := "/srv/projects";
     editedDir := "/srv/edited";
     fetch := λ _ _, Response true "rendered";
     stringify := λ s, doubleQuote +:+ s +:+ doubleQuote |}.

(** The run has written [ws] for the job after what was written before, and
    [n] requests have been made. *)
Definition tracks (pid : string) (base ws : list (string * Z * string)) (n : nat)
    (w : world) : Prop :=
  statusWrites pid (log w) = base ++ ws ∧ requests w = n.

(** An event of a pipeline, as opposed to a step of the retry loop. *)
Definition pipelineEvent (ev : event) : Prop :=
  match ev with
  | Attempt _ => False
  | Backoff _ _ => False
  | Fallback => False
  | _ => True
  end.

(** [c] only adds pipeline events to the log. *)
Definition orderly {A : Type} (c : js world A) : Prop :=
  ∀ w, ∃ evs, log (final (c w)) = log w ++ evs ∧ Forall pipelineEvent evs.

(** ** Optional and mandatory stages of the local pipeline *)

(** The command lines of the stages. *)
Definition versionCommand : list string := ["-version"].

Definition probeCommand (videoPath : string) : list string :=
  ["-v"; "quiet"; "-print_format"; "json"; "-show_format"; "-show_streams"; videoPath].

Definition styleCommand (videoPath outputPath style intensity : string) : list string :=
  ["-i"; videoPath; "-vf"; buildStyleFilters (getStyleConfig style intensity);
   "-c:a"; "copy"; "-preset"; "medium"; outputPath].



Definition captionCommand (t : tools) (videoPath outputPath style : string) : list string :=
  ["-i"; videoPath; "-vf";
   "drawtext=text='" +:+ getStyleCaption t style +:+
   "':fontcolor=white:fontsize=48:box=1:boxcolor=black@0.5:boxborderw=5:x=(w-text_w)/2:y=h-th-10";
   "-c:a"; "copy"; "-preset"; "medium"; outputPath].

Definition qualityCommand (inputPath outputPath quality : string) : list string :=
  ["-i"; inputPath] ++
  match JsObject.get qualitySettings quality with
  | Own settings => settings
  | _ => ["-vf"; "scale=1920:1080"; "-crf"; "20"]
  end ++
  ["-c:a"; "aac"; "-b:a"; "128k"; "-preset"; "slow"; "-movflags"; "+faststart"; outputPath].



(** The mandatory stages succeed whenever they are run: FFmpeg answers
    [-version], the source can be probed, and the style filter and the
    quality transcode exit with 0, the style filter leaving its output. *)
Definition mandatoryStagesSucceed (t : tools)
    (inputPath outputPath style intensity quality : string) : Prop :=
  let tempDir := tempDirOf outputPath in
  (∀ n f, ∃ out err written,
     spawn t n (ffmpegPath t) versionCommand f = Closed 0 out err written) ∧
  (∀ n f, ∃ out err,
     probe t n (probeCommand inputPath) f = (0, out, err) ∧ parseInfo t out = Parsed) ∧
  (∀ n f, ∃ out err content,
     spawn t n (ffmpegPath t)
       (styleCommand inputPath (path_join tempDir "styled.mp4") style intensity) f
     = Closed 0 out err (Some content)) ∧
  (quality ∉ objectPrototypeKeys) ∧
  (∀ n f, ∃ out err written,
     spawn t n (ffmpegPath t)
       (qualityCommand (path_join tempDir "captioned.mp4") outputPath quality) f
     = Closed 0 out err written).

(** A command that exits with 0 has written the output file that its
    command line names. *)
Definition leavesOutput (t : tools) : Prop :=
  ∀ n command args f out err,
    spawn t n command args f = Closed 0 out err None → outputOf args = None.

(** [p] holds a file. *)
Definition isFile (p : string) (m : machine) : Prop :=
  ∃ content, files m !! p = Some (File content).

(** None of the paths in [paths] holds a directory. *)
Definition noDirectory (paths : string → Prop) (m : machine) : Prop :=
  ∀ p, paths p → files m !! p ≠ Some Directory.

(** The intermediate files that the optional stages may have to produce
    by copying. *)
Definition copies (outputPath : string) (p : string) : Prop :=
  p = path_join (tempDirOf outputPath) "cut.mp4" ∨
  p = path_join (tempDirOf outputPath) "captioned.mp4".

(** The scratch directory can be created, is not mistaken for an option
    on a command line, and no directory is in the way of an intermediate
    file. *)
Definition scratchAvailable (outputPath : string) (m : machine) : Prop :=
  String.prefix "-" (tempDirOf outputPath) = false ∧
  (∀ content, files m !! tempDirOf outputPath ≠ Some (File content)) ∧
  noDirectory (copies outputPath) m.

(** A disk in the middle of a run: the styled and the cut video are in
    the scratch directory. *)
Definition scratchDisk : machine :=
  {| files := {[ "/srv/uploads/clip.mp4" := File "source";
                 "/srv/projects/temp_processing" := Directory;
                 "/srv/projects/temp_processing/styled.mp4" := File "styled";
                 "/srv/projects/temp_processing/cut.mp4" := File "cut" ]};
     spawned := 3 |}.


(** ** More of the stage library ([ai-processor.js]) *)

(** *** The scene loop of [detectScenes] *)

Section scenes.
(** Subtraction of doubles, [end - start]. *)
Context (minus : Q → Q → Q).

(** The loop over [silenceMatches], on the numbers that [parseFloat]
    reads from the matches of the two patterns (numbers too large for a
    double are left out).  [None] when the loop throws: reading
    [silenceEndMatches[i].split] for an [i] past the end matches. *)
Fixpoint collectScenes (starts ends : list Q) : option (list scene) :=
  match starts with
  | [] => Some []
  | start :: starts' =>
      match ends with
      | [] => None
      | end_ :: ends' =>
          match collectScenes starts' ends' with
          | None => None
          | Some scenes =>
              Some (match Qlt_le_dec 0.5%Q (minus end_ start) with
                    | left _ =>
                        {| start := start; end_ := end_; duration := minus end_ start |}
                        :: scenes
                    | right _ => scenes
                    end)
          end
      end
  end.

(** The parsing of the silencedetect output: [String.match] gives [null]
    ([None]) or the array of all matches. *)
Definition silences (silenceMatches silenceEndMatches : string → option (list Q))
    (silenceInfo : string) : option (list scene) :=
  match silenceMatches silenceInfo, silenceEndMatches silenceInfo with
  | Some starts, Some ends => collectScenes starts ends
  | _, _ => Some []
  end.
End scenes.

(** A silence that scene detection reports. *)
Definition significant (s : scene) : Prop := (0.5 < duration s)%Q.

(** Tools whose silencedetect output has two silences, of 1.5 s and of
    0.25 s. *)
Definition silenceTools : tools :=
  {| ffmpegPath := "ffmpeg";
     ffprobePath := "ffprobe";
     spawn := λ _ _ _ _, Closed 0 "" "" (Some "video");
     probe := λ _ _ _, (0, "{}", "");
     parseInfo := λ _, Parsed;
     parseSilences := silences Qminus (λ _, Some [1; 4]%Q) (λ _, Some [2.5; 4.25]%Q);
     memberText := λ _, "function () { [native code] }";
     spreadError := λ _, "settings is not iterable" |}.


(** ** More of the server ([server.js]) *)

(** *** The identifier of a guest *)

(** [[a-zA-Z0-9]] *)
Definition alphanumeric (c : ascii) : bool :=
  let n := nat_of_ascii c in
  ((48 <=? n) && (n <=? 57) || (65 <=? n) && (n <=? 90) || (97 <=? n) && (n <=? 122))%nat.

(** [s.replace(/[^a-zA-Z0-9]/g, '_')], on the code units of [s]. *)
Fixpoint underscored (s : string) : string :=
  match s with
  | "" => ""
  | String c rest => String (if alphanumeric c then c else "_"%char) (underscored rest)
  end.

(** [`guest_${ip.replace(/[^a-zA-Z0-9]/g, '_')}`] *)
Definition guestUserId (ip : string) : string := "guest_" +:+ underscored ip.

(** *** The file endpoints *)

(** [s.includes(needle)] *)
Fixpoint includes (needle s : string) : bool :=
  String.prefix needle s ||
  match s with
  | "" => false
  | String _ rest => includes needle rest
  end.

Definition lower (c : ascii) : ascii :=
  let n := nat_of_ascii c in
  if ((65 <=? n) && (n <=? 90))%nat then ascii_of_nat (n + 32) else c.

Fixpoint lowered (s : string) : string :=
  match s with
  | "" => ""
  | String c rest => String (lower c) (lowered rest)
  end.

(** [/^https?:\/\//i.test(s)] *)
Definition isRemoteUrl (s : string) : bool :=
  String.prefix "http://" (lowered s) || String.prefix "https://" (lowered s).

(** The clip that the download endpoint sends for a demo project. *)
Definition demoVideoData : string :=
  string_of_list_ascii
    (map ascii_of_nat
       [0; 0; 0; 32; 102; 116; 121; 112; 105; 115; 111; 109;
        0; 0; 2; 0; 105; 115; 111; 109; 105; 115; 111; 50;
        97; 118; 99; 49; 109; 112; 52; 49; 0; 0; 0; 8;
        102; 114; 101; 101; 0; 0; 0; 0; 0; 0; 0; 0]%nat).

(** What a file endpoint sends: a JSON error with its status code, the
    file as an attachment under a file name, the file as a stream for
    preview, or headers followed by a read stream that fails because the
    path is a directory.  The other headers are left out. *)
Inductive sent : Type :=
| Json (code : Z) (error : string)
| Attachment (filename : string) (content : string)
| Inline (content : string)
| StreamFailed (path : string).

Section fileEndpoints.
Context (e : env).
(** [upstream.body.pipe(res)] of the preview endpoint, which depends on
    the implementation of [fetch]. *)
Context (pipeUpstream : string → js world sent).

(** [path.join(dir, null)] *)
Definition joinNull : string :=
  "The " +:+ doubleQuote +:+ "path" +:+ doubleQuote +:+
  " argument must be of type string. Received null".

(** The path at which the endpoints look for a local output: in the
    projects directory, or else in the edited directory. *)
Definition locate (processedVideo : string) (m : machine) : string :=
  let videoPath := path_join (projectsDir e) processedVideo in
  match files m !! videoPath with
  | Some _ => videoPath
  | None =>
      let editedPath := path_join (editedDir e) processedVideo in
      match files m !! editedPath with
      | Some _ => editedPath
      | None => videoPath
      end
  end.

(** [await fetch(url)] *)
Definition fetchUrl (url : string) : js world (bool * string) :=
  request (λ n, match fetch e n url with
                | Response ok body => Resolved (ok, body)
                | FetchError message => Rejected message
                end).

(** [GET /api/projects/:id/download].  The branch for cloud storage
    needs [project.processedVideoKey], which is not a column of the
    table, so it is never taken. *)
Definition getDownload (pid : string) : js world sent :=
  try_catch
    (project ← gets (λ w, getProjectById pid (projects w));
     match project with
     | None => mret (Json 404 "Project not found")
     | Some project =>
         if negb (String.eqb (Project.status project) "completed") then
           mret (Json 400 "Video processing not complete")
         else
           let filename := Project.name project +:+ "-AI-Edited.mp4" in
           let reference := or_else_opt (Project.processedVideo project) "" in
           if negb (String.eqb reference "") && isRemoteUrl reference then
             '(ok, body) ← fetchUrl reference;
             if ok : bool then mret (Attachment filename body)
             else mret (Json 502 "Failed to fetch remote video")
           else if negb (String.eqb reference "") && includes "demo" reference then
             mret (Attachment filename demoVideoData)
           else
             match Project.processedVideo project with
             | None => throw joinNull
             | Some processedVideo =>
                 videoPath ← gets (λ w, locate processedVideo (disk w));
                 found ← gets (λ w, files (disk w) !! videoPath);
                 match found with
                 | None => mret (Json 404 "Processed video file not found")
                 | Some (File content) => mret (Attachment filename content)
                 | Some Directory => mret (StreamFailed videoPath)
                 end
             end
     end)
    (λ _, mret (Json 500 "Failed to download video")).

(** [GET /api/projects/:id/video] *)
Definition getVideo (pid : string) : js world sent :=
  try_catch
    (project ← gets (λ w, getProjectById pid (projects w));
     match project with
     | None => mret (Json 404 "Project not found")
     | Some project =>
         if negb (String.eqb (Project.status project) "completed") then
           mret (Json 400 "Video processing not complete")
         else
           let reference := or_else_opt (Project.processedVideo project) "" in
           if negb (String.eqb reference "") && isRemoteUrl reference then
             '(ok, body) ← fetchUrl reference;
             if ok : bool then pipeUpstream body
             else mret (Json 502 "Failed to fetch remote video")
           else
             match Project.processedVideo project with
             | None => throw joinNull
             | Some processedVideo =>
                 videoPath ← gets (λ w, locate processedVideo (disk w));
                 found ← gets (λ w, files (disk w) !! videoPath);
                 match found with
                 | None => mret (Json 404 "Video file not found")
                 | Some (File content) => mret (Inline content)
                 | Some Directory => mret (StreamFailed videoPath)
                 end
             end
     end)
    (λ _, mret (Json 500 "Failed to serve video")).
End fileEndpoints.

(** *** Example jobs *)

(** A job in a given status with a given output reference. *)
Definition exampleJob (st : string) (processedVideo : option string) : Project.t :=
  Project.mk "p2" "Trip" st "vlog" "high" "720p" "[]"
    "auto" "smart" "2024-02-02T00:00:00.000Z" 2048 100 "Processing completed successfully"
    None processedVideo "trip.mp4" "guest_127_0_0_1".

(** A server with the one job [p]. *)
Definition worldOf (p : Project.t) : world :=
  {| projects := {[ Project.id p := p ]};
     history := [];
     disk := exampleDisk;
     requests := 0;
     timers := [];
     background := [];
     log := [] |}.

(** ** The cloud renderer ([shotstack.js]) *)

Module Shotstack.

(** The request body that [buildTimeline] builds: one track with one
    clip of the source. *)
Record timeline : Type := {
  background : string;
  assetType : string;
  src : string;
  clipStart : Z;
  clipLength : Q;
  fit : string;
  filter : property string;      (* a listed name, or a member of [Object.prototype] *)
  format : string;
  resolution : property string
}.

Definition filtersByStyle : list (string * string) :=
  [ ("cinematic", "boost"); ("mrbeast", "bold"); ("vlog", "bright"); ("podcast", "muted") ].

Definition resolutionMap : list (string * string) :=
  [ ("720p", "sd"); ("1080p", "hd"); ("4k", "ultra"); ("8k", "ultra") ].

(** [table[key] || fallback] for a table of strings. *)
Definition lookupOr (table : list (string * string)) (key fallback : string)
    : property string :=
  match JsObject.get table key with
  | Own "" => Own fallback
  | Own v => Own v
  | Inherited member => Inherited member
  | Missing => Own fallback
  end.

(** [buildTimeline(inputUrl, style, quality, targetSeconds)];
    [targetSeconds] is [Some] for a (finite) number and [None] for
    anything else, [undefined] included. *)
Definition buildTimeline (inputUrl style quality : string) (targetSeconds : option Q)
    : timeline :=
  let filter := lookupOr filtersByStyle style "boost" in
  let resolution := lookupOr resolutionMap quality "hd" in
  let clipLength :=
    match targetSeconds with
    | Some seconds =>
        match Qlt_le_dec 0 seconds with
        | left _ => seconds
        | right _ => 10%Q
        end
    | None => 10%Q
    end in
  {| background := "#000000"; assetType := "video"; src := inputUrl; clipStart := 0;
     clipLength := clipLength; fit := "cover"; filter := filter; format := "mp4";
     resolution := resolution |}.

(** What [getRenderStatus] reads of the answer of the service: [status],
    [output.url] and the [type] and [url] of each of the [assets]. *)
Record renderStatus : Type := {
  rs_status : option string;
  rs_outputUrl : option string;
  rs_assets : option (list (option string * option string))
}.

(** [status.output && status.output.url ? status.output.url :
    (status.assets && status.assets.find(a => a.type === 'video')?.url)],
    and then [url || null]. *)
Definition renderedUrl (status : renderStatus) : option string :=
  match or_else_opt (rs_outputUrl status) "" with
  | "" =>
      match rs_assets status with
      | Some assets =>
          match List.find (λ a : option string * option string,
                             match a.1 with
                             | Some type => String.eqb type "video"
                             | None => false
                             end) assets with
          | Some (_, Some (String c rest)) => Some (String c rest)
          | _ => None
          end
      | None => None
      end
  | url => Some url
  end.

Section polling.
(** The answer to the [i]-th call of [getRenderStatus(id)], which
    rejects when the request fails or the service answers with an
    error status; and the [k]-th reading of [Date.now()]. *)
Context (getRenderStatus : nat → settled renderStatus).
Context (now : nat → Z).

(** The loop of [pollUntilComplete], entered for the [i]-th time.
    [None] when the fuel does not suffice. *)
Fixpoint pollLoop (fuel : nat) (start timeoutMs : Z) (i : nat)
    : option (settled renderResult) :=
  match fuel with
  | O => None
  | S fuel' =>
      if now (S i) - start <? timeoutMs then
        match getRenderStatus i with
        | Rejected message => Some (Rejected message)
        | Resolved status =>
            let st := or_else_opt (rs_status status) "" in
            if String.eqb st "done" then
              Some (Resolved {| r_success := true; r_url := renderedUrl status;
                                r_status := rs_status status |})
            else if String.eqb st "failed" || String.eqb st "error"
                    || String.eqb st "cancelled" then
              Some (Resolved {| r_success := false; r_url := None;
                                r_status := rs_status status |})
            else pollLoop fuel' start timeoutMs (S i)
        end
      else
        Some (Resolved {| r_success := false; r_url := None;
                          r_status := Some "timeout" |})
  end.

(** [pollUntilComplete(id, { intervalMs, timeoutMs })] *)
Definition pollUntilComplete (fuel : nat) (timeoutMs : Z) : option (settled renderResult) :=
  pollLoop fuel (now 0%nat) timeoutMs 0.
End polling.

End Shotstack.

(** *** Example renderers *)


(** A service that never finishes. *)
Definition alwaysRendering (i : nat) : settled Shotstack.renderStatus :=
  Resolved {| Shotstack.rs_status := Some "rendering"; Shotstack.rs_outputUrl := None;
              Shotstack.rs_assets := None |}.

(** A clock that is read every four seconds. *)
Definition tickingClock (k : nat) : Z := 1700000000000 + 4000 * Z.of_nat k.

(** The job's row has been changed by status writes only, and [n]
    requests have been made. *)
Definition statusOnly (pid : string) (p : Project.t) (n : nat) (w : world) : Prop :=
  requests w = n ∧
  ∃ st pr step, projects w !! pid = Some (Project.set_status st pr step p).

(** A cloud renderer that accepts the job and whose polling gives what
    [pollUntilComplete] computes from the answers [getRenderStatus] of the
    service with the clock [now], for the time-out of the pipeline. *)
Definition pollingShotstack (getRenderStatus : nat → settled Shotstack.renderStatus)
    (now : nat → Z) (fuel : nat) : shotstackModule :=
  {| ensureRemoteUrlForLocalFile := λ _ _ originalName,
       Resolved ("https://cdn.example/uploads/" +:+ originalName);
     submitRenderFromUrl := λ _ _ _ _, Resolved "render-1";
     pollUntilComplete := λ _ _,
       match Shotstack.pollUntilComplete getRenderStatus now fuel (12 * 60 * 1000) with
       | Some outcome => outcome
       | None => Rejected "out of fuel"
       end |}.

Definition pollingEnv (getRenderStatus : nat → settled Shotstack.renderStatus)
    (now : nat → Z) (fuel : nat) : env :=
  {| e_tools := missingTools;
     AI_MODE := Some "shotstack";
     shotstack := Some (pollingShotstack getRenderStatus now fuel);
     uploadsDir := "/srv/uploads";
     projectsDir := "/srv/projects";
     editedDir := "/srv/edited";
     fetch := λ _ _, Response true "rendered";
     stringify := λ s, doubleQuote +:+ s +:+ doubleQuote |}.

(** ** The in-memory server ([server-simple.js]) *)

(** The first server of the repository keeps its projects in a [Map] of
    mutable objects.  The objects live in a heap; the map holds their
    addresses, and so do the timer callbacks of a simulation, which go on
    mutating an object after it has been deleted from the map.  The
    mixtape endpoint and its projects are left out. *)
Module Legacy.

Record project : Type := mkProject {
  id : string;
  name : string;
  originalVideo : string;
  style : string;
  intensity : string;
  quality : string;
  status : string;
  createdAt : string;
  thumbnail : option string;
  processedVideo : option string;
  progress : Z;
  estimatedTime : option string;
  errorMessage : option string
}.

Definition set_progress (pr : Z) (p : project) : project :=
  mkProject (id p) (name p) (originalVideo p) (style p) (intensity p) (quality p)
    (status p) (createdAt p) (thumbnail p) (processedVideo p) pr (estimatedTime p)
    (errorMessage p).

(** [project.status = 'processing'; project.progress = 0] *)
Definition restart (p : project) : project :=
  mkProject (id p) (name p) (originalVideo p) (style p) (intensity p) (quality p)
    "processing" (createdAt p) (thumbnail p) (processedVideo p) 0 (estimatedTime p)
    (errorMessage p).

Definition set_estimatedTime (t : string) (p : project) : project :=
  mkProject (id p) (name p) (originalVideo p) (style p) (intensity p) (quality p)
    (status p) (createdAt p) (thumbnail p) (processedVideo p) (progress p) (Some t)
    (errorMessage p).

(** The assignments after a successful copy. *)
Definition complete (p : project) : project :=
  mkProject (id p) (name p) (originalVideo p) (style p) (intensity p) (quality p)
    "completed" (createdAt p) (Some ("thumbnail-" +:+ id p +:+ ".jpg"))
    (Some ("processed-" +:+ id p +:+ ".mp4")) 100 (estimatedTime p) (errorMessage p).

(** The assignments of the [catch] block. *)
Definition fail (message : string) (p : project) : project :=
  mkProject (id p) (name p) (originalVideo p) (style p) (intensity p) (quality p)
    "error" (createdAt p) (thumbnail p) (processedVideo p) (progress p)
    (estimatedTime p) (Some message).

(** The closure [() => { currentStep++; processStep(); }] of a
    simulation: the object it holds and its [currentStep]. *)
Record closure : Type := {
  c_project : nat;
  c_currentStep : nat
}.

Record state : Type := {
  objects : gmap nat project;      (* the heap *)
  projects : gmap string nat;      (* [projects]: id to object *)
  files : gmap string node;
  timers : list (Z * closure);     (* pending [setTimeout] callbacks with their delay *)
  fresh : nat                      (* identifiers and clock readings used so far *)
}.

(** The directory of the server and the sources of identifiers, of clock
    readings and of the messages of file-system errors. *)
Record env : Type := {
  dirname : string;
  uuidv4 : nat → string;
  now : nat → string;              (* [Date.now()] in a template string *)
  isoNow : nat → string;           (* [new Date().toISOString()] *)
  (** the message of the error of [copyFileSync(src, dest)], given what
      is at [src] and at [dest] *)
  copyError : option node → option node → string → string → string
}.

(** What an endpoint answers. *)
Inductive reply : Type :=
| Failure (code : Z) (error : string)
| Uploaded (projectId : string) (project : project)
| Found (project : project)
| Started (project : project)
| Progress (status : string) (progress : Z) (estimatedTime : option string)
| Download (filename content : string)
| Preview (content : string)
| Broken (path : string)
| Deleted.

(** The fields of the upload form. *)
Record form : Type := {
  f_style : string;
  f_intensity : string;
  f_quality : string;
  f_projectName : string
}.

Definition processingSteps : list (string * Z * Z) :=
  [ ("Analyzing video content", 2000, 20);
    ("Detecting scenes and cuts", 3000, 40);
    ("Applying style effects", 4000, 60);
    ("Color grading and enhancement", 3000, 80);
    ("Final rendering", 2000, 100) ].

Definition with_objects (o : gmap nat project) (s : state) : state :=
  {| objects := o; projects := projects s; files := files s; timers := timers s;
     fresh := fresh s |}.

Definition with_files (f : gmap string node) (s : state) : state :=
  {| objects := objects s; projects := projects s; files := f; timers := timers s;
     fresh := fresh s |}.

Definition with_timers (t : list (Z * closure)) (s : state) : state :=
  {| objects := objects s; projects := projects s; files := files s; timers := t;
     fresh := fresh s |}.

(** An assignment to fields of the object at [address]. *)
Definition mutate (address : nat) (f : project → project) (s : state) : state :=
  with_objects (alter f address (objects s)) s.

(** [fs.copyFileSync(src, dest)]: the new files, or the message of the
    error. *)
Definition copyFileSync (e : env) (src dest : string) (f : gmap string node)
    : string + gmap string node :=
  match f !! src, f !! dest with
  | Some (File content), Some Directory => inl (copyError e (f !! src) (f !! dest) src dest)
  | Some (File content), _ => inr (<[dest := File content]> f)
  | _, _ => inl (copyError e (f !! src) (f !! dest) src dest)
  end.

(** [fs.removeSync(path)] *)
Definition removeSync (path : string) (f : gmap string node) : gmap string node :=
  filter (λ kv : string * node, under path kv.1 = false) f.

Section server.
Context (e : env).

Definition uploadsDir : string := path_join (dirname e) "uploads".
Definition projectsDir : string := path_join (dirname e) "projects".

(** [processStep()] of [simulateAIProcessing], for the object at
    [address] and a value of [currentStep]. *)
Definition processStep (address currentStep : nat) (s : state) : state :=
  match processingSteps !! currentStep with
  | None =>
      match objects s !! address with
      | None => s
      | Some project =>
          let originalPath := path_join uploadsDir (originalVideo project) in
          let processedPath :=
            path_join projectsDir ("processed-" +:+ id project +:+ ".mp4") in
          match copyFileSync e originalPath processedPath (files s) with
          | inr copied => mutate address complete (with_files copied s)
          | inl message => mutate address (fail message) s
          end
      end
  | Some (_, duration, progress) =>
      let s := mutate address (set_progress progress) s in
      with_timers (timers s ++ [ (duration, {| c_project := address;
                                               c_currentStep := currentStep |}) ]) s
  end.

(** [simulateAIProcessing(projectId)] *)
Definition simulateAIProcessing (projectId : string) (s : state) : state :=
  match projects s !! projectId with
  | None => s
  | Some address =>
      let s := mutate address (λ p, set_estimatedTime "3-5 minutes" (restart p)) s in
      processStep address 0 s
  end.

(** The [i]-th pending timer fires. *)
Definition fireTimer (i : nat) (s : state) : state :=
  match timers s !! i with
  | Some (_, callback) =>
      processStep (c_project callback) (S (c_currentStep callback))
        (with_timers (delete i (timers s)) s)
  | None => s
  end.

(** Timers fire, oldest first, until none is pending. *)
Fixpoint drainTimers (fuel : nat) (s : state) : state :=
  match fuel, timers s with
  | S fuel', _ :: _ => drainTimers fuel' (fireTimer 0 s)
  | _, _ => s
  end.

(** The object literal of [POST /api/upload]. *)
Definition newProject (projectId filename : string) (body : form) (s : state)
    : project :=
  {| id := projectId;
     name := or_else (f_projectName body) ("Project " +:+ now e (S (fresh s)));
     originalVideo := filename;
     style := or_else (f_style body) "cinematic";
     intensity := or_else (f_intensity body) "medium";
     quality := or_else (f_quality body) "1080p";
     status := "uploaded";
     createdAt := isoNow e (S (S (fresh s)));
     thumbnail := None;
     processedVideo := None;
     progress := 0;
     estimatedTime := None;
     errorMessage := None |}.

(** [POST /api/upload], after [multer] has stored the file under
    [filename] ([None]: the request had no file). *)
Definition postUpload (filename : option string) (body : form) (s : state)
    : reply * state :=
  match filename with
  | None => (Failure 400 "No video file uploaded", s)
  | Some filename =>
      let projectId := uuidv4 e (fresh s) in
      let project := newProject projectId filename body s in
      let address := fresh s in
      let s := {| objects := <[address := project]> (objects s);
                  projects := <[projectId := address]> (projects s);
                  files := files s; timers := timers s;
                  fresh := S (S (S (fresh s))) |} in
      let s := simulateAIProcessing projectId s in
      (match objects s !! address with
       | Some sent => Uploaded projectId sent
       | None => Uploaded projectId project
       end, s)
  end.

(** [GET /api/projects/:id] *)
Definition getProject (pid : string) (s : state) : reply :=
  match projects s !! pid with
  | None => Failure 404 "Project not found"
  | Some address =>
      match objects s !! address with
      | Some project => Found project
      | None => Failure 404 "Project not found"
      end
  end.

(** [POST /api/projects/:id/process] *)
Definition postProcess (pid : string) (s : state) : reply * state :=
  match projects s !! pid with
  | None => (Failure 404 "Project not found", s)
  | Some address =>
      match objects s !! address with
      | None => (Failure 404 "Project not found", s)
      | Some project =>
          if String.eqb (status project) "processing" then
            (Failure 400 "Project is already processing", s)
          else
            let s := mutate address restart s in
            let s := simulateAIProcessing pid s in
            (match objects s !! address with
             | Some sent => Started sent
             | None => Started project
             end, s)
      end
  end.

(** [GET /api/projects/:id/progress] *)
Definition getProgress (pid : string) (s : state) : reply :=
  match getProject pid s with
  | Found project => Progress (status project) (progress project) (estimatedTime project)
  | other => other
  end.

(** The file endpoints: [path.join(projectsDir, project.processedVideo)]
    throws for [null], which Express answers with 500 through the error
    middleware. *)
Definition serve (notFound : string) (send : string → reply) (pid : string) (s : state)
    : reply :=
  match getProject pid s with
  | Found project =>
      if negb (String.eqb (status project) "completed") then
        Failure 400 "Video processing not complete"
      else
        match processedVideo project with
        | None => Failure 500 "Internal server error"
        | Some processedVideo =>
            let videoPath := path_join projectsDir processedVideo in
            match files s !! videoPath with
            | None => Failure 404 notFound
            | Some (File content) => send content
            | Some Directory => Broken videoPath
            end
        end
  | other => other
  end.

(** [GET /api/projects/:id/download] *)
Definition getDownload (pid : string) (s : state) : reply :=
  match getProject pid s with
  | Found project =>
      serve "Processed video file not found"
        (Download (name project +:+ "-AI-Edited.mp4")) pid s
  | other => other
  end.

(** [GET /api/projects/:id/video] *)
Definition getVideo (pid : string) (s : state) : reply :=
  serve "Video file not found" Preview pid s.

(** [DELETE /api/projects/:id] *)
Definition deleteProject (pid : string) (s : state) : reply * state :=
  match projects s !! pid with
  | None => (Failure 404 "Project not found", s)
  | Some address =>
      match objects s !! address with
      | None => (Failure 404 "Project not found", s)
      | Some project =>
          let f := files s in
          let f := match originalVideo project with
                   | "" => f
                   | original => removeSync (path_join uploadsDir original) f
                   end in
          let f := match or_else_opt (processedVideo project) "" with
                   | "" => f
                   | processed => removeSync (path_join projectsDir processed) f
                   end in
          (Deleted,
           {| objects := objects s; projects := delete pid (projects s);
              files := f; timers := timers s; fresh := fresh s |})
      end
  end.
End server.

(** A request or a timer. *)
Inductive step (e : env) : state → state → Prop :=
| step_upload filename body s : step e s (postUpload e filename body s).2
| step_process pid s : step e s (postProcess e pid s).2
| step_delete pid s : step e s (deleteProject e pid s).2
| step_timer i s : step e s (fireTimer e i s).

(** The heap and the timers fit together: addresses are below the next
    fresh one, the map points to objects, and a pending timer is the only
    one of its object, which is [processing]. *)
Definition wellFormed (s : state) : Prop :=
  (∀ address p, objects s !! address = Some p → (address < fresh s)%nat) ∧
  (∀ pid address, projects s !! pid = Some address → is_Some (objects s !! address)) ∧
  NoDup ((λ t : Z * closure, c_project t.2) <$> timers s) ∧
  (∀ t, t ∈ timers s →
     ∃ p, objects s !! c_project t.2 = Some p ∧ status p = "processing").

(** A completed project has its output reference and full progress. *)
Definition completedHasOutput (s : state) : Prop :=
  ∀ address p, objects s !! address = Some p → status p = "completed" →
    processedVideo p = Some ("processed-" +:+ id p +:+ ".mp4") ∧ progress p = 100.

(** The server at start-up, with the files [f] on its disk. *)
Definition initial (f : gmap string node) : state :=
  {| objects := ∅; projects := ∅; files := f; timers := []; fresh := 0 |}.

End Legacy.

(** An in-memory server whose identifiers are [id-0], [id-1], ... *)
Definition legacyEnv : Legacy.env :=
  {| Legacy.dirname := "/srv";
     Legacy.uuidv4 := λ n, "id-" +:+ pretty n;
     Legacy.now := λ n, pretty (1700000000000 + Z.of_nat n);
     Legacy.isoNow := λ _, "2024-01-01T00:00:00.000Z";
     Legacy.copyError := λ _ _ src dest,
       "ENOENT: no such file or directory, copyfile '" +:+ src +:+ "' -> '" +:+ dest +:+ "'" |}.

Definition legacyForm : Legacy.form :=
  {| Legacy.f_style := "vlog"; Legacy.f_intensity := ""; Legacy.f_quality := "";
     Legacy.f_projectName := "Holiday" |}.

(** The disk after [multer] has stored an upload. *)
Definition legacyDisk : gmap string node :=
  {[ "/srv/uploads/1700000000000-u1-clip.mp4" := File "source" ]}.


(** * Properties *)

(** ** The job store *)

Lemma updateProjectStatus_lookup st pr step pid (db : gmap string Project.t) pid' :
  updateProjectStatus st pr step pid db !! pid' =
  if decide (pid = pid') then Project.set_status st pr step <$> db !! pid'
  else db !! pid'.
Proof.
  unfold updateProjectStatus. rewrite lookup_alter.
  destruct (decide (pid = pid')) as [->|]; reflexivity.
Qed.

Lemma updateProject_lookup nm sty int qual eff plat ai thumb pv pid
    (db : gmap string Project.t) pid' :
  updateProject nm sty int qual eff plat ai thumb pv pid db !! pid' =
  if decide (pid = pid')
  then Project.set_details nm sty int qual eff plat ai thumb pv <$> db !! pid'
  else db !! pid'.
Proof.
  unfold updateProject. rewrite lookup_alter.
  destruct (decide (pid = pid')) as [->|]; reflexivity.
Qed.

Lemma updateProjectStatus_missing st pr step pid (db : gmap string Project.t) :
  db !! pid = None → updateProjectStatus st pr step pid db = db.
Proof.
  intros Hnone. apply map_eq. intros k.
  rewrite updateProjectStatus_lookup.
  destruct (decide (pid = k)) as [<-|]; [by rewrite Hnone|done].
Qed.

(** C2, as stated, fails: a completed job at 100 is put back to
    [processing] at 10 by the status update. *)
Lemma terminal_update_counterexample : ¬ terminalImmutable.
Proof.
  intros Himm.
  destruct (Himm {[ "p1" := Project.set_status "completed" 100 "Done" exampleProject ]}
              "p1" (Project.set_status "completed" 100 "Done" exampleProject)
              "processing" 10 "Analyzing video content...")
    as (p' & Hlook & Hprog & _).
  - reflexivity.
  - reflexivity.
  - vm_compute in Hlook. injection Hlook as <-. discriminate Hprog.
Qed.

(** C2, amended: the status update of the store is unconditional.  It
    overwrites status, progress and current step of an existing job
    whatever its status, terminal or not, leaves the other columns and the
    other jobs alone, and is a silent no-op only when the job does not
    exist. *)
Theorem updateProjectStatus_unconditional
    (st : string) (pr : Z) (step pid : string) (db : gmap string Project.t) :
  match db !! pid with
  | Some p =>
      updateProjectStatus st pr step pid db = <[pid := Project.set_status st pr step p]> db
      ∧ Project.status (Project.set_status st pr step p) = st
      ∧ Project.progress (Project.set_status st pr step p) = pr
      ∧ Project.currentStep (Project.set_status st pr step p) = step
  | None => updateProjectStatus st pr step pid db = db
  end.
Proof.
  destruct (db !! pid) as [p|] eqn:Hlook.
  - split; [|done].
    apply map_eq. intros k. rewrite updateProjectStatus_lookup.
    destruct (decide (pid = k)) as [<-|Hne].
    + by rewrite Hlook, lookup_insert_eq.
    + by rewrite lookup_insert_ne.
  - by apply updateProjectStatus_missing.
Qed.

(** ** The stage library *)

Lemma own_baseConfigs_unknown style :
  style ∉ ["cinematic"; "mrbeast"; "vlog"; "podcast"] →
  JsObject.own baseConfigs style = None.
Proof.
  intros Hnot. cbn [JsObject.own baseConfigs].
  repeat match goal with
         | |- context [String.eqb ?k style] =>
             destruct (String.eqb_spec k style) as [<-|_];
             [exfalso; apply Hnot; set_solver|]
         end.
  reflexivity.
Qed.

(** A style that is neither in the table nor a member of
    [Object.prototype] gets the cinematic configuration. *)
Lemma getStyleConfig_unknown_style style intensity :
  style ∉ ["cinematic"; "mrbeast"; "vlog"; "podcast"] →
  style ∉ objectPrototypeKeys →
  getStyleConfig style intensity = getStyleConfig "cinematic" intensity.
Proof.
  intros Hunknown Hproto. unfold getStyleConfig, JsObject.get.
  rewrite (own_baseConfigs_unknown _ Hunknown).
  rewrite bool_decide_eq_false_2 by done.
  reflexivity.
Qed.

Lemma own_intensityMultipliers_unknown intensity :
  intensity ∉ ["light"; "medium"; "high"; "extreme"] →
  JsObject.own intensityMultipliers intensity = None.
Proof.
  intros Hnot. cbn [JsObject.own intensityMultipliers].
  repeat match goal with
         | |- context [String.eqb ?k intensity] =>
             destruct (String.eqb_spec k intensity) as [<-|_];
             [exfalso; apply Hnot; set_solver|]
         end.
  reflexivity.
Qed.

(** An intensity that is neither in the table nor a member of
    [Object.prototype] gets the multiplier 1.0. *)
Lemma getStyleConfig_unknown_intensity style intensity :
  intensity ∉ ["light"; "medium"; "high"; "extreme"] →
  intensity ∉ objectPrototypeKeys →
  AIVideoProcessor.intensity (getStyleConfig style intensity) = Number 1.0%Q.
Proof.
  intros Hunknown Hproto. unfold getStyleConfig, JsObject.get.
  rewrite (own_intensityMultipliers_unknown _ Hunknown).
  rewrite (bool_decide_eq_false_2 (intensity ∈ objectPrototypeKeys)) by done.
  by destruct (JsObject.own baseConfigs style);
    [|destruct (bool_decide (style ∈ objectPrototypeKeys))].
Qed.

(** The multipliers of the recognised intensities. *)
Lemma getStyleConfig_multipliers style :
  AIVideoProcessor.intensity (getStyleConfig style "light") = Number 0.5%Q ∧
  AIVideoProcessor.intensity (getStyleConfig style "medium") = Number 1.0%Q ∧
  AIVideoProcessor.intensity (getStyleConfig style "high") = Number 1.5%Q ∧
  AIVideoProcessor.intensity (getStyleConfig style "extreme") = Number 2.0%Q.
Proof.
  unfold getStyleConfig.
  destruct (JsObject.get baseConfigs style); repeat split; reflexivity.
Qed.

(** C6: the fallback to the cinematic configuration misses the names that
    every object literal inherits.  With the style [constructor] the lookup
    in [baseConfigs] finds [Object], which is truthy and has nothing to
    spread, so the configuration has no filter at all and the filter chain
    is empty; with the intensity [constructor] the multiplier is that
    member, not 1.0, and the chain carries [NaN]. *)
Theorem getStyleConfig_inherited_member :
  ("constructor" ∉ ["cinematic"; "mrbeast"; "vlog"; "podcast"]) ∧
  getStyleConfig "constructor" "medium" = spread_member (Number 1.0%Q) ∧
  getStyleConfig "constructor" "medium" ≠ getStyleConfig "cinematic" "medium" ∧
  buildStyleFilters (getStyleConfig "constructor" "medium") = "" ∧
  ("constructor" ∉ ["light"; "medium"; "high"; "extreme"]) ∧
  AIVideoProcessor.intensity (getStyleConfig "cinematic" "constructor") = Member "constructor" ∧
  buildStyleFilters (getStyleConfig "cinematic" "constructor") =
    "colorlevels=rimin=0.058:gimin=0.058:bimin=0.058:rimax=0.942:gimax=0.942:bimax=0.942,eq=contrast=1.2:brightness=0.05:saturation=1.1,unsharp=3:3:1.5:3:3:0.5,eq=contrast=NaN:saturation=NaN,fps=fps=24".
Proof.
  repeat split; try reflexivity; try discriminate.
  - intros Hin. repeat (apply elem_of_cons in Hin as [Heq|Hin]; [discriminate Heq|]).
    by apply elem_of_nil in Hin.
  - intros Hin. repeat (apply elem_of_cons in Hin as [Heq|Hin]; [discriminate Heq|]).
    by apply elem_of_nil in Hin.
Qed.

(** ** The start endpoint *)

(** C10: the start endpoint refuses a job that is already processing with
    a 400 answer and reports a missing job with a 404 answer; in both
    cases the whole state of the server (the store, the history, the
    pending pipelines) is left as it was. *)
Theorem postProcess_refuses (pid : string) (w : world) :
  (getProjectById pid (projects w) = None →
     postProcess pid w =
       ({| statusCode := 404; json := ErrorBody "Project not found" |}, w)) ∧
  (∀ project,
     getProjectById pid (projects w) = Some project →
     Project.status project = "processing" →
     postProcess pid w =
       ({| statusCode := 400; json := ErrorBody "Project is already processing" |}, w)).
Proof.
  split.
  - intros Hnone. unfold postProcess. by rewrite Hnone.
  - intros project Hsome Hstatus. unfold postProcess. by rewrite Hsome, Hstatus.
Qed.

Lemma postProcess_refuses_witness :
  (getProjectById "p2" (projects exampleWorld) = None ∧
   postProcess "p2" exampleWorld =
     ({| statusCode := 404; json := ErrorBody "Project not found" |}, exampleWorld)) ∧
  (let w := with_projects
              {[ "p1" := Project.set_status "processing" 25 "Detecting scenes and cuts..."
                           exampleProject ]} exampleWorld in
   getProjectById "p1" (projects w) =
     Some (Project.set_status "processing" 25 "Detecting scenes and cuts..." exampleProject) ∧
   postProcess "p1" w =
     ({| statusCode := 400; json := ErrorBody "Project is already processing" |}, w)).
Proof.
  split.
  - split; [reflexivity|].
    apply (proj1 (postProcess_refuses "p2" exampleWorld)). reflexivity.
  - split; [reflexivity|].
    eapply (proj2 (postProcess_refuses "p1" _)); reflexivity.
Defined.

(** ** Rules for triples *)

Section triple_rules.
Context {S : Type}.
Implicit Types P : S → Prop.

Lemma triple_ret {A} P (a : A) (Q : A → S → Prop) X :
  (∀ s, P s → Q a s) → triple P (mret a) Q X.
Proof. intros HPQ s HP. by apply HPQ. Qed.

Lemma triple_throw {A} P err (Q : A → S → Prop) (X : string → S → Prop) :
  (∀ s, P s → X err s) → triple P (throw err) Q X.
Proof. intros HPX s HP. by apply HPX. Qed.

Lemma triple_bind {A B} P (c : js S A) (f : A → js S B) Q R X :
  triple P c Q X → (∀ a, triple (Q a) (f a) R X) → triple P (c ≫= f) R X.
Proof.
  intros Hc Hf s HP. specialize (Hc s HP).
  unfold mbind, js_bind. destruct (c s) as [a s'|err s']; [|done].
  by apply Hf.
Qed.

Lemma triple_try_catch {A} P (c : js S A) handler Q X Y :
  triple P c Q Y → (∀ err, triple (Y err) (handler err) Q X) →
  triple P (try_catch c handler) Q X.
Proof.
  intros Hc Hh s HP. specialize (Hc s HP).
  unfold try_catch. destruct (c s) as [a s'|err s']; [done|].
  by apply Hh.
Qed.

Lemma triple_weaken {A} P P' (c : js S A) (Q Q' : A → S → Prop)
    (X X' : string → S → Prop) :
  triple P' c Q' X' →
  (∀ s, P s → P' s) → (∀ a s, Q' a s → Q a s) → (∀ err s, X' err s → X err s) →
  triple P c Q X.
Proof.
  intros Hc HP HQ HX s Hs. specialize (Hc s (HP s Hs)).
  destruct (c s); eauto.
Qed.

Lemma triple_gets {A} P (f : S → A) (Q : A → S → Prop) X :
  (∀ s, P s → Q (f s) s) → triple P (gets f) Q X.
Proof. intros HPQ s HP. by apply HPQ. Qed.

Lemma triple_modify P (f : S → S) (Q : unit → S → Prop) X :
  (∀ s, P s → Q tt (f s)) → triple P (modify f) Q X.
Proof. intros HPQ s HP. by apply HPQ. Qed.

Lemma triple_any {A} P (c : js S A) :
  triple P c (λ _ _, True) (λ _ _, True).
Proof. intros s _. by destruct (c s). Qed.

Lemma triple_conj {A} P P' (c : js S A) (Q Q' : A → S → Prop)
    (X X' : string → S → Prop) :
  triple P c Q X → triple P' c Q' X' →
  triple (λ s, P s ∧ P' s) c (λ a s, Q a s ∧ Q' a s) (λ err s, X err s ∧ X' err s).
Proof.
  intros Hc Hc' s [HP HP']. specialize (Hc s HP). specialize (Hc' s HP').
  by destruct (c s).
Qed.

Lemma triple_final {A} P (c : js S A) (R : S → Prop) s :
  triple P c (λ _, R) (λ _, R) → P s → R (final (c s)).
Proof. intros Hc HP. specialize (Hc s HP). by destruct (c s). Qed.
End triple_rules.

(** ** The scratch directory of the local pipeline *)

Lemma remove_clears path :
  triple (λ _, True) (remove path)
    (λ _ m, ∀ p, under path p = true → files m !! p = None) (λ _ _, True).
Proof.
  intros m _. cbn. intros p Hunder.
  apply map_lookup_filter_None. right. intros x _. cbn. congruence.
Qed.

(** When [processVideo] returns, nothing is left of its scratch directory. *)
Lemma processVideo_success_clears_scratch t inputPath outputPath style intensity quality :
  triple (λ _, True)
    (processVideo t inputPath outputPath style intensity quality)
    (λ _ m, ∀ p, under (tempDirOf outputPath) p = true → files m !! p = None)
    (λ _ _, True).
Proof.
  unfold processVideo.
  apply triple_try_catch with (Y := λ _ _, True); [|intros; by apply triple_throw].
  eapply triple_bind; [apply triple_any|]. intros available. cbn beta.
  destruct (negb available); [by apply triple_throw|].
  do 7 (eapply triple_bind; [apply triple_any|]; intros ?; cbn beta).
  eapply triple_bind; [|intros; apply triple_ret; intros ? Hclear; exact Hclear].
  eapply triple_weaken; [apply remove_clears|done..].
Qed.

(** C8: the scratch directory is removed only on the path that returns.
    When a stage throws after the directory has been created (here the
    style filter fails), [processVideo] rethrows without cleaning up: the
    job ends in [error] and [temp_processing] is still on disk. *)
Theorem processVideo_failure_leaves_scratch :
  let w := final (processVideoWithAI (localEnv failingTools) "p1" exampleWorld) in
  Project.status <$> projects w !! "p1" = Some "error" ∧
  Project.currentStep <$> projects w !! "p1"
    = Some "Error: Command failed: Conversion failed!" ∧
  files (disk exampleWorld) !! tempDirOf "/srv/projects/processed-p1.mp4" = None ∧
  files (disk w) !! tempDirOf "/srv/projects/processed-p1.mp4" = Some Directory.
Proof. vm_compute. repeat split; reflexivity. Qed.

(** ** Consistency of the status columns is kept by every writer *)

Lemma storeOk_updateProjectStatus st pr step pid db :
  (st = "completed" → pr = 100) → (st = "error" → pr = 0) →
  storeOk db → storeOk (updateProjectStatus st pr step pid db).
Proof.
  intros Hc He Hdb k p. rewrite updateProjectStatus_lookup.
  destruct (decide (pid = k)) as [<-|]; [|apply Hdb].
  destruct (db !! pid) as [p0|]; [|done]. cbn. intros [= <-]. by split.
Qed.

Lemma storeOk_updateProject nm sty int qual eff plat ai thumb pv pid db :
  storeOk db → storeOk (updateProject nm sty int qual eff plat ai thumb pv pid db).
Proof.
  intros Hdb k p. rewrite updateProject_lookup.
  destruct (decide (pid = k)) as [<-|]; [|apply Hdb].
  destruct (db !! pid) as [p0|] eqn:Hlook; [|done]. cbn. intros [= <-].
  exact (Hdb _ _ Hlook).
Qed.

Lemma consistent_log ev w :
  storeOk (projects w) → Forall eventOk (log w) → eventOk ev →
  consistent (with_log (log w ++ [ev]) w).
Proof.
  intros Hdb Hlog Hev. split; [done|].
  cbn. apply Forall_app. split; [done|]. by apply Forall_singleton.
Qed.

Lemma keeps_ret {A} (a : A) : keeps (mret a).
Proof. by apply triple_ret. Qed.

Lemma keeps_throw {A} err : keeps (throw (A := A) err).
Proof. by apply triple_throw. Qed.

Lemma keeps_bind {A B} (c : js world A) (f : A → js world B) :
  keeps c → (∀ a, keeps (f a)) → keeps (c ≫= f).
Proof. intros Hc Hf. eapply triple_bind; [exact Hc|exact Hf]. Qed.

Lemma keeps_try_catch {A} (c : js world A) handler :
  keeps c → (∀ err, keeps (handler err)) → keeps (try_catch c handler).
Proof. intros Hc Hh. eapply triple_try_catch; [exact Hc|exact Hh]. Qed.

Lemma keeps_gets {A} (f : world → A) : keeps (gets f).
Proof. by apply triple_gets. Qed.

Lemma keeps_writeStatus st pr step pid :
  (st = "completed" → pr = 100) → (st = "error" → pr = 0) →
  keeps (writeStatus st pr step pid).
Proof.
  intros Hc He w [Hdb Hlog]. cbn.
  pose proof (storeOk_updateProjectStatus st pr step pid _ Hc He Hdb) as Hdb'.
  split; [done|]. cbn. apply Forall_app. split; [done|].
  apply Forall_singleton. by cbn.
Qed.

Lemma keeps_writeDetails nm sty int qual eff plat ai thumb pv pid :
  keeps (writeDetails nm sty int qual eff plat ai thumb pv pid).
Proof.
  intros w [Hdb Hlog]. cbn.
  pose proof (storeOk_updateProject nm sty int qual eff plat ai thumb pv pid _ Hdb) as Hdb'.
  split; [done|]. cbn. apply Forall_app. split; [done|].
  by apply Forall_singleton.
Qed.

Lemma keeps_addStep pid step st message : keeps (addStep pid step st message).
Proof. intros w [Hdb Hlog]. by split. Qed.

Lemma keeps_sleep ms : keeps (sleep ms).
Proof. intros w [Hdb Hlog]. by apply consistent_log. Qed.

Lemma keeps_setTimeout cb ms : keeps (setTimeout cb ms).
Proof.
  intros w [Hdb Hlog]. cbn. split; [done|]. cbn.
  apply Forall_app. split; [done|]. by apply Forall_singleton.
Qed.

Lemma keeps_onDisk {A} (c : js machine A) : keeps (onDisk c).
Proof.
  intros w [Hdb Hlog]. unfold onDisk.
  destruct (c (disk w)); (split; [done|]); cbn;
    (apply Forall_app; split; [done|]; by apply Forall_singleton).
Qed.

Lemma keeps_request {A} (call : nat → settled A) : keeps (request call).
Proof.
  intros w [Hdb Hlog]. unfold request.
  destruct (call (requests w)); (split; [done|]); cbn;
    (apply Forall_app; split; [done|]; by apply Forall_singleton).
Qed.

Lemma keeps_writeFileSync path content : keeps (writeFileSync path content).
Proof. intros w [Hdb Hlog]. by split. Qed.

Lemma keeps_record_attempt n : keeps (record (Attempt n)).
Proof. intros w [Hdb Hlog]. by apply consistent_log. Qed.

Lemma keeps_record_fallback : keeps (record Fallback).
Proof. intros w [Hdb Hlog]. by apply consistent_log. Qed.

Lemma keeps_record_backoff ms : keeps (λ w, record (Backoff ms (projects w)) w).
Proof. intros w [Hdb Hlog]. by apply consistent_log. Qed.

Lemma keeps_final {A} (c : js world A) w :
  keeps c → consistent w → consistent (final (c w)).
Proof. intros Hc Hw. by eapply triple_final. Qed.

(** One step of a proof that a handler keeps the columns consistent. *)
Ltac keeps_step :=
  first
    [ apply keeps_bind; [|intros ?]
    | apply keeps_try_catch; [|intros ?]
    | apply keeps_ret
    | apply keeps_throw
    | apply keeps_gets
    | apply keeps_writeStatus; [intros; (done || discriminate)..]
    | apply keeps_writeDetails
    | apply keeps_addStep
    | apply keeps_sleep
    | apply keeps_setTimeout
    | apply keeps_onDisk
    | apply keeps_request
    | apply keeps_writeFileSync
    | apply keeps_record_attempt
    | apply keeps_record_fallback
    | apply keeps_record_backoff
    | match goal with
      | |- keeps (match ?x with _ => _ end) => destruct x
      | |- keeps (let '(_, _) := ?x in _) => destruct x
      end ].

Lemma keeps_renderInCloud e sh updateProgress project inputPath pid :
  (∀ pr message, keeps (updateProgress pr message)) →
  keeps (renderInCloud e sh updateProgress project inputPath pid).
Proof.
  intros Hup. unfold renderInCloud.
  repeat first [apply Hup | keeps_step].
Qed.

Lemma keeps_processVideoWithAI e pid : keeps (processVideoWithAI e pid).
Proof.
  unfold processVideoWithAI.
  repeat first [apply keeps_renderInCloud; intros | keeps_step].
Qed.

Lemma keeps_createDemoVideo e : keeps (createDemoVideo e).
Proof. unfold createDemoVideo. repeat keeps_step. Qed.

Lemma keeps_createDemoThumbnail e : keeps (createDemoThumbnail e).
Proof. unfold createDemoThumbnail. repeat keeps_step. Qed.

Lemma keeps_processStep e pid project n : keeps (processStep e pid project n).
Proof.
  unfold processStep.
  repeat first [apply keeps_createDemoVideo | apply keeps_createDemoThumbnail | keeps_step].
Qed.

Lemma keeps_simulateAIProcessing e pid : keeps (simulateAIProcessing e pid).
Proof.
  unfold simulateAIProcessing.
  repeat first [apply keeps_processStep | keeps_step].
Qed.

Lemma keeps_attemptsFrom run fallback retries fuel attempt :
  keeps run → keeps fallback → keeps (attemptsFrom run fallback retries fuel attempt).
Proof.
  intros Hrun Hfb. revert attempt.
  induction fuel as [|fuel IH]; intros attempt; cbn [attemptsFrom].
  - apply keeps_ret.
  - unfold ignoring.
    repeat first [apply Hrun | apply Hfb | apply IH | keeps_step].
Qed.

Lemma keeps_startProcessingWithRetry e pid retries :
  keeps (startProcessingWithRetry e pid retries).
Proof.
  unfold startProcessingWithRetry.
  apply keeps_attemptsFrom; [|apply keeps_simulateAIProcessing].
  destruct (match AI_MODE e with Some m => String.eqb m "simulate" | None => false end).
  - apply keeps_simulateAIProcessing.
  - apply keeps_processVideoWithAI.
Qed.

(** Every step of the system keeps the status columns consistent. *)
Lemma pipelineStep_consistent e w w' :
  pipelineStep e w w' → consistent w → consistent w'.
Proof.
  intros Hstep Hw. destruct Hstep as [pid w|pid w|pid retries w|w|i w|pid w|req w].
  - by apply keeps_final; [apply keeps_processVideoWithAI|].
  - by apply keeps_final; [apply keeps_simulateAIProcessing|].
  - by apply keeps_final; [apply keeps_startProcessingWithRetry|].
  - unfold runBackground. destruct (background w) as [|[pid retries] rest]; [done|].
    apply keeps_final; [apply keeps_startProcessingWithRetry|].
    destruct Hw. by split.
  - unfold fireTimer. destruct (timers w !! i) as [[ms [pid project n]]|]; [|done].
    apply keeps_final; [apply keeps_processStep|]. destruct Hw. by split.
  - unfold postProcess. destruct (getProjectById pid (projects w)); [|done].
    destruct (String.eqb _ _); [done|]. cbn [snd].
    assert (consistent (final (writeStatus "processing" 0 "Starting AI processing" pid w)))
      as [Hdb Hlog] by (apply keeps_final; [keeps_step|done]).
    by split.
  - unfold postRenderWebhook.
    destruct (or_else_opt (wh_projectId req) ""); [done|].
    destruct (getProjectById _ _); [|done].
    destruct (_ && _); [|destruct (_ || _); [|done]]; cbn [snd].
    + apply keeps_final; [keeps_step|]. by apply keeps_final; [keeps_step|].
    + by apply keeps_final; [keeps_step|].
Qed.

Lemma reachable_consistent e w w' :
  rtc (pipelineStep e) w w' → consistent w → consistent w'.
Proof.
  induction 1 as [|w1 w2 w3 Hstep _ IH]; [done|].
  intros Hw. apply IH. by eapply pipelineStep_consistent.
Qed.

(** ** Runs of the local pipeline *)

#[local] Opaque updateProjectStatus updateProject processVideo.

Lemma lookup_status_write st pr step pid (db : gmap string Project.t) :
  updateProjectStatus st pr step pid db !! pid = Project.set_status st pr step <$> db !! pid.
Proof. rewrite updateProjectStatus_lookup. by rewrite decide_True. Qed.

Lemma lookup_details_write nm sty int qual eff plat ai thumb pv pid
    (db : gmap string Project.t) :
  updateProject nm sty int qual eff plat ai thumb pv pid db !! pid =
  Project.set_details nm sty int qual eff plat ai thumb pv <$> db !! pid.
Proof. rewrite updateProject_lookup. by rewrite decide_True. Qed.

(** Unfold a run of [processVideoWithAI] on a job that exists. *)
Ltac run_pipeline Hlook :=
  unfold processVideoWithAI, try_catch, mbind, js_bind, gets, getProjectById;
  rewrite Hlook; cbn.

(** Read the log and the store of a finished run. *)
Create HintDb run.
#[local] Hint Unfold progressSeen storesVisible statusWrites polled getProgress
  getProjectById : run.

Ltac read_run Hlook :=
  autounfold with run; cbn;
  rewrite ?omap_app; cbn;
  rewrite ?String.eqb_refl;
  repeat (first [rewrite lookup_status_write | rewrite lookup_details_write
                | rewrite Hlook]; cbn);
  rewrite ?app_nil_r, <- ?app_assoc; cbn.

(** A run of the local pipeline whose render succeeds. *)
Lemma processVideoWithAI_local_success e pid w p b m :
  rendersLocally e →
  projects w !! pid = Some p →
  localRender e p (disk w) = Ok b m →
  ∃ w' p',
    processVideoWithAI e pid w = Ok tt w' ∧
    statusWrites pid (log w') = statusWrites pid (log w) ++
      [ ("processing", 0, "Starting AI processing");
        ("processing", 10, "Analyzing video content...");
        ("processing", 25, "Detecting scenes and cuts...");
        ("processing", 50, "Applying AI editing style...");
        ("processing", 75, "Processing with AI algorithms...");
        ("processing", 100, "Finalizing video...");
        ("completed", 100, "Processing completed successfully") ] ∧
    progressSeen pid (log w') = progressSeen pid (log w) ++
      [ ("processing", 10); ("processing", 25); ("processing", 50);
        ("processing", 75); ("processing", 100) ] ∧
    projects w' !! pid = Some p' ∧
    Project.status p' = "completed" ∧
    Project.progress p' = 100 ∧
    Project.currentStep p' = "Processing completed successfully" ∧
    Project.processedVideo p' = Some ("processed-" +:+ Project.id p +:+ ".mp4") ∧
    history w' = history w ++
      map (progressEntry pid)
        [ "Analyzing video content..."; "Detecting scenes and cuts...";
          "Applying AI editing style..."; "Processing with AI algorithms...";
          "Finalizing video..." ] ∧
    disk w' = m.
Proof.
  intros Hlocal Hlook Hrender. unfold rendersLocally in Hlocal.
  unfold localRender in Hrender.
  run_pipeline Hlook. rewrite Hlocal. cbn. unfold onDisk. cbn.
  rewrite Hrender. cbn.
  eexists _, _. split; [reflexivity|].
  repeat apply conj; read_run Hlook; reflexivity.
Qed.

(** A run of the local pipeline whose render throws. *)
Lemma processVideoWithAI_local_failure e pid w p err m :
  rendersLocally e →
  projects w !! pid = Some p →
  localRender e p (disk w) = Thrown err m →
  ∃ w' p',
    processVideoWithAI e pid w = Ok tt w' ∧
    statusWrites pid (log w') = statusWrites pid (log w) ++
      [ ("processing", 0, "Starting AI processing");
        ("processing", 10, "Analyzing video content...");
        ("processing", 25, "Detecting scenes and cuts...");
        ("processing", 50, "Applying AI editing style...");
        ("processing", 75, "Processing with AI algorithms...");
        ("error", 0, "Error: " +:+ err) ] ∧
    progressSeen pid (log w') = progressSeen pid (log w) ++
      [ ("processing", 10); ("processing", 25); ("processing", 50);
        ("processing", 75) ] ∧
    projects w' !! pid = Some p' ∧
    Project.status p' = "error" ∧
    Project.progress p' = 0 ∧
    Project.currentStep p' = "Error: " +:+ err ∧
    Project.processedVideo p' = Project.processedVideo p ∧
    history w' = history w ++
      map (progressEntry pid)
        [ "Analyzing video content..."; "Detecting scenes and cuts...";
          "Applying AI editing style..."; "Processing with AI algorithms..." ] ++
      [ {| h_projectId := pid; h_step := "error"; h_status := "error";
           h_message := err |} ] ∧
    disk w' = m.
Proof.
  intros Hlocal Hlook Hrender. unfold rendersLocally in Hlocal.
  unfold localRender in Hrender.
  run_pipeline Hlook. rewrite Hlocal. cbn. unfold onDisk. cbn.
  rewrite Hrender. cbn.
  eexists _, _. split; [reflexivity|].
  repeat apply conj; read_run Hlook; reflexivity.
Qed.

(** ** What a polling client sees during a run *)


Lemma progressSeen_silent pid l ev :
  storesVisible [ev] = [] → progressSeen pid (l ++ [ev]) = progressSeen pid l.
Proof.
  intros Hev. unfold progressSeen, storesVisible in *.
  rewrite !omap_app, Hev. cbn. by rewrite app_nil_r.
Qed.




Lemma progressing_logged pid n w ev :
  storesVisible [ev] = [] →
  progressing pid n w → progressing pid n (with_log (log w ++ [ev]) w).
Proof.
  intros Hev (Hjob & Hseen & Hsorted).
  split; [exact Hjob|]. cbn [log with_log].
  by rewrite (progressSeen_silent _ _ _ Hev).
Qed.

Lemma writeStatus_world st pr step pid w :
  writeStatus st pr step pid w =
    Ok tt (with_log (log w ++ [StatusWritten pid st pr step
                                 (updateProjectStatus st pr step pid (projects w))])
             (with_projects (updateProjectStatus st pr step pid (projects w)) w)).
Proof. reflexivity. Qed.





















Lemma triple_gets_bind {S A B} (P : S → Prop) (f : S → A) (k : A → js S B) Q X :
  (∀ a, triple (λ s, P s ∧ f s = a) (k a) Q X) → triple P (gets f ≫= k) Q X.
Proof. intros Hk s HP. unfold mbind, js_bind, gets. by apply (Hk (f s) s). Qed.



(** ** Monotonic progress *)




(** ** Checkpoints *)

(** C5, as stated, fails: a completed run of the local pipeline has
    persisted 10, 25, 50, 75 and 100 after the reset to 0; there is no
    checkpoint at 90. *)
Lemma six_checkpoints_counterexample :
  statusOf "p1" (final (processVideoWithAI (localEnv workingTools) "p1" exampleWorld))
    = Some "completed" ∧
  checkpoints "p1"
    (log (final (processVideoWithAI (localEnv workingTools) "p1" exampleWorld)))
    = [0; 10; 25; 50; 75; 100] ∧
  ¬ sixCheckpoints (localEnv workingTools) "p1" exampleWorld.
Proof.
  split; [by vm_compute|]. split; [by vm_compute|].
  intros Hsix. unfold sixCheckpoints in Hsix. cbv zeta in Hsix.
  assert (statusOf "p1"
            (final (processVideoWithAI (localEnv workingTools) "p1" exampleWorld))
          = Some "completed") as Hdone by (by vm_compute).
  specialize (Hsix Hdone). vm_compute in Hsix. discriminate Hsix.
Qed.

Lemma statusWrites_silent pid l ev :
  statusWrites pid [ev] = [] → statusWrites pid (l ++ [ev]) = statusWrites pid l.
Proof. intros Hev. unfold statusWrites in *. by rewrite omap_app, Hev, app_nil_r. Qed.

Lemma statusWrites_written pid l st pr step db :
  statusWrites pid (l ++ [StatusWritten pid st pr step db])
  = statusWrites pid l ++ [(st, pr, step)].
Proof. unfold statusWrites. rewrite omap_app. cbn. by rewrite String.eqb_refl. Qed.

Lemma tracks_writeStatus pid base ws n st pr step X :
  triple (tracks pid base ws n) (writeStatus st pr step pid)
    (λ _, tracks pid base (ws ++ [(st, pr, step)]) n) X.
Proof.
  intros w [Hws Hn]. rewrite writeStatus_world. split; [|exact Hn].
  cbn [log with_log]. by rewrite statusWrites_written, Hws, app_assoc.
Qed.

Lemma tracks_addStep pid base ws n pid' step st message X :
  triple (tracks pid base ws n) (addStep pid' step st message)
    (λ _, tracks pid base ws n) X.
Proof. by intros w [Hws Hn]. Qed.

Lemma tracks_sleep pid base ws n ms X :
  triple (tracks pid base ws n) (sleep ms) (λ _, tracks pid base ws n) X.
Proof.
  intros w [Hws Hn]. split; [|exact Hn].
  cbn [log with_log]. by rewrite statusWrites_silent.
Qed.

Lemma tracks_writeFileSync pid base ws n path content X :
  triple (tracks pid base ws n) (writeFileSync path content)
    (λ _, tracks pid base ws n) X.
Proof. by intros w [Hws Hn]. Qed.

Lemma tracks_writeDetails pid base ws n nm sty int qual eff plat ai thumb pv pid' X :
  triple (tracks pid base ws n)
    (writeDetails nm sty int qual eff plat ai thumb pv pid')
    (λ _, tracks pid base ws n) X.
Proof.
  intros w [Hws Hn]. split; [|exact Hn].
  cbn [log with_log]. by rewrite statusWrites_silent.
Qed.

(** A request that the service resolves. *)
Lemma tracks_request pid base ws n {A} (call : nat → settled A) (a : A) X :
  call n = Resolved a →
  triple (tracks pid base ws n) (request call)
    (λ a' w, a' = a ∧ tracks pid base ws (S n) w) X.
Proof.
  intros Hcall w [Hws Hn]. unfold request. rewrite Hn, Hcall.
  split; [done|]. split; [|done].
  cbn [log with_log with_requests]. by rewrite statusWrites_silent.
Qed.

(** A request, whatever the service answers. *)
Lemma tracks_request_any pid base ws n {A} (call : nat → settled A) :
  triple (tracks pid base ws n) (request call)
    (λ _, tracks pid base ws (S n)) (λ _, tracks pid base ws (S n)).
Proof.
  intros w [Hws Hn]. unfold request.
  destruct (call (requests w)); (split; [|by cbn; rewrite Hn]);
    cbn [log with_log with_requests]; by rewrite statusWrites_silent.
Qed.

Lemma tracks_updateProgress pid base ws n pr message X :
  triple (tracks pid base ws n)
    (_ ← writeStatus "processing" pr message pid;
     addStep pid "progress_update" "success" message)
    (λ _, tracks pid base (ws ++ [("processing", pr, message)]) n) X.
Proof.
  eapply triple_bind; [apply tracks_writeStatus|]. intros ?. apply tracks_addStep.
Qed.

Lemma triple_pure {S A} (φ : Prop) (P : S → Prop) (c : js S A) Q X :
  (φ → triple P c Q X) → triple (λ s, φ ∧ P s) c Q X.
Proof. intros Hc s [Hφ HP]. by apply Hc. Qed.

Lemma triple_pre {S A} (P P' : S → Prop) (c : js S A) Q X :
  (∀ s, P s → P' s) → triple P' c Q X → triple P c Q X.
Proof. intros HP Hc. by eapply triple_weaken. Qed.

(** The download of the rendered video: one request, whatever comes of
    it. *)
Lemma tracks_download pid base ws n e url (project : Project.t) X :
  triple (tracks pid base ws n)
    (try_catch
       ('(ok, body) ← request (λ n, match fetch e n url with
                                    | Response ok body => Resolved (ok, body)
                                    | FetchError message => Rejected message
                                    end);
        if ok : bool then
          let localEditedName := "edited-" +:+ Project.id project +:+ ".mp4" in
          let localEditedPath := path_join (editedDir e) localEditedName in
          _ ← writeFileSync localEditedPath body;
          mret localEditedName
        else mret url)
       (λ _, mret url))
    (λ _, tracks pid base ws (S n)) X.
Proof.
  apply triple_try_catch with (Y := λ _, tracks pid base ws (S n));
    [|intros; by apply triple_ret].
  eapply triple_bind; [apply tracks_request_any|]. intros [ok body].
  destruct ok; [|by apply triple_ret].
  eapply triple_bind; [apply tracks_writeFileSync|]. intros ?. by apply triple_ret.
Qed.

(** A run of the cloud pipeline whose render is delivered. *)
Lemma processVideoWithAI_cloud_success e sh pid p inputUrl jobId result c rest base n :
  String.eqb (mode e) "shotstack" = true →
  shotstack e = Some sh →
  ensureRemoteUrlForLocalFile sh n
    (path_join (uploadsDir e) (Project.originalVideo p)) (Project.originalVideo p)
    = Resolved inputUrl →
  submitRenderFromUrl sh (S n) inputUrl (Project.style p) (Project.quality p)
    = Resolved jobId →
  pollUntilComplete sh (S (S n)) jobId = Resolved result →
  r_success result = true →
  or_else_opt (r_url result) "" = String c rest →
  triple (λ w, projects w !! pid = Some p ∧ tracks pid base [] n w)
    (processVideoWithAI e pid)
    (λ _, tracks pid base
       [ ("processing", 0, "Starting AI processing");
         ("processing", 10, "Analyzing video content...");
         ("processing", 25, "Detecting scenes and cuts...");
         ("processing", 50, "Applying AI editing style...");
         ("processing", 75, "Processing with AI algorithms...");
         ("processing", 76, "Uploading to cloud renderer...");
         ("processing", 82, "Submitting cloud render...");
         ("processing", 90, "Rendering in the cloud...");
         ("processing", 100, "Finalizing video...");
         ("completed", 100, "Processing completed successfully") ]
       (S (S (S (S n)))))
    (λ _ _, False).
Proof.
  intros Hmode Hsh Hensure Hsubmit Hpoll Hsuccess Hurl.
  unfold processVideoWithAI.
  apply triple_try_catch with (Y := λ _ _, False); [|by intros err w []].
  apply triple_gets_bind. intros [project|].
  2: { intros w [[Hlook _] Hnone]. unfold getProjectById in Hnone. congruence. }
  apply triple_pre with (P' := λ w, project = p ∧ tracks pid base [] n w).
  { intros w [[Hlook ?] Hget]. unfold getProjectById in Hget. split; [congruence|done]. }
  apply triple_pure. intros ->. cbv zeta. rewrite Hmode, Hsh.
  eapply triple_bind; [apply tracks_writeStatus|]. intros ?.
  eapply triple_bind; [apply tracks_updateProgress|]. intros ?.
  eapply triple_bind; [apply tracks_sleep|]. intros ?.
  eapply triple_bind; [apply tracks_updateProgress|]. intros ?.
  eapply triple_bind; [apply tracks_sleep|]. intros ?.
  eapply triple_bind; [apply tracks_updateProgress|]. intros ?.
  eapply triple_bind; [apply tracks_sleep|]. intros ?.
  eapply triple_bind; [apply tracks_updateProgress|]. intros ?.
  eapply triple_bind.
  { unfold renderInCloud.
    eapply triple_bind; [apply tracks_updateProgress|]. intros ?.
    eapply triple_bind; [by apply tracks_request|]. intros inputUrl'.
    apply triple_pure. intros ->.
    eapply triple_bind; [apply tracks_updateProgress|]. intros ?.
    eapply triple_bind; [by apply tracks_request|]. intros jobId'.
    apply triple_pure. intros ->.
    eapply triple_bind; [apply tracks_updateProgress|]. intros ?.
    eapply triple_bind; [by apply tracks_request|]. intros result'.
    apply triple_pure. intros ->. rewrite Hsuccess, Hurl.
    eapply triple_bind; [apply tracks_download|].
    intros processedField. apply tracks_writeDetails. }
  intros ?.
  eapply triple_bind; [apply tracks_updateProgress|]. intros ?.
  eapply triple_bind; [apply tracks_sleep|]. intros ?.
  eapply triple_bind.
  { destruct (negb _); [apply tracks_writeDetails|by apply triple_ret]. }
  intros ?. apply tracks_writeStatus.
Qed.

Lemma checkpoints_app pid l l' :
  statusWrites pid l' = statusWrites pid l ++
    [ ("processing", 0, "Starting AI processing");
      ("processing", 10, "Analyzing video content...");
      ("processing", 25, "Detecting scenes and cuts...");
      ("processing", 50, "Applying AI editing style...");
      ("processing", 75, "Processing with AI algorithms...");
      ("processing", 100, "Finalizing video...");
      ("completed", 100, "Processing completed successfully") ] →
  checkpoints pid l' = checkpoints pid l ++ [0; 10; 25; 50; 75; 100].
Proof. intros Hw. unfold checkpoints. by rewrite Hw, omap_app. Qed.

(** C5, amended: a run of the real pipeline persists status, progress and
    current step together, at fixed checkpoints that announce the steps.  In
    the local FFmpeg mode a run that completes writes, after the reset to 0,
    exactly the five checkpoints 10, 25, 50, 75 and 100 and then [completed]
    at 100; there is no checkpoint at 90.  In the cloud mode a run whose
    render is delivered writes 76, 82 and 90 between 75 and 100. *)
Theorem pipeline_checkpoints (e : env) (pid : string) (w : world) (p : Project.t) :
  projects w !! pid = Some p →
  (∀ b m,
     rendersLocally e →
     localRender e p (disk w) = Ok b m →
     let w' := final (processVideoWithAI e pid w) in
     statusWrites pid (log w') = statusWrites pid (log w) ++
       [ ("processing", 0, "Starting AI processing");
         ("processing", 10, "Analyzing video content...");
         ("processing", 25, "Detecting scenes and cuts...");
         ("processing", 50, "Applying AI editing style...");
         ("processing", 75, "Processing with AI algorithms...");
         ("processing", 100, "Finalizing video...");
         ("completed", 100, "Processing completed successfully") ] ∧
     checkpoints pid (log w') = checkpoints pid (log w) ++ [0; 10; 25; 50; 75; 100]) ∧
  (∀ sh inputUrl jobId result c rest,
     String.eqb (mode e) "shotstack" = true →
     shotstack e = Some sh →
     ensureRemoteUrlForLocalFile sh (requests w)
       (path_join (uploadsDir e) (Project.originalVideo p)) (Project.originalVideo p)
       = Resolved inputUrl →
     submitRenderFromUrl sh (S (requests w)) inputUrl (Project.style p) (Project.quality p)
       = Resolved jobId →
     pollUntilComplete sh (S (S (requests w))) jobId = Resolved result →
     r_success result = true →
     or_else_opt (r_url result) "" = String c rest →
     let w' := final (processVideoWithAI e pid w) in
     statusWrites pid (log w') = statusWrites pid (log w) ++
       [ ("processing", 0, "Starting AI processing");
         ("processing", 10, "Analyzing video content...");
         ("processing", 25, "Detecting scenes and cuts...");
         ("processing", 50, "Applying AI editing style...");
         ("processing", 75, "Processing with AI algorithms...");
         ("processing", 76, "Uploading to cloud renderer...");
         ("processing", 82, "Submitting cloud render...");
         ("processing", 90, "Rendering in the cloud...");
         ("processing", 100, "Finalizing video...");
         ("completed", 100, "Processing completed successfully") ]).
Proof.
  intros Hlook. split.
  - intros b m Hlocal Hrender w'.
    destruct (processVideoWithAI_local_success e pid w p b m Hlocal Hlook Hrender)
      as (w1 & p1 & Hrun & Hwrites & _).
    subst w'. rewrite Hrun. cbn [final]. split; [exact Hwrites|].
    by apply checkpoints_app.
  - intros sh inputUrl jobId result c rest Hmode Hsh Hensure Hsubmit Hpoll Hsuccess Hurl w'.
    pose proof (processVideoWithAI_cloud_success e sh pid p inputUrl jobId result c rest
                  (statusWrites pid (log w)) (requests w)
                  Hmode Hsh Hensure Hsubmit Hpoll Hsuccess Hurl w) as Hrun.
    assert (projects w !! pid = Some p ∧
            tracks pid (statusWrites pid (log w)) [] (requests w) w) as Hpre
      by (split; [exact Hlook|split; [by rewrite app_nil_r|done]]).
    specialize (Hrun Hpre). subst w'.
    destruct (processVideoWithAI e pid w); [apply Hrun|destruct Hrun].
Qed.

Lemma pipeline_checkpoints_witness :
  (projects exampleWorld !! "p1" = Some exampleProject ∧
   rendersLocally (localEnv workingTools) ∧
   (∃ b m, localRender (localEnv workingTools) exampleProject (disk exampleWorld) = Ok b m) ∧
   let w' := final (processVideoWithAI (localEnv workingTools) "p1" exampleWorld) in
   statusWrites "p1" (log w') = statusWrites "p1" (log exampleWorld) ++
     [ ("processing", 0, "Starting AI processing");
       ("processing", 10, "Analyzing video content...");
       ("processing", 25, "Detecting scenes and cuts...");
       ("processing", 50, "Applying AI editing style...");
       ("processing", 75, "Processing with AI algorithms...");
       ("processing", 100, "Finalizing video...");
       ("completed", 100, "Processing completed successfully") ] ∧
   checkpoints "p1" (log w') = checkpoints "p1" (log exampleWorld) ++ [0; 10; 25; 50; 75; 100]) ∧
  (String.eqb (mode cloudEnv) "shotstack" = true ∧
   shotstack cloudEnv = Some deliveringShotstack ∧
   let w' := final (processVideoWithAI cloudEnv "p1" exampleWorld) in
   statusWrites "p1" (log w') = statusWrites "p1" (log exampleWorld) ++
     [ ("processing", 0, "Starting AI processing");
       ("processing", 10, "Analyzing video content...");
       ("processing", 25, "Detecting scenes and cuts...");
       ("processing", 50, "Applying AI editing style...");
       ("processing", 75, "Processing with AI algorithms...");
       ("processing", 76, "Uploading to cloud renderer...");
       ("processing", 82, "Submitting cloud render...");
       ("processing", 90, "Rendering in the cloud...");
       ("processing", 100, "Finalizing video...");
       ("completed", 100, "Processing completed successfully") ]).
Proof.
  split.
  - split; [reflexivity|]. split; [reflexivity|]. split.
    + eexists _, _. vm_compute. reflexivity.
    + eapply (proj1 (pipeline_checkpoints (localEnv workingTools) "p1" exampleWorld
                       exampleProject eq_refl)).
      * reflexivity.
      * vm_compute. reflexivity.
  - split; [reflexivity|]. split; [reflexivity|].
    eapply (proj2 (pipeline_checkpoints cloudEnv "p1" exampleWorld exampleProject eq_refl)
              deliveringShotstack); reflexivity.
Defined.

(** ** The status columns at every state *)

Lemma consistent_stores w db :
  consistent w →
  db ∈ storesWritten (log w) ++ storesVisible (log w) ++ [projects w] →
  storeOk db.
Proof.
  intros [Hdb Hlog] Hin. rewrite Forall_forall in Hlog.
  rewrite !elem_of_app in Hin. destruct Hin as [Hin|[Hin|Hin]].
  - apply list_elem_of_omap in Hin as (ev & Hev & Hsome).
    specialize (Hlog ev Hev). destruct ev; try discriminate Hsome;
      injection Hsome as <-; cbn in Hlog; tauto.
  - apply list_elem_of_omap in Hin as (ev & Hev & Hsome).
    specialize (Hlog ev Hev). destruct ev; try discriminate Hsome;
      injection Hsome as <-; cbn in Hlog; tauto.
  - by apply list_elem_of_singleton in Hin as ->.
Qed.

Lemma consistent_example : consistent exampleWorld.
Proof.
  split; [|constructor].
  apply map_Forall_singleton. split; discriminate.
Qed.

(** C3, as stated, fails on a run of the local pipeline that succeeds: the
    store after the finalizing checkpoint has the job at 100 and still
    [processing], and the store after the write of the output reference has
    the reference set and the job still [processing]. *)
Lemma output_invariant_counterexample :
  let stores :=
    storesWritten (log (final (processVideoWithAI (localEnv workingTools) "p1" exampleWorld))) in
  (polled "p1" <$> stores !! 5%nat) = Some (Some ("processing", 100)) ∧
  (polled "p1" <$> stores !! 6%nat) = Some (Some ("processing", 100)) ∧
  ((λ db, Project.processedVideo <$> db !! "p1") <$> stores !! 6%nat)
    = Some (Some (Some "processed-p1.mp4")) ∧
  ¬ outputInvariant (localEnv workingTools) "p1" exampleWorld.
Proof.
  cbv zeta. split; [by vm_compute|]. split; [by vm_compute|]. split; [by vm_compute|].
  unfold outputInvariant. intros Hinv. rewrite Forall_lookup in Hinv.
  destruct (storesWritten
              (log (final (processVideoWithAI (localEnv workingTools) "p1" exampleWorld)))
              !! 5%nat) as [db|] eqn:Hdb; [|by vm_compute in Hdb].
  specialize (Hinv _ _ Hdb).
  destruct (db !! "p1") as [p|] eqn:Hp.
  - destruct (Hinv "p1" p Hp) as [_ [Hfull _]].
    assert (Project.progress p = 100 ∧ Project.status p = "processing") as [Hpr Hst].
    { vm_compute in Hdb. injection Hdb as <-. vm_compute in Hp. injection Hp as <-.
      by split. }
    specialize (Hfull Hpr). rewrite Hst in Hfull. discriminate Hfull.
  - vm_compute in Hdb. injection Hdb as <-. vm_compute in Hp. discriminate Hp.
Qed.

(** C3, amended: in every state after a store write of the pipeline, of
    the simulation or of the two writing handlers, and in the state they
    leave, a job with status [completed] has progress 100; and when a run of
    the local FFmpeg pipeline leaves the job [completed], its output
    reference is set, to [processed-<id>.mp4].  Neither converse holds at the
    level of store writes. *)
Theorem completed_implies_full_progress (e : env) :
  (∀ w w',
     consistent w → rtc (pipelineStep e) w w' →
     ∀ db, db ∈ storesWritten (log w') ++ [projects w'] →
     ∀ pid p, db !! pid = Some p →
       Project.status p = "completed" → Project.progress p = 100) ∧
  (∀ pid w p,
     rendersLocally e → projects w !! pid = Some p →
     ∃ p', projects (final (processVideoWithAI e pid w)) !! pid = Some p' ∧
       (Project.status p' = "completed" →
        Project.progress p' = 100 ∧
        Project.processedVideo p' = Some ("processed-" +:+ Project.id p +:+ ".mp4"))).
Proof.
  split.
  - intros w w' Hw Hreach db Hin pid p Hlook Hdone.
    pose proof (reachable_consistent e w w' Hreach Hw) as Hw'.
    assert (storeOk db) as Hdb.
    { apply (consistent_stores w' db Hw').
      rewrite !elem_of_app in *. tauto. }
    by apply (Hdb pid p Hlook).
  - intros pid w p Hlocal Hlook.
    destruct (localRender e p (disk w)) as [b m|err m] eqn:Hrender.
    + destruct (processVideoWithAI_local_success e pid w p b m Hlocal Hlook Hrender)
        as (w1 & p1 & Hrun & _ & _ & Hlook1 & _ & Hpr & _ & Hout & _).
      rewrite Hrun. exists p1. by split.
    + destruct (processVideoWithAI_local_failure e pid w p err m Hlocal Hlook Hrender)
        as (w1 & p1 & Hrun & _ & _ & Hlook1 & Hst & _).
      rewrite Hrun. exists p1. split; [done|]. rewrite Hst. discriminate.
Qed.

Lemma completed_implies_full_progress_witness :
  (consistent exampleWorld ∧
   rtc (pipelineStep (localEnv workingTools)) exampleWorld
     (final (processVideoWithAI (localEnv workingTools) "p1" exampleWorld)) ∧
   ∀ db,
     db ∈ storesWritten
            (log (final (processVideoWithAI (localEnv workingTools) "p1" exampleWorld)))
          ++ [projects (final (processVideoWithAI (localEnv workingTools) "p1" exampleWorld))] →
     ∀ pid p, db !! pid = Some p →
       Project.status p = "completed" → Project.progress p = 100) ∧
  (rendersLocally (localEnv workingTools) ∧
   projects exampleWorld !! "p1" = Some exampleProject ∧
   ∃ p', projects (final (processVideoWithAI (localEnv workingTools) "p1" exampleWorld))
           !! "p1" = Some p' ∧
     (Project.status p' = "completed" →
      Project.progress p' = 100 ∧
      Project.processedVideo p'
        = Some ("processed-" +:+ Project.id exampleProject +:+ ".mp4"))).
Proof.
  split.
  - split; [exact consistent_example|]. split; [apply rtc_once, step_pipeline|].
    apply (proj1 (completed_implies_full_progress (localEnv workingTools))
             exampleWorld).
    + exact consistent_example.
    + apply rtc_once, step_pipeline.
  - split; [reflexivity|]. split; [reflexivity|].
    apply (proj2 (completed_implies_full_progress (localEnv workingTools))
             "p1" exampleWorld exampleProject); reflexivity.
Defined.

(** C9: every write that puts a job into [error], by the pipeline, by the
    simulation or by the render webhook, writes progress 0 with it, so in
    every state after such a write, in every state visible while a
    pipeline is suspended and in the state left at the end, a job in
    [error] is at 0; in particular a local run whose render throws leaves
    the job in [error] at 0 although the last progress a polling client saw
    was 75. *)
Theorem error_resets_progress (e : env) :
  (∀ w w',
     consistent w → rtc (pipelineStep e) w w' →
     (∀ pid st pr step after,
        StatusWritten pid st pr step after ∈ log w' → st = "error" → pr = 0) ∧
     (∀ db, db ∈ storesWritten (log w') ++ storesVisible (log w') ++ [projects w'] →
        ∀ pid p, db !! pid = Some p →
          Project.status p = "error" → Project.progress p = 0)) ∧
  (∀ pid w p err m,
     rendersLocally e → projects w !! pid = Some p →
     localRender e p (disk w) = Thrown err m →
     let w' := final (processVideoWithAI e pid w) in
     last (progressSeen pid (log w')) = Some ("processing", 75) ∧
     polled pid (projects w') = Some ("error", 0)).
Proof.
  split.
  - intros w w' Hw Hreach.
    pose proof (reachable_consistent e w w' Hreach Hw) as Hw'. split.
    + intros pid st pr step after Hin Herr.
      destruct Hw' as [_ Hlog]. rewrite Forall_forall in Hlog.
      specialize (Hlog _ Hin). cbn in Hlog. tauto.
    + intros db Hin pid p Hlook Herr.
      by apply (consistent_stores w' db Hw' Hin pid p Hlook).
  - intros pid w p err m Hlocal Hlook Hrender w'.
    destruct (processVideoWithAI_local_failure e pid w p err m Hlocal Hlook Hrender)
      as (w1 & p1 & Hrun & _ & Hseen & Hlook1 & Hst & Hpr & _).
    subst w'. rewrite Hrun. cbn [final]. split.
    + rewrite Hseen.
      change [("processing", 10); ("processing", 25); ("processing", 50); ("processing", 75)]
        with ([("processing", 10); ("processing", 25); ("processing", 50)]
              ++ [("processing", 75)]).
      rewrite app_assoc. apply last_snoc.
    + unfold polled, getProgress, getProjectById. rewrite Hlook1. cbn.
      by rewrite Hst, Hpr.
Qed.

Lemma error_resets_progress_witness :
  (consistent exampleWorld ∧
   rtc (pipelineStep (localEnv failingTools)) exampleWorld
     (final (processVideoWithAI (localEnv failingTools) "p1" exampleWorld)) ∧
   (∀ pid st pr step after,
      StatusWritten pid st pr step after
        ∈ log (final (processVideoWithAI (localEnv failingTools) "p1" exampleWorld)) →
      st = "error" → pr = 0)) ∧
  (rendersLocally (localEnv failingTools) ∧
   projects exampleWorld !! "p1" = Some exampleProject ∧
   (∃ err m, localRender (localEnv failingTools) exampleProject (disk exampleWorld)
             = Thrown err m) ∧
   let w' := final (processVideoWithAI (localEnv failingTools) "p1" exampleWorld) in
   last (progressSeen "p1" (log w')) = Some ("processing", 75) ∧
   polled "p1" (projects w') = Some ("error", 0)).
Proof.
  split.
  - split; [exact consistent_example|]. split; [apply rtc_once, step_pipeline|].
    apply (proj1 (error_resets_progress (localEnv failingTools)) exampleWorld).
    + exact consistent_example.
    + apply rtc_once, step_pipeline.
  - split; [reflexivity|]. split; [reflexivity|]. split.
    + eexists _, _. vm_compute. reflexivity.
    + eapply (proj2 (error_resets_progress (localEnv failingTools))
                "p1" exampleWorld exampleProject).
      * reflexivity.
      * reflexivity.
      * vm_compute. reflexivity.
Defined.

(** ** The retry loop *)

Lemma orderly_ret {A} (a : A) : orderly (mret a).
Proof. intros w. exists []. by rewrite app_nil_r. Qed.

Lemma orderly_throw {A} err : orderly (throw (A := A) err).
Proof. intros w. exists []. by rewrite app_nil_r. Qed.

Lemma orderly_gets {A} (f : world → A) : orderly (gets f).
Proof. intros w. exists []. by rewrite app_nil_r. Qed.

Lemma orderly_bind {A B} (c : js world A) (f : A → js world B) :
  orderly c → (∀ a, orderly (f a)) → orderly (c ≫= f).
Proof.
  intros Hc Hf w. destruct (Hc w) as (evs & Hlog & Hevs).
  unfold mbind, js_bind. destruct (c w) as [a w1|err w1]; cbn [final] in *.
  - destruct (Hf a w1) as (evs' & Hlog' & Hevs').
    exists (evs ++ evs'). split; [by rewrite Hlog', Hlog, app_assoc|].
    by apply Forall_app.
  - by exists evs.
Qed.

Lemma orderly_try_catch {A} (c : js world A) handler :
  orderly c → (∀ err, orderly (handler err)) → orderly (try_catch c handler).
Proof.
  intros Hc Hh w. destruct (Hc w) as (evs & Hlog & Hevs).
  unfold try_catch. destruct (c w) as [a w1|err w1]; cbn [final] in *.
  - by exists evs.
  - destruct (Hh err w1) as (evs' & Hlog' & Hevs').
    exists (evs ++ evs'). split; [by rewrite Hlog', Hlog, app_assoc|].
    by apply Forall_app.
Qed.

Lemma orderly_event {A} (c : js world A) :
  (∀ w, ∃ ev, log (final (c w)) = log w ++ [ev] ∧ pipelineEvent ev) → orderly c.
Proof.
  intros Hc w. destruct (Hc w) as (ev & Hlog & Hev).
  exists [ev]. split; [done|by apply Forall_singleton].
Qed.

Lemma orderly_writeStatus st pr step pid : orderly (writeStatus st pr step pid).
Proof. apply orderly_event. intros w. by eexists. Qed.

Lemma orderly_writeDetails nm sty int qual eff plat ai thumb pv pid :
  orderly (writeDetails nm sty int qual eff plat ai thumb pv pid).
Proof. apply orderly_event. intros w. by eexists. Qed.

Lemma orderly_sleep ms : orderly (sleep ms).
Proof. apply orderly_event. intros w. by eexists. Qed.

Lemma orderly_setTimeout cb ms : orderly (setTimeout cb ms).
Proof. apply orderly_event. intros w. by eexists. Qed.

Lemma orderly_onDisk {A} (c : js machine A) : orderly (onDisk c).
Proof.
  apply orderly_event. intros w. unfold onDisk.
  destruct (c (disk w)); by eexists.
Qed.

Lemma orderly_request {A} (call : nat → settled A) : orderly (request call).
Proof.
  apply orderly_event. intros w. unfold request.
  destruct (call (requests w)); by eexists.
Qed.

Lemma orderly_addStep pid step st message : orderly (addStep pid step st message).
Proof. intros w. exists []. by rewrite app_nil_r. Qed.

Lemma orderly_writeFileSync path content : orderly (writeFileSync path content).
Proof. intros w. exists []. by rewrite app_nil_r. Qed.

Ltac orderly_step :=
  first
    [ apply orderly_bind; [|intros ?]
    | apply orderly_try_catch; [|intros ?]
    | apply orderly_ret
    | apply orderly_throw
    | apply orderly_gets
    | apply orderly_writeStatus
    | apply orderly_writeDetails
    | apply orderly_addStep
    | apply orderly_sleep
    | apply orderly_setTimeout
    | apply orderly_onDisk
    | apply orderly_request
    | apply orderly_writeFileSync
    | match goal with
      | |- orderly (match ?x with _ => _ end) => destruct x
      | |- orderly (let '(_, _) := ?x in _) => destruct x
      end ].

Lemma orderly_processVideoWithAI e pid : orderly (processVideoWithAI e pid).
Proof. unfold processVideoWithAI, renderInCloud. repeat orderly_step. Qed.

Lemma orderly_simulateAIProcessing e pid : orderly (simulateAIProcessing e pid).
Proof.
  unfold simulateAIProcessing, processStep, createDemoVideo, createDemoThumbnail.
  repeat orderly_step.
Qed.

Lemma attemptsMade_pipeline l evs :
  Forall pipelineEvent evs → attemptsMade (l ++ evs) = attemptsMade l.
Proof.
  intros Hevs. unfold attemptsMade. rewrite omap_app.
  rewrite <- (app_nil_r (omap _ l)) at 2. f_equal.
  induction Hevs as [|ev evs Hev _ IH]; [done|]. cbn. by destruct ev.
Qed.

Lemma backoffs_pipeline l evs :
  Forall pipelineEvent evs → backoffs (l ++ evs) = backoffs l.
Proof.
  intros Hevs. unfold backoffs. rewrite omap_app.
  rewrite <- (app_nil_r (omap _ l)) at 2. f_equal.
  induction Hevs as [|ev evs Hev _ IH]; [done|]. cbn. by destruct ev.
Qed.

Lemma fallbacks_pipeline l evs :
  Forall pipelineEvent evs → fallbacks (l ++ evs) = fallbacks l.
Proof.
  intros Hevs. unfold fallbacks. rewrite List.filter_app, length_app.
  cut (List.filter (λ ev, match ev with Fallback => true | _ => false end) evs = []).
  { intros ->. cbn. lia. }
  induction Hevs as [|ev evs Hev _ IH]; [done|]. cbn. by destruct ev.
Qed.

Lemma orderly_quiet (c : js world unit) : orderly c → quiet c.
Proof.
  intros Hc w. destruct (Hc w) as (evs & -> & Hevs).
  by rewrite attemptsMade_pipeline, backoffs_pipeline, fallbacks_pipeline.
Qed.

(** In the model the pipeline never rejects: whatever is thrown inside is
    caught and turned into the [error] status. *)
Lemma processVideoWithAI_returns e pid w :
  ∃ w', processVideoWithAI e pid w = Ok tt w'.
Proof.
  unfold processVideoWithAI, try_catch.
  match goal with |- context [match ?body w with _ => _ end] => destruct (body w) as [[] w1|err w1] end.
  - by eexists.
  - by eexists.
Qed.

Lemma simulateAIProcessing_returns e pid w :
  ∃ w', simulateAIProcessing e pid w = Ok tt w'.
Proof.
  unfold simulateAIProcessing, try_catch.
  match goal with |- context [match ?body w with _ => _ end] => destruct (body w) as [[] w1|err w1] end.
  - by eexists.
  - by eexists.
Qed.


(** One turn of the loop whose run returns. *)
Lemma attemptsFrom_returns run fallback retries fuel attempt w w1 :
  (attempt <=? retries)%nat = true →
  run (with_log (log w ++ [Attempt attempt]) w) = Ok tt w1 →
  attemptsFrom run fallback retries (S fuel) attempt w = Ok tt w1.
Proof.
  intros Hle Hrun. cbn [attemptsFrom]. rewrite Hle.
  unfold mbind, js_bind, try_catch, record, modify. by rewrite Hrun.
Qed.




Lemma retry_record_attempt l n :
  attemptsMade (l ++ [Attempt n]) = attemptsMade l ++ [n] ∧
  backoffs (l ++ [Attempt n]) = backoffs l ∧
  fallbacks (l ++ [Attempt n]) = fallbacks l.
Proof.
  unfold attemptsMade, backoffs, fallbacks.
  rewrite !omap_app, List.filter_app, length_app. cbn.
  by rewrite app_nil_r, Nat.add_0_r.
Qed.




(** A run that returns is attempted once. *)
Lemma attemptsFrom_single run fallback retries w :
  quiet run → (1 ≤ retries)%nat →
  (∀ w0, ∃ w1, run w0 = Ok tt w1) →
  ∃ w', attemptsFrom run fallback retries retries 1 w = Ok tt w' ∧
    attemptsMade (log w') = attemptsMade (log w) ++ [1%nat] ∧
    backoffs (log w') = backoffs (log w) ∧
    fallbacks (log w') = fallbacks (log w).
Proof.
  intros Hquiet Hretries Hreturns.
  destruct (Hreturns (with_log (log w ++ [Attempt 1]) w)) as (w1 & Hw1).
  exists w1. destruct retries as [|retries]; [lia|].
  split; [by apply attemptsFrom_returns|].
  destruct (Hquiet (with_log (log w ++ [Attempt 1]) w)) as (Ha & Hb & Hf).
  rewrite Hw1 in Ha, Hb, Hf. cbn [final log with_log] in Ha, Hb, Hf.
  destruct (retry_record_attempt (log w) 1) as (Ha0 & Hb0 & Hf0).
  by rewrite Ha, Hb, Hf, Ha0, Hb0, Hf0.
Qed.




(** The loop as the server runs it: the pipeline returns even when its
    render has failed, so there is one attempt whatever happens. *)
Lemma startProcessingWithRetry_single_attempt e pid retries w :
  (1 ≤ retries)%nat →
  ∃ w', startProcessingWithRetry e pid retries w = Ok tt w' ∧
    attemptsMade (log w') = attemptsMade (log w) ++ [1%nat] ∧
    backoffs (log w') = backoffs (log w) ∧
    fallbacks (log w') = fallbacks (log w).
Proof.
  intros Hretries. unfold startProcessingWithRetry.
  destruct (match AI_MODE e with Some m => String.eqb m "simulate" | None => false end).
  - apply attemptsFrom_single; [|done|].
    + apply orderly_quiet, orderly_simulateAIProcessing.
    + intros w0. apply simulateAIProcessing_returns.
  - apply attemptsFrom_single; [|done|].
    + apply orderly_quiet, orderly_processVideoWithAI.
    + intros w0. apply processVideoWithAI_returns.
Qed.

(** ** Strings and paths *)

Lemma string_eqb_app a b c : String.eqb (a +:+ b) (a +:+ c) = String.eqb b c.
Proof.
  induction a as [|x a IH]; [done|].
  change (String.eqb (String x (a +:+ b)) (String x (a +:+ c)) = String.eqb b c).
  cbn [String.eqb]. by rewrite Ascii.eqb_refl.
Qed.

Lemma string_prefix_app a b c : String.prefix (a +:+ b) (a +:+ c) = String.prefix b c.
Proof.
  induction a as [|x a IH]; [done|].
  change (String.prefix (String x (a +:+ b)) (String x (a +:+ c)) = String.prefix b c).
  cbn [String.prefix]. destruct (ascii_dec x x); [done|congruence].
Qed.

Lemma string_app_assoc a b c : (a +:+ b) +:+ c = a +:+ (b +:+ c).
Proof.
  induction a as [|x a IH]; [done|].
  change (String x ((a +:+ b) +:+ c) = String x (a +:+ (b +:+ c))). by rewrite IH.
Qed.

Lemma string_app_nil_r a : a +:+ "" = a.
Proof.
  induction a as [|x a IH]; [done|].
  change (String x (a +:+ "") = String x a). by rewrite IH.
Qed.

Lemma string_app_inv_head a b c : a +:+ b = a +:+ c → b = c.
Proof.
  intros Heq. apply String.eqb_eq. rewrite <- (string_eqb_app a).
  by apply String.eqb_eq.
Qed.

Lemma sibling_ne d a b : a ≠ b → d +:+ a ≠ d +:+ b.
Proof. intros Hne Heq. by apply Hne, (string_app_inv_head d). Qed.

Lemma below_ne d a : a ≠ "" → d +:+ a ≠ d.
Proof.
  intros Hne Heq. apply Hne, (string_app_inv_head d). by rewrite string_app_nil_r.
Qed.

Lemma dirname_aux_segment d name :
  dirname_aux name = None → dirname_aux (d +:+ "/" +:+ name) = Some d.
Proof.
  intros Hname. induction d as [|x d IH].
  - change (dirname_aux (String "/" name) = Some ""). cbn [dirname_aux].
    by rewrite Hname.
  - change (dirname_aux (String x (d +:+ "/" +:+ name)) = Some (String x d)).
    cbn [dirname_aux]. by rewrite IH.
Qed.

Lemma path_dirname_join d name :
  d ≠ "" → name ≠ "" → dirname_aux name = None →
  path_dirname (path_join d name) = d.
Proof.
  intros Hd Hn Hname. unfold path_dirname, path_join.
  destruct name as [|y name]; [done|].
  rewrite (dirname_aux_segment d (String y name) Hname).
  by destruct d.
Qed.

Lemma tempDirOf_nonempty outputPath : tempDirOf outputPath ≠ "".
Proof.
  unfold tempDirOf, path_join. by destruct (path_dirname outputPath).
Qed.

Lemma under_sibling d a b :
  String.eqb a b = false → String.prefix (a +:+ "/") b = false →
  under (d +:+ a) (d +:+ b) = false.
Proof.
  intros Hne Hpre. unfold under.
  by rewrite string_eqb_app, Hne, string_app_assoc, string_prefix_app, Hpre.
Qed.

Lemma outputOf_snoc l p :
  String.prefix "-" p = false → outputOf (l ++ [p]) = Some p.
Proof.
  intros Hp. unfold outputOf. rewrite last_snoc.
  destruct p as [|x p]; [done|]. cbn in Hp.
  destruct (ascii_dec "-" x) as [<-|Hne]; [by destruct p|].
  by destruct x as [[] [] [] [] [] [] [] []].
Qed.

Lemma plain_join d name :
  d ≠ "" → String.prefix "-" d = false → String.prefix "-" (path_join d name) = false.
Proof.
  intros Hd Hp. unfold path_join. destruct name as [|y name]; [done|].
  destruct d as [|x d]; [done|].
  change (String.prefix "-" (String x (d +:+ "/" +:+ String y name)) = false).
  cbn [String.prefix] in *.
  destruct (ascii_dec "-" x); [|done]. by destruct d.
Qed.

(** ** Optional stages of the local pipeline *)

#[local] Transparent processVideo.

Lemma isFile_leave p written args f :
  (∃ content, f !! p = Some (File content)) →
  ∃ content, leave written args f !! p = Some (File content).
Proof.
  intros [content Hp]. unfold leave.
  destruct written as [new|], (outputOf args) as [path|]; try by exists content.
  destruct (decide (path = p)) as [->|Hne].
  - exists new. by rewrite lookup_insert_eq.
  - exists content. by rewrite lookup_insert_ne.
Qed.

(** A command leaves the other files in place, whether it succeeds or
    fails. *)
Lemma runCommand_keeps_file t command args p :
  triple (isFile p) (runCommand t command args) (λ _, isFile p) (λ _, isFile p).
Proof.
  intros m Hp. unfold runCommand.
  destruct (spawn t (spawned m) command args (files m)) as [code out err written|message];
    [|exact Hp].
  destruct (code =? 0); by apply isFile_leave.
Qed.

(** A command that returns has left its output, when the tool writes what
    it is asked for. *)
Lemma runCommand_output t command args p q :
  leavesOutput t → outputOf args = Some p →
  triple (isFile q) (runCommand t command args) (λ _ m, isFile p m ∧ isFile q m)
    (λ _, isFile q).
Proof.
  intros Hleaves Hout m Hq. unfold runCommand.
  destruct (spawn t (spawned m) command args (files m))
    as [code out err written|message] eqn:Hspawn; [|exact Hq].
  destruct (Z.eqb_spec code 0) as [->|Hcode]; [|by apply isFile_leave].
  split; [|by apply isFile_leave].
  destruct written as [content|].
  - exists content. unfold leave. rewrite Hout. cbn. by rewrite lookup_insert_eq.
  - apply Hleaves in Hspawn. congruence.
Qed.

(** A command that is known to exit with 0. *)
Lemma runCommand_succeeds t command args (R : option string → Prop) m :
  (∀ n f, ∃ out err written,
     spawn t n command args f = Closed 0 out err written ∧ R written) →
  ∃ out written,
    runCommand t command args m
      = Ok out {| files := leave written args (files m); spawned := S (spawned m) |} ∧
    R written.
Proof.
  intros Hspawn. unfold runCommand.
  destruct (Hspawn (spawned m) (files m)) as (out & err & written & -> & HR).
  by exists out, written.
Qed.

Lemma leave_not_directory p written args f :
  f !! p ≠ Some Directory → leave written args f !! p ≠ Some Directory.
Proof.
  intros Hp. unfold leave.
  destruct written as [new|], (outputOf args) as [path|]; try done.
  destruct (decide (path = p)) as [->|Hne].
  - by rewrite lookup_insert_eq.
  - by rewrite lookup_insert_ne.
Qed.

(** A command puts no directory in the place of anything. *)
Lemma runCommand_keeps_noDirectory t command args paths :
  triple (noDirectory paths) (runCommand t command args)
    (λ _, noDirectory paths) (λ _, noDirectory paths).
Proof.
  intros m Hm. unfold runCommand.
  destruct (spawn t (spawned m) command args (files m)) as [code out err written|message];
    [|exact Hm].
  destruct (code =? 0); intros p Hp; apply leave_not_directory, Hm, Hp.
Qed.


(** Copying a file to another path that holds no directory. *)
Lemma copy_passes_through src dest m content :
  files m !! src = Some (File content) →
  src ≠ dest →
  files m !! dest ≠ Some Directory →
  copy src dest m = Ok tt (set_files (<[dest := File content]> (files m)) m).
Proof.
  intros Hsrc Hne Hdest. unfold copy. rewrite Hsrc.
  apply String.eqb_neq in Hne.
  destruct (files m !! dest) as [[other|]|]; [by rewrite Hne|done|by rewrite Hne].
Qed.

Lemma copy_file src dest paths :
  src ≠ dest → paths dest →
  triple (λ m, isFile src m ∧ noDirectory paths m) (copy src dest)
    (λ _ m, isFile dest m ∧ noDirectory paths m) (λ _ _, False).
Proof.
  intros Hne Hdest m [[content Hsrc] Hno].
  rewrite (copy_passes_through src dest m content Hsrc Hne (Hno dest Hdest)).
  unfold isFile, noDirectory, set_files. cbn [files]. split.
  - exists content. by rewrite lookup_insert_eq.
  - intros p Hp. destruct (decide (dest = p)) as [->|Hother].
    + by rewrite lookup_insert_eq.
    + rewrite lookup_insert_ne by done. by apply Hno.
Qed.

Lemma remove_keeps_noDirectory path paths :
  triple (noDirectory paths) (remove path) (λ _, noDirectory paths) (λ _, noDirectory paths).
Proof.
  intros m Hm p Hp. unfold remove, set_files. cbn [files].
  intros Hlook. apply map_lookup_filter_Some in Hlook as [Hlook _]. by apply (Hm p Hp).
Qed.

Lemma remove_keeps_file path p :
  under path p = false →
  triple (isFile p) (remove path) (λ _, isFile p) (λ _, isFile p).
Proof.
  intros Hunder m [content Hp]. exists content.
  unfold remove, set_files. cbn [files].
  by apply map_lookup_filter_Some.
Qed.

(** Scene detection never throws, leaves a file outside its audio scratch
    file in place, and creates no directory. *)
Lemma detectScenes_keeps_file t videoPath outputPath p paths :
  under (path_join (path_dirname outputPath) "temp_audio.wav") p = false →
  triple (λ m, isFile p m ∧ noDirectory paths m) (detectScenes t videoPath outputPath)
    (λ _ m, isFile p m ∧ noDirectory paths m) (λ _ _, False).
Proof.
  intros Hunder. unfold detectScenes.
  apply triple_try_catch with (Y := λ _ m, isFile p m ∧ noDirectory paths m);
    [|intros; by apply triple_ret].
  eapply triple_bind;
    [apply triple_conj; [apply runCommand_keeps_file|apply runCommand_keeps_noDirectory]|].
  intros ?.
  eapply triple_bind;
    [apply triple_conj; [apply runCommand_keeps_file|apply runCommand_keeps_noDirectory]|].
  intros silenceInfo.
  eapply triple_bind with (Q := λ _ m, isFile p m ∧ noDirectory paths m).
  { destruct (parseSilences t silenceInfo); [by apply triple_ret|by apply triple_throw]. }
  intros scenes.
  eapply triple_bind;
    [apply triple_conj; [by apply remove_keeps_file|apply remove_keeps_noDirectory]|].
  intros ?. by apply triple_ret.
Qed.

(** The cut stage always returns with a file at its output, given a file
    at its input. *)
Lemma applyJumpCuts_output t videoPath outputPath style paths :
  leavesOutput t →
  String.prefix "-" outputPath = false →
  under (path_join (path_dirname outputPath) "temp_audio.wav") videoPath = false →
  videoPath ≠ outputPath → paths outputPath →
  triple (λ m, isFile videoPath m ∧ noDirectory paths m)
    (applyJumpCuts t videoPath outputPath style)
    (λ _ m, isFile outputPath m ∧ noDirectory paths m) (λ _ _, False).
Proof.
  intros Hleaves Hplain Hunder Hne Hdest. unfold applyJumpCuts.
  apply triple_try_catch with (Y := λ _ m, isFile videoPath m ∧ noDirectory paths m).
  - eapply triple_bind.
    { eapply triple_weaken;
        [by apply (detectScenes_keeps_file t videoPath outputPath videoPath paths)
        |done|intros ? m Hm; exact Hm|].
      intros ? ? []. }
    intros [|scene scenes].
    + eapply triple_weaken; [by apply copy_file|done|done|by intros ? ? []].
    + eapply triple_bind; [|intros ?; apply triple_ret; intros m Hm; exact Hm].
      eapply triple_weaken;
        [apply triple_conj;
           [apply (runCommand_output t _ _ outputPath videoPath Hleaves)
           |apply (runCommand_keeps_noDirectory t _ _ paths)]
        |intros m Hm; exact Hm|by intros ? ? [[? ?] ?]|intros ? m Hm; exact Hm].
      exact (outputOf_snoc
               ["-i"; videoPath; "-filter_complex";
                buildJumpCutFilter (scene :: scenes) style;
                "-c:a"; "copy"; "-preset"; "fast"] outputPath Hplain).
  - intros err. by apply copy_file.
Qed.

(** The caption stage always returns, given a file at its input. *)
Lemma addCaptions_returns t videoPath outputPath style paths :
  videoPath ≠ outputPath → paths outputPath →
  triple (λ m, isFile videoPath m ∧ noDirectory paths m)
    (addCaptions t videoPath outputPath style)
    (λ _ _, True) (λ _ _, False).
Proof.
  intros Hne Hdest. unfold addCaptions.
  apply triple_try_catch with (Y := λ _ m, isFile videoPath m ∧ noDirectory paths m).
  - eapply triple_bind; [|intros ?; by apply triple_ret].
    eapply triple_weaken;
      [apply triple_conj;
         [apply (runCommand_keeps_file t _ _ videoPath)
         |apply (runCommand_keeps_noDirectory t _ _ paths)]
      |intros m Hm; exact Hm|done|intros ? m Hm; exact Hm].
  - intros err.
    eapply triple_weaken; [by apply copy_file|done|done|done].
Qed.

Lemma outputOf_last l p path : outputOf (l ++ [p]) = Some path → path = p.
Proof.
  unfold outputOf. rewrite last_snoc. destruct p as [|x rest]; [congruence|].
  destruct x as [[] [] [] [] [] [] [] []]; congruence.
Qed.




Lemma leave_option written args f :
  outputOf args = None → leave written args f = f.
Proof. intros Hout. unfold leave. rewrite Hout. by destruct written. Qed.

Lemma get_not_inherited {A} (table : list (string * A)) key :
  key ∉ objectPrototypeKeys →
  JsObject.get table key = match JsObject.own table key with
                           | Some v => Own v
                           | None => Missing
                           end.
Proof.
  intros Hkey. unfold JsObject.get. destruct (JsObject.own table key); [done|].
  by rewrite bool_decide_eq_false_2.
Qed.

(** When the mandatory stages succeed, the local pipeline returns, whatever
    the tools of the optional stages do. *)
Lemma processVideo_completes t inputPath outputPath style intensity quality :
  mandatoryStagesSucceed t inputPath outputPath style intensity quality →
  leavesOutput t →
  triple (scratchAvailable outputPath)
    (processVideo t inputPath outputPath style intensity quality)
    (λ b _, b = true) (λ _ _, False).
Proof.
  intros (Hversion & Hprobe & Hstyle & Hquality & Htranscode) Hleaves.
  cbv zeta in Hstyle, Htranscode.
  set (tempDir := tempDirOf outputPath) in *.
  assert (tempDir ≠ "") as Hnonempty by apply tempDirOf_nonempty.
  unfold processVideo. fold tempDir.
  apply triple_try_catch with (Y := λ _ _, False); [|by intros err m []].
  (* FFmpeg is available *)
  eapply triple_bind with (Q := λ b m, b = true ∧ scratchAvailable outputPath m).
  { intros m Hm. unfold checkFFmpeg, try_catch, mbind, js_bind.
    destruct (runCommand_succeeds t (ffmpegPath t) versionCommand (λ _, True) m)
      as (out & written & Hrun & _).
    { intros n f. destruct (Hversion n f) as (out & err & written & Hspawn).
      by exists out, err, written. }
    unfold versionCommand in Hrun. rewrite Hrun. cbn. split; [done|].
    by rewrite leave_option. }
  intros available. apply triple_pure. intros ->. cbn [negb].
  (* the source can be probed *)
  eapply triple_bind with (Q := λ info m, info = Parsed ∧ scratchAvailable outputPath m).
  { intros m Hm. unfold getVideoInfo.
    destruct (Hprobe (spawned m) (files m)) as (out & err & Hp & Hinfo).
    unfold probeCommand in Hp. rewrite Hp. cbn. by rewrite Hinfo. }
  intros info. apply triple_pure. intros ->.
  eapply triple_bind with (Q := λ _, scratchAvailable outputPath);
    [by apply triple_ret|]. intros ?.
  (* the scratch directory *)
  eapply triple_bind
    with (Q := λ _ m, String.prefix "-" tempDir = false ∧ noDirectory (copies outputPath) m).
  { intros m (Hplain & Hfree & Hno). unfold ensureDir. fold tempDir in Hfree |- *.
    assert (noDirectory (copies outputPath)
              (set_files (<[tempDir := Directory]> (files m)) m)) as Hno'.
    { intros p Hp. unfold set_files. cbn [files].
      rewrite lookup_insert_ne; [by apply Hno|].
      destruct Hp as [->| ->]; fold tempDir; intros Heq; symmetry in Heq;
        by apply (below_ne tempDir _) in Heq. }
    destruct (files m !! tempDir) as [[content|]|] eqn:Hdir;
      [by destruct (Hfree content)|done..]. }
  intros ?.
  apply triple_pure. intros Hplain.
  (* the style filter *)
  eapply triple_bind
    with (Q := λ _ m, isFile (path_join tempDir "styled.mp4") m ∧
                      noDirectory (copies outputPath) m).
  { intros m Hno. unfold applyStyle, try_catch, mbind, js_bind.
    destruct (runCommand_succeeds t (ffmpegPath t)
                (styleCommand inputPath (path_join tempDir "styled.mp4") style intensity)
                (λ written, is_Some written) m) as (out & written & Hrun & [content ->]).
    { intros n f. destruct (Hstyle n f) as (out & err & content & Hspawn).
      by exists out, err, (Some content). }
    unfold styleCommand in Hrun. rewrite Hrun. split.
    - exists content. unfold leave. cbn [files].
      pose proof (outputOf_snoc
                    ["-i"; inputPath; "-vf"; buildStyleFilters (getStyleConfig style intensity);
                     "-c:a"; "copy"; "-preset"; "medium"] (path_join tempDir "styled.mp4")
                    (plain_join _ _ Hnonempty Hplain)) as Hout.
      cbn [app] in Hout. rewrite Hout.
      by rewrite lookup_insert_eq.
    - intros p Hp. cbn [files]. by apply leave_not_directory, Hno. }
  intros ?.
  (* the cuts *)
  eapply triple_bind
    with (Q := λ _ m, isFile (path_join tempDir "cut.mp4") m ∧
                      noDirectory (copies outputPath) m).
  { destruct (bool_decide (style ∈ ["mrbeast"; "cinematic"; "vlog"])).
    - apply applyJumpCuts_output; [done|by apply plain_join| | |by left].
      + rewrite path_dirname_join by done.
        by apply (under_sibling tempDir "/temp_audio.wav" "/styled.mp4").
      + by apply (sibling_ne tempDir "/styled.mp4" "/cut.mp4").
    - apply copy_file; [|by left].
      by apply (sibling_ne tempDir "/styled.mp4" "/cut.mp4"). }
  intros ?.
  (* the captions *)
  eapply triple_bind.
  { apply addCaptions_returns with (paths := copies outputPath); [|by right].
    by apply (sibling_ne tempDir "/cut.mp4" "/captioned.mp4"). }
  intros ?.
  (* the quality transcode *)
  eapply triple_bind with (Q := λ _ _, True).
  { intros m _. unfold optimizeQuality.
    rewrite (get_not_inherited qualitySettings quality Hquality).
    destruct (runCommand_succeeds t (ffmpegPath t)
                (qualityCommand (path_join tempDir "captioned.mp4") outputPath quality)
                (λ _, True) m) as (out & written & Hrun & _).
    { intros n f. destruct (Htranscode n f) as (out & err & written & Hspawn).
      by exists out, err, written. }
    unfold qualityCommand in Hrun.
    rewrite (get_not_inherited qualitySettings quality Hquality) in Hrun.
    unfold mbind, js_bind.
    destruct (JsObject.own qualitySettings quality); by rewrite Hrun. }
  intros ?.
  eapply triple_bind with (Q := λ _ _, True); [by intros m _|].
  intros ?. by apply triple_ret.
Qed.

#[local] Opaque processVideo.






#[local] Transparent updateProjectStatus updateProject processVideo.

(** ** The stage library beyond the claims *)

(** X1: without a working FFmpeg, [processVideo] throws [FFmpeg not
    available] after the one version check, and no file is touched. *)
Theorem processVideo_without_ffmpeg (t : tools)
    (inputPath outputPath style intensity quality : string) (m : machine) :
  (∀ out err written,
     spawn t (spawned m) (ffmpegPath t) ["-version"] (files m) ≠ Closed 0 out err written) →
  processVideo t inputPath outputPath style intensity quality m
    = Thrown "FFmpeg not available" {| files := files m; spawned := S (spawned m) |}.
Proof.
  intros Hversion.
  unfold processVideo, try_catch, mbind, js_bind, checkFFmpeg, try_catch, mbind, js_bind,
    runCommand.
  destruct (spawn t (spawned m) (ffmpegPath t) ["-version"] (files m))
    as [code out err written|message] eqn:Hspawn; [|reflexivity].
  destruct (Z.eqb_spec code 0) as [->|Hcode]; [by destruct (Hversion out err written)|].
  cbn. by rewrite leave_option.
Qed.

Lemma processVideo_without_ffmpeg_witness :
  (∀ out err written,
     spawn missingTools (spawned exampleDisk) (ffmpegPath missingTools) ["-version"]
       (files exampleDisk) ≠ Closed 0 out err written) ∧
  processVideo missingTools "/srv/uploads/clip.mp4" "/srv/projects/processed-p1.mp4"
    "cinematic" "medium" "1080p" exampleDisk
    = Thrown "FFmpeg not available"
        {| files := files exampleDisk; spawned := S (spawned exampleDisk) |}.
Proof.
  split; [intros out err written; discriminate|].
  apply (processVideo_without_ffmpeg missingTools).
  intros out err written; discriminate.
Defined.

(** X2: scene detection never throws: whatever its tools do, it returns a
    list of scenes, after running one or two commands; and when it returns
    any scene, its temporary audio file is gone. *)
Theorem detectScenes_never_throws (t : tools) (videoPath outputPath : string) (m : machine) :
  ∃ scenes m',
    detectScenes t videoPath outputPath m = Ok scenes m' ∧
    (spawned m < spawned m' ≤ spawned m + 2)%nat ∧
    (scenes ≠ [] →
     files m' !! path_join (path_dirname outputPath) "temp_audio.wav" = None).
Proof.
  unfold detectScenes, try_catch, mbind, js_bind.
  set (audioPath := path_join (path_dirname outputPath) "temp_audio.wav").
  destruct (runCommand t (ffmpegPath t) _ m) as [out1 m1|err1 m1] eqn:Hfirst.
  - assert (spawned m1 = S (spawned m)) as Hm1.
    { unfold runCommand in Hfirst.
      destruct (spawn t (spawned m) _ _ (files m)) as [code o e wr|msg];
        [destruct (code =? 0)|]; by simplify_eq. }
    destruct (runCommand t (ffmpegPath t) _ m1) as [out2 m2|err2 m2] eqn:Hsecond.
    + assert (spawned m2 = S (spawned m1)) as Hm2.
      { unfold runCommand in Hsecond.
        destruct (spawn t (spawned m1) _ _ (files m1)) as [code o e wr|msg];
          [destruct (code =? 0)|]; by simplify_eq. }
      destruct (parseSilences t out2) as [scenes|].
      * cbn. eexists _, _. split; [reflexivity|]. cbn. split; [lia|].
        intros _. apply map_lookup_filter_None. right. intros x _. cbn.
        unfold under. by rewrite String.eqb_refl.
      * cbn. eexists _, _. split; [reflexivity|]. split; [lia|done].
    + assert (spawned m2 = S (spawned m1)) as Hm2.
      { unfold runCommand in Hsecond.
        destruct (spawn t (spawned m1) _ _ (files m1)) as [code o e wr|msg];
          [destruct (code =? 0)|]; by simplify_eq. }
      eexists _, _. split; [reflexivity|]. split; [lia|done].
  - assert (spawned m1 = S (spawned m)) as Hm1.
    { unfold runCommand in Hfirst.
      destruct (spawn t (spawned m) _ _ (files m)) as [code o e wr|msg];
        [destruct (code =? 0)|]; by simplify_eq. }
    eexists _, _. split; [reflexivity|]. split; [lia|done].
Qed.

Lemma collectScenes_shape (minus : Q → Q → Q) (starts ends : list Q) :
  (collectScenes minus starts ends = None ↔ (length ends < length starts)%nat) ∧
  (∀ scenes, collectScenes minus starts ends = Some scenes →
     Forall (λ s, significant s ∧ duration s = minus (end_ s) (start s)) scenes ∧
     (length scenes ≤ length starts)%nat).
Proof.
  revert ends. induction starts as [|s starts IH]; intros ends.
  - split; [split; [done|cbn; lia]|]. intros scenes [= <-]. by split.
  - destruct ends as [|e ends]; [by split; [split; [cbn; lia|done]|]|].
    destruct (IH ends) as [Hnone Hsome]. cbn [collectScenes length].
    destruct (collectScenes minus starts ends) as [rest|].
    + split; [split; [done|]|].
      * intros Hlen. assert (length ends < length starts)%nat as Hlt by lia.
        apply Hnone in Hlt. discriminate Hlt.
      * intros scenes [= <-]. destruct (Hsome rest eq_refl) as [Hall Hlen].
        destruct (Qlt_le_dec 0.5 (minus e s)) as [Hlong|Hshort].
        -- split; [|cbn; lia]. by constructor.
        -- split; [done|lia].
    + split; [|done]. split; [|done]. intros _.
      assert (length ends < length starts)%nat by by apply Hnone. lia.
Qed.

(** X3: the scene loop reports only silences longer than half a second,
    each with [duration = end - start], at most one per start match; and
    it throws exactly when there are fewer end matches than start
    matches. *)
Theorem collectScenes_significant (minus : Q → Q → Q) (starts ends : list Q) :
  (collectScenes minus starts ends = None ↔ (length ends < length starts)%nat) ∧
  (∀ scenes, collectScenes minus starts ends = Some scenes →
     Forall (λ s, significant s ∧ duration s = minus (end_ s) (start s)) scenes ∧
     (length scenes ≤ length starts)%nat).
Proof. exact (collectScenes_shape minus starts ends). Qed.

Lemma buildJumpCutFilter_significant scenes style style' :
  Forall significant scenes →
  buildJumpCutFilter scenes style = buildJumpCutFilter scenes style'.
Proof.
  intros Hall. unfold buildJumpCutFilter.
  assert (∀ (threshold : Q) (l : list (nat * scene)),
            (threshold <= 0.5)%Q → Forall (λ ix, significant ix.2) l →
            List.filter (λ ix : nat * scene,
                           match Qlt_le_dec threshold (duration ix.2) with
                           | left _ => true
                           | right _ => false
                           end) l = l) as Hkeep.
  { intros threshold l Hth Hl. induction Hl as [|ix l Hix Hl IH]; [done|].
    cbn. destruct (Qlt_le_dec threshold (duration ix.2)) as [_|Hle].
    - by rewrite IH.
    - unfold significant in Hix. exfalso.
      apply (Qlt_irrefl 0.5). eapply Qlt_le_trans; [exact Hix|].
      by eapply Qle_trans. }
  assert (Forall (λ ix : nat * scene, significant ix.2)
            (imap (λ index scene, (index, scene)) scenes)) as Himap.
  { apply Forall_forall. intros [i s] Hin.
    apply elem_of_lookup_imap in Hin as (j & s' & [= -> ->] & Hlook).
    rewrite Forall_forall in Hall. apply Hall. by eapply list_elem_of_lookup_2. }
  rewrite !Hkeep; try done.
  - by destruct (String.eqb style' "mrbeast").
  - by destruct (String.eqb style "mrbeast").
Qed.

Lemma detectScenes_significant t minus silenceMatches silenceEndMatches
    videoPath outputPath m :
  (∀ s, parseSilences t s = silences minus silenceMatches silenceEndMatches s) →
  ∀ scenes m', detectScenes t videoPath outputPath m = Ok scenes m' →
  Forall significant scenes.
Proof.
  intros Hparse scenes m'. unfold detectScenes, try_catch, mbind, js_bind.
  destruct (runCommand t (ffmpegPath t) _ m) as [out1 m1|err1 m1];
    [|by intros [= <- _]].
  destruct (runCommand t (ffmpegPath t) _ m1) as [out2 m2|err2 m2];
    [|by intros [= <- _]].
  rewrite Hparse. unfold silences.
  destruct (silenceMatches out2) as [starts|]; [|by intros [= <- _]].
  destruct (silenceEndMatches out2) as [ends|]; [|by intros [= <- _]].
  destruct (collectScenes minus starts ends) as [found|] eqn:Hfound; [|by intros [= <- _]].
  cbn. intros [= <- _].
  destruct (collectScenes_shape minus starts ends) as [_ Hsome].
  destruct (Hsome found Hfound) as [Hall _].
  eapply Forall_impl; [exact Hall|]. by intros s [Hs _].
Qed.

(** X4: the cut stage does not depend on the style.  Scene detection
    reports only silences longer than 0.5 s, so the lower threshold of
    0.3 s that [buildJumpCutFilter] uses for [mrbeast] never selects
    anything more: the stage runs the same commands and leaves the same
    files for every style. *)
Theorem jump_cuts_ignore_style (t : tools) (minus : Q → Q → Q)
    (silenceMatches silenceEndMatches : string → option (list Q))
    (videoPath outputPath style style' : string) (m : machine) :
  (∀ s, parseSilences t s = silences minus silenceMatches silenceEndMatches s) →
  applyJumpCuts t videoPath outputPath style m
    = applyJumpCuts t videoPath outputPath style' m.
Proof.
  intros Hparse. unfold applyJumpCuts, try_catch, mbind, js_bind.
  destruct (detectScenes t videoPath outputPath m) as [scenes m1|err m1] eqn:Hdetect;
    [|reflexivity].
  destruct scenes as [|scene scenes]; [reflexivity|].
  rewrite (buildJumpCutFilter_significant (scene :: scenes) style style'); [reflexivity|].
  by eapply detectScenes_significant.
Qed.

Lemma jump_cuts_ignore_style_witness :
  (∀ s, parseSilences silenceTools s
        = silences Qminus (λ _, Some [1; 4]%Q) (λ _, Some [2.5; 4.25]%Q) s) ∧
  applyJumpCuts silenceTools "/srv/projects/temp_processing/styled.mp4"
    "/srv/projects/temp_processing/cut.mp4" "mrbeast" scratchDisk
  = applyJumpCuts silenceTools "/srv/projects/temp_processing/styled.mp4"
      "/srv/projects/temp_processing/cut.mp4" "vlog" scratchDisk.
Proof.
  split; [reflexivity|].
  by apply (jump_cuts_ignore_style silenceTools Qminus
              (λ _, Some [1; 4]%Q) (λ _, Some [2.5; 4.25]%Q)).
Defined.

Lemma own_qualitySettings_inherited key :
  key ∈ objectPrototypeKeys → JsObject.own qualitySettings key = None.
Proof.
  intros Hin. unfold objectPrototypeKeys in Hin.
  repeat (apply elem_of_cons in Hin as [->|Hin]; [reflexivity|]).
  by apply elem_of_nil in Hin.
Qed.

(** X5: the quality transcode.  A quality that is not one of the four
    listed (and not a member of [Object.prototype]) is transcoded exactly as
    [1080p]; a quality that names a member of [Object.prototype] makes the
    stage throw before any process is started. *)
Theorem optimizeQuality_unlisted (t : tools) (inputPath outputPath quality : string) :
  (JsObject.own qualitySettings quality = None → quality ∉ objectPrototypeKeys →
   optimizeQuality t inputPath outputPath quality
     = optimizeQuality t inputPath outputPath "1080p") ∧
  (quality ∈ objectPrototypeKeys →
   ∀ m, optimizeQuality t inputPath outputPath quality m = Thrown (spreadError t quality) m).
Proof.
  split.
  - intros Hown Hkey. unfold optimizeQuality.
    rewrite (get_not_inherited qualitySettings quality Hkey), Hown. reflexivity.
  - intros Hkey m. unfold optimizeQuality, JsObject.get.
    rewrite (own_qualitySettings_inherited quality Hkey).
    by rewrite bool_decide_eq_true_2.
Qed.

Lemma optimizeQuality_unlisted_witness :
  (JsObject.own qualitySettings "high" = None ∧ ("high" ∉ objectPrototypeKeys) ∧
   optimizeQuality workingTools "/srv/projects/temp_processing/captioned.mp4"
     "/srv/projects/processed-p1.mp4" "high"
   = optimizeQuality workingTools "/srv/projects/temp_processing/captioned.mp4"
       "/srv/projects/processed-p1.mp4" "1080p") ∧
  ("valueOf" ∈ objectPrototypeKeys ∧
   optimizeQuality workingTools "/srv/projects/temp_processing/captioned.mp4"
     "/srv/projects/processed-p1.mp4" "valueOf" scratchDisk
   = Thrown (spreadError workingTools "valueOf") scratchDisk).
Proof.
  assert ("high" ∉ objectPrototypeKeys) as Hhigh.
  { intros Hin. repeat (apply elem_of_cons in Hin as [Heq|Hin]; [discriminate Heq|]).
    by apply elem_of_nil in Hin. }
  assert ("valueOf" ∈ objectPrototypeKeys) as Hmember.
  { unfold objectPrototypeKeys. do 9 apply list_elem_of_further. apply list_elem_of_here. }
  split.
  - split; [reflexivity|]. split; [exact Hhigh|].
    by apply (proj1 (optimizeQuality_unlisted workingTools
                       "/srv/projects/temp_processing/captioned.mp4"
                       "/srv/projects/processed-p1.mp4" "high")).
  - split; [exact Hmember|].
    by apply (proj2 (optimizeQuality_unlisted workingTools
                       "/srv/projects/temp_processing/captioned.mp4"
                       "/srv/projects/processed-p1.mp4" "valueOf")).
Defined.

(** X6: the fallback of the caption stage is itself unguarded.  When the
    caption tool fails and there is no input file to pass through, the
    stage throws the [ENOENT] of the copy, not the error of the tool. *)
Theorem addCaptions_fallback_unguarded (t : tools) (videoPath outputPath style : string)
    (m m1 : machine) (err : string) :
  runCommand t (ffmpegPath t) (captionCommand t videoPath outputPath style) m
    = Thrown err m1 →
  files m1 !! videoPath = None →
  addCaptions t videoPath outputPath style m
    = Thrown ("ENOENT: no such file or directory, lstat '" +:+ videoPath +:+ "'") m1.
Proof.
  intros Hfail Hmissing. unfold addCaptions, try_catch, mbind, js_bind.
  unfold captionCommand in Hfail. rewrite Hfail. unfold copy. by rewrite Hmissing.
Qed.

Lemma addCaptions_fallback_unguarded_witness :
  runCommand failingTools (ffmpegPath failingTools)
    (captionCommand failingTools "/srv/projects/temp_processing/cut.mp4"
       "/srv/projects/temp_processing/captioned.mp4" "vlog") exampleDisk
    = Thrown "Command failed: Conversion failed!"
        {| files := files exampleDisk; spawned := 1 |} ∧
  files {| files := files exampleDisk; spawned := 1 |}
    !! "/srv/projects/temp_processing/cut.mp4" = None ∧
  addCaptions failingTools "/srv/projects/temp_processing/cut.mp4"
    "/srv/projects/temp_processing/captioned.mp4" "vlog" exampleDisk
    = Thrown "ENOENT: no such file or directory, lstat '/srv/projects/temp_processing/cut.mp4'"
        {| files := files exampleDisk; spawned := 1 |}.
Proof.
  split; [reflexivity|]. split; [reflexivity|].
  by apply (addCaptions_fallback_unguarded failingTools
              "/srv/projects/temp_processing/cut.mp4"
              "/srv/projects/temp_processing/captioned.mp4" "vlog" exampleDisk
              {| files := files exampleDisk; spawned := 1 |}
              "Command failed: Conversion failed!").
Defined.

(** ** The job store beyond the claims *)

Lemma set_status_set_details st pr step nm sty int qual eff plat ai thumb pv p :
  Project.set_status st pr step (Project.set_details nm sty int qual eff plat ai thumb pv p)
  = Project.set_details nm sty int qual eff plat ai thumb pv (Project.set_status st pr step p).
Proof. reflexivity. Qed.

(** X7: the two updates of the job store write disjoint columns.  A status
    update and a detail update commute, on the same job or on different
    jobs; a status update overrides an earlier one on the same job
    completely; and a detail update leaves status, progress and
    currentStep as they are. *)
Theorem store_updates_compose (db : gmap string Project.t)
    (st st' : string) (pr pr' : Z) (step step' : string) (pid pid' : string)
    (nm sty int qual eff plat ai : string) (thumb pv : option string) :
  updateProjectStatus st pr step pid
    (updateProject nm sty int qual eff plat ai thumb pv pid' db)
  = updateProject nm sty int qual eff plat ai thumb pv pid'
      (updateProjectStatus st pr step pid db) ∧
  updateProjectStatus st' pr' step' pid (updateProjectStatus st pr step pid db)
  = updateProjectStatus st' pr' step' pid db ∧
  (∀ p, updateProject nm sty int qual eff plat ai thumb pv pid' db !! pid = Some p →
     ∃ p0, db !! pid = Some p0 ∧
           Project.status p = Project.status p0 ∧
           Project.progress p = Project.progress p0 ∧
           Project.currentStep p = Project.currentStep p0).
Proof.
  unfold updateProjectStatus, updateProject. split; [|split].
  - destruct (decide (pid = pid')) as [->|Hne].
    + by rewrite !alter_alter_eq.
    + by apply alter_alter_ne.
  - by rewrite alter_alter_eq.
  - intros p. rewrite lookup_alter. case_decide as Heq.
    + subst pid'. destruct (db !! pid) as [p0|]; [|done].
      intros [= <-]. by exists p0.
    + intros Hlook. by exists p.
Qed.

(** ** The local pipeline from end to end *)

Lemma prefix_separator a b :
  String.prefix (a +:+ "/") b = true → dirname_aux b ≠ None.
Proof.
  revert b. induction a as [|x a IH]; intros b.
  - change (String.prefix "/" b = true → dirname_aux b ≠ None).
    destruct b as [|y b]; [discriminate|]. cbn [String.prefix].
    destruct (ascii_dec "/" y) as [<-|]; [|discriminate]. intros _. cbn [dirname_aux].
    by destruct (dirname_aux b).
  - change (String.prefix (String x (a +:+ "/")) b = true → dirname_aux b ≠ None).
    destruct b as [|y b]; [discriminate|].
    cbn [String.prefix]. destruct (ascii_dec x y) as [<-|]; [|discriminate].
    intros Hpre. apply IH in Hpre. cbn [dirname_aux].
    by destruct (dirname_aux b).
Qed.

Lemma output_outside_scratch dir name :
  dir ≠ "" → name ≠ "" → dirname_aux name = None → name ≠ "temp_processing" →
  under (tempDirOf (path_join dir name)) (path_join dir name) = false.
Proof.
  intros Hdir Hname Hflat Hother. unfold tempDirOf.
  rewrite path_dirname_join by done.
  unfold path_join at 2. destruct name as [|y name]; [done|].
  change (path_join dir "temp_processing") with (dir +:+ "/temp_processing").
  change (dir +:+ "/" +:+ String y name) with (dir +:+ String "/" (String y name)).
  apply under_sibling.
  - apply String.eqb_neq. intros Heq. apply Hother. congruence.
  - change (String.prefix ("/temp_processing" +:+ "/") (String "/" (String y name)))
      with (String.prefix ("temp_processing" +:+ "/") (String y name)).
    destruct (String.prefix ("temp_processing" +:+ "/") (String y name)) eqn:Hpre; [|done].
    by apply prefix_separator in Hpre.
Qed.

Lemma plain_sibling dir name name' :
  dir ≠ "" → String.prefix "-" (path_join dir name) = false →
  String.prefix "-" (path_join dir name') = false.
Proof.
  intros Hdir Hplain. apply plain_join; [done|].
  destruct dir as [|x dir]; [done|].
  unfold path_join in Hplain. destruct name as [|y name]; [done|].
  change (String.prefix "-" (String x (dir +:+ "/" +:+ String y name)) = false) in Hplain.
  cbn [String.prefix] in *. destruct (ascii_dec "-" x); [|done]. by destruct dir.
Qed.

(** A command that exits with 0 has left its output. *)
Lemma runCommand_leaves t command args p :
  leavesOutput t → outputOf args = Some p →
  triple (λ _, True) (runCommand t command args) (λ _, isFile p) (λ _ _, True).
Proof.
  intros Hleaves Hout m _. unfold runCommand.
  destruct (spawn t (spawned m) command args (files m))
    as [code out err written|message] eqn:Hspawn; [|done].
  destruct (Z.eqb_spec code 0) as [->|Hcode]; [|done].
  destruct written as [content|].
  - exists content. unfold leave. rewrite Hout. cbn. by rewrite lookup_insert_eq.
  - apply Hleaves in Hspawn. congruence.
Qed.

Lemma outputOf_quality inputPath outputPath settings :
  String.prefix "-" outputPath = false →
  outputOf (["-i"; inputPath] ++ settings ++
            ["-c:a"; "aac"; "-b:a"; "128k"; "-preset"; "slow";
             "-movflags"; "+faststart"; outputPath]) = Some outputPath.
Proof.
  intros Hplain.
  change ["-c:a"; "aac"; "-b:a"; "128k"; "-preset"; "slow"; "-movflags"; "+faststart";
          outputPath]
    with (["-c:a"; "aac"; "-b:a"; "128k"; "-preset"; "slow"; "-movflags"; "+faststart"]
          ++ [outputPath]).
  rewrite !app_assoc. by apply outputOf_snoc.
Qed.

(** When [processVideo] returns, the transcode has left the output. *)
Lemma processVideo_leaves_output t inputPath dir name style intensity quality :
  leavesOutput t →
  dir ≠ "" → name ≠ "" → dirname_aux name = None → name ≠ "temp_processing" →
  String.prefix "-" (path_join dir name) = false →
  triple (λ _, True)
    (processVideo t inputPath (path_join dir name) style intensity quality)
    (λ _, isFile (path_join dir name)) (λ _ _, True).
Proof.
  intros Hleaves Hdir Hname Hflat Hother Hplain. unfold processVideo.
  apply triple_try_catch with (Y := λ _ _, True); [|intros; by apply triple_throw].
  eapply triple_bind; [apply triple_any|]. intros available. cbn beta.
  destruct (negb available); [by apply triple_throw|].
  do 6 (eapply triple_bind; [apply triple_any|]; intros ?; cbn beta).
  eapply triple_bind with (Q := λ _, isFile (path_join dir name)).
  { unfold optimizeQuality.
    destruct (JsObject.get qualitySettings quality) as [settings|key|].
    - eapply triple_bind; [|intros ?; apply triple_ret; intros m Hm; exact Hm].
      apply runCommand_leaves; [done|]. by apply outputOf_quality.
    - by apply triple_throw.
    - eapply triple_bind; [|intros ?; apply triple_ret; intros m Hm; exact Hm].
      apply runCommand_leaves; [done|].
      by apply (outputOf_quality _ _ ["-vf"; "scale=1920:1080"; "-crf"; "20"]). }
  intros ?. cbn beta.
  eapply triple_bind; [|intros ?; apply triple_ret; intros m Hm; exact Hm].
  eapply triple_weaken;
    [apply (remove_keeps_file _ (path_join dir name)); by apply output_outside_scratch
    |done..].
Qed.

(** The output is in place and the scratch directory gone when the
    mandatory stages succeed. *)
Lemma processVideo_output_in_place (t : tools)
    (inputPath dir name style intensity quality : string) (m : machine) :
  let outputPath := path_join dir name in
  mandatoryStagesSucceed t inputPath outputPath style intensity quality →
  leavesOutput t →
  dir ≠ "" → name ≠ "" → dirname_aux name = None → name ≠ "temp_processing" →
  scratchAvailable outputPath m →
  ∃ m',
    processVideo t inputPath outputPath style intensity quality m = Ok true m' ∧
    isFile outputPath m' ∧
    (∀ p, under (tempDirOf outputPath) p = true → files m' !! p = None).
Proof.
  intros outputPath Hmandatory Hleaves Hdir Hname Hflat Hother Hscratch.
  assert (String.prefix "-" outputPath = false) as Hplain.
  { destruct Hscratch as [Hplain _]. unfold tempDirOf in Hplain.
    unfold outputPath in Hplain. rewrite path_dirname_join in Hplain by done.
    by apply (plain_sibling dir "temp_processing" name). }
  pose proof (processVideo_completes t _ _ _ _ _ Hmandatory Hleaves m Hscratch) as Hreturns.
  pose proof (processVideo_leaves_output t inputPath dir name style intensity quality
                Hleaves Hdir Hname Hflat Hother Hplain m I) as Houtput.
  pose proof (processVideo_success_clears_scratch t inputPath outputPath style intensity
                quality m I) as Hclear.
  fold outputPath in Houtput.
  destruct (processVideo t inputPath outputPath style intensity quality m)
    as [b m'|err m']; [|done].
  subst b. by exists m'.
Qed.



(** A command puts no file in the place of a directory that its command
    line does not name. *)
Lemma leave_directory p written args f :
  f !! p = Some Directory →
  (∀ path, outputOf args = Some path → path ≠ p) →
  leave written args f !! p = Some Directory.
Proof.
  intros Hp Hother. unfold leave. destruct written as [content|]; [|done].
  destruct (outputOf args) as [path|] eqn:Hout; [|done].
  by rewrite lookup_insert_ne; [|apply Hother].
Qed.

(** X9: the error of a tool reaches the job verbatim.  When the style
    filter exits with a code other than 0, the local pipeline ends the job
    in [error] at progress 0, the step text is [Error: Command failed: ]
    followed by what the tool wrote to stderr, the same message (without
    [Error: ]) is the last entry of the history, and the scratch directory
    is left on the disk. *)
Theorem style_failure_reaches_the_job (e : env) (pid : string) (w : world) (p : Project.t)
    (code : Z) (out stderr : string) (written : option string) :
  let inputPath := path_join (uploadsDir e) (Project.originalVideo p) in
  let outputPath := path_join (projectsDir e) ("processed-" +:+ Project.id p +:+ ".mp4") in
  rendersLocally e →
  projects w !! pid = Some p →
  (∀ n f, ∃ out err written,
     spawn (e_tools e) n (ffmpegPath (e_tools e)) versionCommand f
     = Closed 0 out err written) →
  (∀ n f, ∃ out err,
     probe (e_tools e) n (probeCommand inputPath) f = (0, out, err) ∧
     parseInfo (e_tools e) out = Parsed) →
  (∀ content, files (disk w) !! tempDirOf outputPath ≠ Some (File content)) →
  code ≠ 0 →
  (∀ n f,
     spawn (e_tools e) n (ffmpegPath (e_tools e))
       (styleCommand inputPath (path_join (tempDirOf outputPath) "styled.mp4")
          (Project.style p) (Project.intensity p)) f
     = Closed code out stderr written) →
  let w' := final (processVideoWithAI e pid w) in
  ∃ p',
    projects w' !! pid = Some p' ∧
    Project.status p' = "error" ∧
    Project.progress p' = 0 ∧
    Project.currentStep p' = "Error: Command failed: " +:+ stderr ∧
    last (history w') = Some {| h_projectId := pid; h_step := "error"; h_status := "error";
                                h_message := "Command failed: " +:+ stderr |} ∧
    files (disk w') !! tempDirOf outputPath = Some Directory.
Proof.
  intros inputPath outputPath Hlocal Hlook Hversion Hprobe Hfree Hcode Hstyle w'.
  set (t := e_tools e) in *.
  assert (∃ m, localRender e p (disk w) = Thrown ("Command failed: " +:+ stderr) m ∧
               files m !! tempDirOf outputPath = Some Directory) as (m & Hrender & Hdir).
  { set (tempDir := tempDirOf outputPath) in *.
    assert (triple (λ m, ∀ content, files m !! tempDir ≠ Some (File content))
              (localRender e p)
              (λ _ _, False)
              (λ err m, err = "Command failed: " +:+ stderr ∧
                        files m !! tempDir = Some Directory)) as Hrun.
    { unfold localRender. fold t inputPath outputPath.
      unfold processVideo. fold tempDir.
      apply triple_try_catch
        with (Y := λ err m, err = "Command failed: " +:+ stderr ∧
                            files m !! tempDir = Some Directory);
        [|intros err; by apply triple_throw].
      eapply triple_bind
        with (Q := λ b m, b = true ∧ ∀ content, files m !! tempDir ≠ Some (File content)).
      { intros m Hm. unfold checkFFmpeg, try_catch, mbind, js_bind.
        destruct (runCommand_succeeds t (ffmpegPath t) versionCommand (λ _, True) m)
          as (o & wr & Hrun & _).
        { intros n f. destruct (Hversion n f) as (o & er & wr & Hspawn).
          by exists o, er, wr. }
        unfold versionCommand in Hrun. rewrite Hrun. cbn. split; [done|].
        by rewrite leave_option. }
      intros available. apply triple_pure. intros ->. cbn [negb].
      eapply triple_bind
        with (Q := λ info m, info = Parsed ∧
                             ∀ content, files m !! tempDir ≠ Some (File content)).
      { intros m Hm. unfold getVideoInfo.
        destruct (Hprobe (spawned m) (files m)) as (po & pe & Hp & Hinfo).
        unfold probeCommand in Hp. rewrite Hp. cbn. by rewrite Hinfo. }
      intros info. apply triple_pure. intros ->.
      eapply triple_bind
        with (Q := λ _ m, ∀ content, files m !! tempDir ≠ Some (File content));
        [by apply triple_ret|]. intros ?.
      eapply triple_bind with (Q := λ _ m, files m !! tempDir = Some Directory).
      { intros m Hfree'. unfold ensureDir.
        destruct (files m !! tempDir) as [[content|]|] eqn:Hthere;
          [by destruct (Hfree' content)|..]; cbn; by rewrite lookup_insert_eq. }
      intros ?.
      eapply triple_bind with (Q := λ _ _, False); [|by intros ? m []].
      intros m Hdir. unfold applyStyle, try_catch, mbind, js_bind, runCommand.
      unfold styleCommand in Hstyle. rewrite Hstyle.
      destruct (Z.eqb_spec code 0) as [?|_]; [done|].
      cbn. split; [done|].
      apply leave_directory; [done|]. intros path Hpath.
      apply (outputOf_last
               ["-i"; inputPath; "-vf";
                buildStyleFilters (getStyleConfig (Project.style p) (Project.intensity p));
                "-c:a"; "copy"; "-preset"; "medium"]
               (path_join tempDir "styled.mp4")) in Hpath.
      subst path. apply (below_ne tempDir "/styled.mp4"). discriminate. }
    specialize (Hrun (disk w) Hfree).
    destruct (localRender e p (disk w)) as [b m|err m]; [done|].
    destruct Hrun as [-> Hdir]. by exists m. }
  destruct (processVideoWithAI_local_failure e pid w p _ m Hlocal Hlook Hrender)
    as (w1 & p1 & Hw1 & _ & _ & Hlook1 & Hst & Hpr & Hstep & _ & Hhistory & Hdisk).
  subst w'. rewrite Hw1. cbn [final]. exists p1.
  repeat apply conj; try done.
  - rewrite Hhistory, !app_assoc. apply last_snoc.
  - by rewrite Hdisk.
Qed.

Lemma style_failure_reaches_the_job_witness :
  let e := localEnv failingTools in
  let inputPath := path_join (uploadsDir e) (Project.originalVideo exampleProject) in
  let outputPath :=
    path_join (projectsDir e) ("processed-" +:+ Project.id exampleProject +:+ ".mp4") in
  rendersLocally e ∧
  projects exampleWorld !! "p1" = Some exampleProject ∧
  (∀ n f, ∃ out err written,
     spawn (e_tools e) n (ffmpegPath (e_tools e)) versionCommand f
     = Closed 0 out err written) ∧
  (∀ n f, ∃ out err,
     probe (e_tools e) n (probeCommand inputPath) f = (0, out, err) ∧
     parseInfo (e_tools e) out = Parsed) ∧
  (∀ content, files (disk exampleWorld) !! tempDirOf outputPath ≠ Some (File content)) ∧
  1 ≠ 0 ∧
  (∀ n f,
     spawn (e_tools e) n (ffmpegPath (e_tools e))
       (styleCommand inputPath (path_join (tempDirOf outputPath) "styled.mp4")
          (Project.style exampleProject) (Project.intensity exampleProject)) f
     = Closed 1 "" "Conversion failed!" None) ∧
  let w' := final (processVideoWithAI e "p1" exampleWorld) in
  ∃ p',
    projects w' !! "p1" = Some p' ∧
    Project.status p' = "error" ∧
    Project.progress p' = 0 ∧
    Project.currentStep p' = "Error: Command failed: " +:+ "Conversion failed!" ∧
    last (history w') = Some {| h_projectId := "p1"; h_step := "error";
                                h_status := "error";
                                h_message := "Command failed: " +:+ "Conversion failed!" |} ∧
    files (disk w') !! tempDirOf outputPath = Some Directory.
Proof.
  cbv zeta.
  assert (∀ content, files (disk exampleWorld)
                       !! tempDirOf (path_join (projectsDir (localEnv failingTools))
                                       ("processed-" +:+ Project.id exampleProject +:+ ".mp4"))
                     ≠ Some (File content)) as Hfree
    by (intros content; vm_compute; discriminate).
  split; [reflexivity|]. split; [reflexivity|].
  split; [intros n f; by eexists _, _, _|].
  split; [intros n f; by eexists _, _|].
  split; [exact Hfree|]. split; [discriminate|]. split; [intros n f; reflexivity|].
  apply (style_failure_reaches_the_job (localEnv failingTools) "p1" exampleWorld
           exampleProject 1 "" "Conversion failed!" None);
    [reflexivity|reflexivity|intros n f; by eexists _, _, _|intros n f; by eexists _, _
    |exact Hfree|discriminate|intros n f; reflexivity].
Defined.

(** ** What a completed run leaves in the store *)

#[local] Opaque updateProjectStatus updateProject processVideo.

Lemma processVideoWithAI_local_store e pid w p b m :
  rendersLocally e →
  projects w !! pid = Some p →
  localRender e p (disk w) = Ok b m →
  projects (final (processVideoWithAI e pid w)) !! pid
  = Some (Project.set_status "completed" 100 "Processing completed successfully"
            (Project.set_details (Project.name p) (Project.style p)
               (Project.intensity p) (Project.quality p) (effectsJson e p)
               (or_else (Project.platformOptimize p) "auto")
               (or_else (Project.aiIntelligence p) "smart")
               (Some ("thumbnail-" +:+ Project.id p +:+ ".jpg"))
               (Some ("processed-" +:+ Project.id p +:+ ".mp4")) p)) ∧
  ∀ other, other ≠ pid →
    projects (final (processVideoWithAI e pid w)) !! other = projects w !! other.
Proof.
  intros Hlocal Hlook Hrender. unfold rendersLocally in Hlocal.
  unfold localRender in Hrender.
  run_pipeline Hlook. rewrite Hlocal. cbn. unfold onDisk. cbn.
  rewrite Hrender. cbn. split.
  - repeat (first [rewrite lookup_status_write | rewrite lookup_details_write]; cbn).
    rewrite Hlook. reflexivity.
  - intros other Hother.
    repeat (first [rewrite updateProjectStatus_lookup | rewrite updateProject_lookup];
            rewrite decide_False by done).
    reflexivity.
Qed.

#[local] Transparent updateProjectStatus updateProject processVideo.

(** X10: what a completed local run leaves in the store.  Of the job's
    row it keeps the name, style, intensity, quality, source, owner, size
    and creation time; it sets the thumbnail and the output reference; and
    it replaces customEffects by [JSON.stringify] of the stored text, so
    that a stored [[]] comes back quoted.  No other row is changed. *)
Theorem completed_run_rewrites_details (e : env) (pid : string) (w : world) (p : Project.t) :
  rendersLocally e →
  projects w !! pid = Some p →
  (∃ b m, localRender e p (disk w) = Ok b m) →
  let w' := final (processVideoWithAI e pid w) in
  (∃ p',
     projects w' !! pid = Some p' ∧
     Project.name p' = Project.name p ∧
     Project.style p' = Project.style p ∧
     Project.intensity p' = Project.intensity p ∧
     Project.quality p' = Project.quality p ∧
     Project.originalVideo p' = Project.originalVideo p ∧
     Project.userId p' = Project.userId p ∧
     Project.fileSize p' = Project.fileSize p ∧
     Project.createdAt p' = Project.createdAt p ∧
     Project.thumbnail p' = Some ("thumbnail-" +:+ Project.id p +:+ ".jpg") ∧
     Project.processedVideo p' = Some ("processed-" +:+ Project.id p +:+ ".mp4") ∧
     Project.customEffects p' = match Project.customEffects p with
                                | "" => "[]"
                                | text => stringify e text
                                end) ∧
  (∀ other, other ≠ pid → projects w' !! other = projects w !! other).
Proof.
  intros Hlocal Hlook (b & m & Hrender) w'.
  destruct (processVideoWithAI_local_store e pid w p b m Hlocal Hlook Hrender)
    as [Hrow Hothers].
  split; [|exact Hothers].
  eexists. split; [exact Hrow|]. repeat apply conj; reflexivity.
Qed.

Lemma completed_run_rewrites_details_witness :
  let e := localEnv workingTools in
  rendersLocally e ∧
  projects exampleWorld !! "p1" = Some exampleProject ∧
  (∃ b m, localRender e exampleProject (disk exampleWorld) = Ok b m) ∧
  let w' := final (processVideoWithAI e "p1" exampleWorld) in
  (∃ p',
     projects w' !! "p1" = Some p' ∧
     Project.name p' = Project.name exampleProject ∧
     Project.style p' = Project.style exampleProject ∧
     Project.intensity p' = Project.intensity exampleProject ∧
     Project.quality p' = Project.quality exampleProject ∧
     Project.originalVideo p' = Project.originalVideo exampleProject ∧
     Project.userId p' = Project.userId exampleProject ∧
     Project.fileSize p' = Project.fileSize exampleProject ∧
     Project.createdAt p' = Project.createdAt exampleProject ∧
     Project.thumbnail p' = Some ("thumbnail-" +:+ Project.id exampleProject +:+ ".jpg") ∧
     Project.processedVideo p'
       = Some ("processed-" +:+ Project.id exampleProject +:+ ".mp4") ∧
     Project.customEffects p' = match Project.customEffects exampleProject with
                                | "" => "[]"
                                | text => stringify e text
                                end) ∧
  (∀ other, other ≠ "p1" → projects w' !! other = projects exampleWorld !! other).
Proof.
  cbv zeta.
  assert (∃ b m, localRender (localEnv workingTools) exampleProject (disk exampleWorld)
                 = Ok b m) as Hrender
    by (eexists _, _; vm_compute; reflexivity).
  split; [reflexivity|]. split; [reflexivity|]. split; [exact Hrender|].
  apply (completed_run_rewrites_details (localEnv workingTools) "p1" exampleWorld
           exampleProject); [reflexivity|reflexivity|exact Hrender].
Defined.

(** ** The simulation, run to its end *)

#[local] Opaque updateProjectStatus updateProject.

Lemma drainTimers_fire e fuel w t ts :
  timers w = t :: ts →
  drainTimers e (S fuel) w
  = drainTimers e fuel (final (runCallback e (action t) (with_timers ts w))).
Proof.
  intros Htimers. cbn [drainTimers]. rewrite Htimers.
  unfold fireTimer. by rewrite Htimers.
Qed.

Lemma drainTimers_idle e fuel w : timers w = [] → drainTimers e fuel w = w.
Proof. intros Htimers. destruct fuel; cbn [drainTimers]; by rewrite ?Htimers. Qed.

(** A step of the simulation that is not the last: the progress is
    written and the next step is scheduled. *)
Lemma processStep_running e pid p k name duration progress db hist dk reqs ts bg lg :
  processingSteps !! k = Some (name, duration, progress) →
  processStep e pid p k
    {| projects := db; history := hist; disk := dk; requests := reqs; timers := ts;
       background := bg; log := lg |}
  = Ok tt
      {| projects := updateProjectStatus "processing" progress name pid db;
         history := hist; disk := dk; requests := reqs;
         timers := ts ++ [ {| delay := duration; action := SimulationStep pid p k |} ];
         background := bg;
         log := (lg ++ [StatusWritten pid "processing" progress name
                          (updateProjectStatus "processing" progress name pid db)])
                ++ [Slept duration (updateProjectStatus "processing" progress name pid db)] |}.
Proof. intros Hstep. unfold processStep. rewrite Hstep. reflexivity. Qed.

(** The last step of the simulation. *)
Lemma processStep_finishing e pid p k db hist dk reqs ts bg lg :
  processingSteps !! k = None →
  let db' :=
    updateProject (Project.name p) (Project.style p) (Project.intensity p)
      (Project.quality p) (effectsJson e p)
      (or_else (Project.platformOptimize p) "auto")
      (or_else (Project.aiIntelligence p) "smart")
      (Some "demo-thumbnail.jpg") (Some "demo-video.mp4") pid
      (updateProjectStatus "completed" 100 "Simulation processing completed" pid db) in
  let videoPath := path_join (projectsDir e) "demo-video.mp4" in
  let thumbnailPath := path_join (projectsDir e) "demo-thumbnail.jpg" in
  ∃ files',
    processStep e pid p k
      {| projects := db; history := hist; disk := dk; requests := reqs; timers := ts;
         background := bg; log := lg |}
    = Ok tt
        {| projects := db';
           history := hist ++
             [ {| h_projectId := pid; h_step := "completion"; h_status := "success";
                  h_message := "Simulation processing completed successfully" |} ];
           disk := set_files files' dk; requests := reqs; timers := ts; background := bg;
           log := (lg ++ [StatusWritten pid "completed" 100 "Simulation processing completed"
                            (updateProjectStatus "completed" 100
                               "Simulation processing completed" pid db)])
                  ++ [DetailsWritten pid (Some "demo-thumbnail.jpg") (Some "demo-video.mp4")
                        db'] |} ∧
    files' !! videoPath = Some (default (File mp4Header) (files dk !! videoPath)) ∧
    files' !! thumbnailPath = Some (default (File jpegHeader) (files dk !! thumbnailPath)).
Proof.
  intros Hstep db' videoPath thumbnailPath.
  assert (videoPath ≠ thumbnailPath) as Hpaths
    by (by apply (sibling_ne (projectsDir e) "/demo-video.mp4" "/demo-thumbnail.jpg")).
  unfold processStep. rewrite Hstep.
  unfold mbind, js_bind, writeStatus, writeDetails, createDemoVideo, createDemoThumbnail,
    mbind, js_bind, gets, writeFileSync, modify, addStep, modify.
  cbn -[path_join mp4Header jpegHeader effectsJson]. fold videoPath thumbnailPath db'.
  destruct (files dk !! videoPath) as [video|] eqn:Hvideo;
    cbn -[path_join mp4Header jpegHeader effectsJson]; fold videoPath thumbnailPath db';
    rewrite ?lookup_insert_ne by done;
    destruct (files dk !! thumbnailPath) as [thumb|] eqn:Hthumb;
    cbn -[path_join mp4Header jpegHeader effectsJson]; fold videoPath thumbnailPath db'.
  - exists (files dk). destruct dk. by repeat apply conj.
  - eexists. split; [reflexivity|].
    by rewrite lookup_insert_ne, lookup_insert_eq, Hvideo.
  - eexists. split; [reflexivity|].
    by rewrite lookup_insert_eq, lookup_insert_ne, Hthumb.
  - eexists. split; [reflexivity|].
    by rewrite lookup_insert_ne, !lookup_insert_eq.
Qed.

(** The world after a run of the simulation and of its five timers. *)
Lemma simulation_final e pid db hist dk reqs bg lg p :
  db !! pid = Some p →
  ∃ w',
    drainTimers e 5
      (final (simulateAIProcessing e pid
                {| projects := db; history := hist; disk := dk; requests := reqs;
                   timers := []; background := bg; log := lg |})) = w' ∧
    timers w' = [] ∧
    projects w' !! pid
    = Some (Project.set_details (Project.name p) (Project.style p)
              (Project.intensity p) (Project.quality p) (effectsJson e p)
              (or_else (Project.platformOptimize p) "auto")
              (or_else (Project.aiIntelligence p) "smart")
              (Some "demo-thumbnail.jpg") (Some "demo-video.mp4")
              (Project.set_status "completed" 100 "Simulation processing completed" p)) ∧
    (∀ other, other ≠ pid → projects w' !! other = db !! other) ∧
    statusWrites pid (log w') = statusWrites pid lg ++
      [ ("processing", 0, "Starting simulation processing");
        ("processing", 20, "Analyzing video content");
        ("processing", 40, "Detecting scenes and cuts");
        ("processing", 60, "Applying style effects");
        ("processing", 80, "Color grading and enhancement");
        ("processing", 100, "Final rendering");
        ("completed", 100, "Simulation processing completed") ] ∧
    history w' = hist ++
      [ {| h_projectId := pid; h_step := "completion"; h_status := "success";
           h_message := "Simulation processing completed successfully" |} ] ∧
    files (disk w') !! path_join (projectsDir e) "demo-video.mp4"
    = Some (default (File mp4Header)
              (files dk !! path_join (projectsDir e) "demo-video.mp4")) ∧
    files (disk w') !! path_join (projectsDir e) "demo-thumbnail.jpg"
    = Some (default (File jpegHeader)
              (files dk !! path_join (projectsDir e) "demo-thumbnail.jpg")).
Proof.
  intros Hlook. eexists. split.
  - unfold simulateAIProcessing, try_catch, mbind, js_bind, gets, getProjectById.
    cbn [projects]. rewrite Hlook.
    unfold writeStatus, with_log, with_projects.
    cbn [projects log history disk requests timers background].
    rewrite (processStep_running e pid p 0 _ _ _ _ _ _ _ _ _ _ eq_refl). cbn [final app].
    erewrite (drainTimers_fire e 4); [|reflexivity]. unfold with_timers.
    cbn [action runCallback projects log history disk requests timers background].
    rewrite (processStep_running e pid p 1 _ _ _ _ _ _ _ _ _ _ eq_refl). cbn [final app].
    erewrite (drainTimers_fire e 3); [|reflexivity]. unfold with_timers.
    cbn [action runCallback projects log history disk requests timers background].
    rewrite (processStep_running e pid p 2 _ _ _ _ _ _ _ _ _ _ eq_refl). cbn [final app].
    erewrite (drainTimers_fire e 2); [|reflexivity]. unfold with_timers.
    cbn [action runCallback projects log history disk requests timers background].
    rewrite (processStep_running e pid p 3 _ _ _ _ _ _ _ _ _ _ eq_refl). cbn [final app].
    erewrite (drainTimers_fire e 1); [|reflexivity]. unfold with_timers.
    cbn [action runCallback projects log history disk requests timers background].
    rewrite (processStep_running e pid p 4 _ _ _ _ _ _ _ _ _ _ eq_refl). cbn [final app].
    erewrite (drainTimers_fire e 0); [|reflexivity]. unfold with_timers.
    cbn [action runCallback projects log history disk requests timers background].
    cbn [drainTimers]. reflexivity.
  - match goal with
    | |- context [processStep e pid p 5 {| projects := ?d; history := ?h; disk := ?k;
                                           requests := ?r; timers := ?ts; background := ?b;
                                           log := ?l |}] =>
        destruct (processStep_finishing e pid p 5 d h k r ts b l eq_refl)
          as (files' & -> & Hvideo & Hthumb)
    end.
    cbn [final timers projects log history disk files set_files].
    repeat apply conj.
    + reflexivity.
    + repeat (first [rewrite lookup_status_write | rewrite lookup_details_write]; cbn).
      by rewrite Hlook.
    + intros other Hother.
      repeat (first [rewrite updateProjectStatus_lookup | rewrite updateProject_lookup];
              rewrite decide_False by done).
      reflexivity.
    + unfold statusWrites. rewrite !omap_app. cbn. rewrite !String.eqb_refl.
      rewrite ?app_nil_r, <- ?app_assoc. reflexivity.
    + reflexivity.
    + exact Hvideo.
    + exact Hthumb.
Qed.

(** A run of the simulation and of its five timers. *)
Lemma simulation_runs e pid w p :
  projects w !! pid = Some p →
  timers w = [] →
  let w' := drainTimers e 5 (final (simulateAIProcessing e pid w)) in
  timers w' = [] ∧
  projects w' !! pid
  = Some (Project.set_details (Project.name p) (Project.style p)
            (Project.intensity p) (Project.quality p) (effectsJson e p)
            (or_else (Project.platformOptimize p) "auto")
            (or_else (Project.aiIntelligence p) "smart")
            (Some "demo-thumbnail.jpg") (Some "demo-video.mp4")
            (Project.set_status "completed" 100 "Simulation processing completed" p)) ∧
  (∀ other, other ≠ pid → projects w' !! other = projects w !! other) ∧
  statusWrites pid (log w') = statusWrites pid (log w) ++
    [ ("processing", 0, "Starting simulation processing");
      ("processing", 20, "Analyzing video content");
      ("processing", 40, "Detecting scenes and cuts");
      ("processing", 60, "Applying style effects");
      ("processing", 80, "Color grading and enhancement");
      ("processing", 100, "Final rendering");
      ("completed", 100, "Simulation processing completed") ] ∧
  history w' = history w ++
    [ {| h_projectId := pid; h_step := "completion"; h_status := "success";
         h_message := "Simulation processing completed successfully" |} ] ∧
  files (disk w') !! path_join (projectsDir e) "demo-video.mp4"
  = Some (default (File mp4Header)
            (files (disk w) !! path_join (projectsDir e) "demo-video.mp4")) ∧
  files (disk w') !! path_join (projectsDir e) "demo-thumbnail.jpg"
  = Some (default (File jpegHeader)
            (files (disk w) !! path_join (projectsDir e) "demo-thumbnail.jpg")).
Proof.
  intros Hlook Htimers.
  destruct w as [db hist dk reqs tms bg lg]. cbn in Hlook, Htimers. subst tms.
  destruct (simulation_final e pid db hist dk reqs bg lg p Hlook) as (w1 & Hw1 & Hfacts).
  cbv zeta. rewrite Hw1. exact Hfacts.
Qed.

(** X11: the simulation runs to its end.  Started on a job that exists,
    with no other timer pending, and followed by its five timers, it
    writes the progress 0, 20, 40, 60, 80, 100 and then [completed] at 100;
    the job ends with the demo video and thumbnail as its output, one
    [completion] entry is added to the history, both demo files are on the
    disk (a file that was already there is kept), and no timer is left. *)
Theorem simulation_completes (e : env) (pid : string) (w : world) (p : Project.t) :
  projects w !! pid = Some p →
  timers w = [] →
  let w' := drainTimers e 5 (final (simulateAIProcessing e pid w)) in
  timers w' = [] ∧
  (∃ p', projects w' !! pid = Some p' ∧
         Project.status p' = "completed" ∧ Project.progress p' = 100 ∧
         Project.processedVideo p' = Some "demo-video.mp4" ∧
         Project.thumbnail p' = Some "demo-thumbnail.jpg") ∧
  statusWrites pid (log w') = statusWrites pid (log w) ++
    [ ("processing", 0, "Starting simulation processing");
      ("processing", 20, "Analyzing video content");
      ("processing", 40, "Detecting scenes and cuts");
      ("processing", 60, "Applying style effects");
      ("processing", 80, "Color grading and enhancement");
      ("processing", 100, "Final rendering");
      ("completed", 100, "Simulation processing completed") ] ∧
  history w' = history w ++
    [ {| h_projectId := pid; h_step := "completion"; h_status := "success";
         h_message := "Simulation processing completed successfully" |} ] ∧
  files (disk w') !! path_join (projectsDir e) "demo-video.mp4"
  = Some (default (File mp4Header)
            (files (disk w) !! path_join (projectsDir e) "demo-video.mp4")) ∧
  files (disk w') !! path_join (projectsDir e) "demo-thumbnail.jpg"
  = Some (default (File jpegHeader)
            (files (disk w) !! path_join (projectsDir e) "demo-thumbnail.jpg")).
Proof.
  intros Hlook Htimers w'.
  destruct (simulation_runs e pid w p Hlook Htimers)
    as (Hnone & Hrow & _ & Hwrites & Hhistory & Hvideo & Hthumb).
  repeat apply conj; try done.
  eexists. split; [exact Hrow|]. by repeat apply conj.
Qed.

Lemma simulation_completes_witness :
  let e := localEnv workingTools in
  projects exampleWorld !! "p1" = Some exampleProject ∧
  timers exampleWorld = [] ∧
  let w' := drainTimers e 5 (final (simulateAIProcessing e "p1" exampleWorld)) in
  timers w' = [] ∧
  (∃ p', projects w' !! "p1" = Some p' ∧
         Project.status p' = "completed" ∧ Project.progress p' = 100 ∧
         Project.processedVideo p' = Some "demo-video.mp4" ∧
         Project.thumbnail p' = Some "demo-thumbnail.jpg") ∧
  statusWrites "p1" (log w') = statusWrites "p1" (log exampleWorld) ++
    [ ("processing", 0, "Starting simulation processing");
      ("processing", 20, "Analyzing video content");
      ("processing", 40, "Detecting scenes and cuts");
      ("processing", 60, "Applying style effects");
      ("processing", 80, "Color grading and enhancement");
      ("processing", 100, "Final rendering");
      ("completed", 100, "Simulation processing completed") ] ∧
  history w' = history exampleWorld ++
    [ {| h_projectId := "p1"; h_step := "completion"; h_status := "success";
         h_message := "Simulation processing completed successfully" |} ] ∧
  files (disk w') !! path_join (projectsDir e) "demo-video.mp4"
  = Some (default (File mp4Header)
            (files (disk exampleWorld) !! path_join (projectsDir e) "demo-video.mp4")) ∧
  files (disk w') !! path_join (projectsDir e) "demo-thumbnail.jpg"
  = Some (default (File jpegHeader)
            (files (disk exampleWorld) !! path_join (projectsDir e) "demo-thumbnail.jpg")).
Proof.
  cbv zeta. split; [reflexivity|]. split; [reflexivity|].
  by apply (simulation_completes (localEnv workingTools) "p1" exampleWorld exampleProject).
Defined.

(** ** The file endpoints *)

Lemma demo_reference :
  isRemoteUrl "demo-video.mp4" = false ∧ includes "demo" "demo-video.mp4" = true.
Proof. by vm_compute. Qed.

(** X12: what the file endpoints send for a simulated job.  After the
    simulation has run to its end, the download endpoint sends the built-in
    demo clip of 48 bytes under the name of the job, whatever is on the
    disk, while the preview endpoint streams the file [demo-video.mp4] of
    the projects directory, which the simulation created with the 32
    bytes of its header if it was not there: the two endpoints send
    different bytes for the same job.  Neither changes the world. *)
Theorem simulated_job_files (e : env) (pipeUpstream : string → js world sent)
    (pid : string) (w : world) (p : Project.t) :
  projects w !! pid = Some p →
  timers w = [] →
  files (disk w) !! path_join (projectsDir e) "demo-video.mp4" = None →
  let w' := drainTimers e 5 (final (simulateAIProcessing e pid w)) in
  getDownload e pid w' = Ok (Attachment (Project.name p +:+ "-AI-Edited.mp4") demoVideoData) w' ∧
  getVideo e pipeUpstream pid w' = Ok (Inline mp4Header) w' ∧
  demoVideoData ≠ mp4Header.
Proof.
  intros Hlook Htimers Hfresh w'.
  destruct (simulation_runs e pid w p Hlook Htimers)
    as (_ & Hrow & _ & _ & _ & Hvideo & _).
  fold w' in Hrow, Hvideo. rewrite Hfresh in Hvideo. cbn [default] in Hvideo.
  clearbody w'.
  split; [|split; [|by vm_compute]].
  - unfold getDownload, try_catch, mbind, js_bind, gets, getProjectById.
    rewrite Hrow. cbn -[isRemoteUrl includes demoVideoData].
    destruct demo_reference as [-> ->]. reflexivity.
  - unfold getVideo, try_catch, mbind, js_bind, gets, getProjectById.
    rewrite Hrow. cbn -[isRemoteUrl includes path_join mp4Header].
    destruct demo_reference as [-> _]. cbn -[path_join mp4Header].
    unfold locate. rewrite Hvideo. cbn -[path_join mp4Header].
    rewrite Hvideo. reflexivity.
Qed.

Lemma simulated_job_files_witness :
  let e := localEnv workingTools in
  projects exampleWorld !! "p1" = Some exampleProject ∧
  timers exampleWorld = [] ∧
  files (disk exampleWorld) !! path_join (projectsDir e) "demo-video.mp4" = None ∧
  let w' := drainTimers e 5 (final (simulateAIProcessing e "p1" exampleWorld)) in
  getDownload e "p1" w'
  = Ok (Attachment (Project.name exampleProject +:+ "-AI-Edited.mp4") demoVideoData) w' ∧
  getVideo e (λ body, mret (Inline body)) "p1" w' = Ok (Inline mp4Header) w' ∧
  demoVideoData ≠ mp4Header.
Proof.
  cbv zeta. split; [reflexivity|]. split; [reflexivity|]. split; [reflexivity|].
  by apply (simulated_job_files (localEnv workingTools) (λ body, mret (Inline body))
              "p1" exampleWorld exampleProject).
Defined.

Lemma or_else_empty x : or_else x "" = x.
Proof. by destruct x. Qed.

Lemma processed_name_plain id_ :
  let name := "processed-" +:+ id_ +:+ ".mp4" in
  name ≠ "" ∧ name ≠ "temp_processing" ∧ isRemoteUrl name = false.
Proof.
  cbv zeta.
  change ("processed-" +:+ id_ +:+ ".mp4") with (String "p" ("rocessed-" +:+ id_ +:+ ".mp4")).
  repeat split; discriminate.
Qed.

(** X13: a job that the local pipeline completed can be downloaded.  When
    the mandatory stages succeed and the tools leave their outputs, the
    run ends with the transcoded file in the projects directory, and the
    download endpoint sends exactly that file under the name of the job,
    as the preview endpoint streams it.  (The file name of the output must
    not contain [demo], or the download endpoint would send the demo
    clip, nor a separator.) *)
Theorem local_job_can_be_downloaded (e : env) (pipeUpstream : string → js world sent)
    (pid : string) (w : world) (p : Project.t) :
  let name := "processed-" +:+ Project.id p +:+ ".mp4" in
  let outputPath := path_join (projectsDir e) name in
  rendersLocally e →
  projects w !! pid = Some p →
  mandatoryStagesSucceed (e_tools e)
    (path_join (uploadsDir e) (Project.originalVideo p)) outputPath
    (Project.style p) (Project.intensity p) (Project.quality p) →
  leavesOutput (e_tools e) →
  projectsDir e ≠ "" →
  dirname_aux name = None →
  includes "demo" name = false →
  scratchAvailable outputPath (disk w) →
  let w' := final (processVideoWithAI e pid w) in
  ∃ content,
    files (disk w') !! outputPath = Some (File content) ∧
    getDownload e pid w' = Ok (Attachment (Project.name p +:+ "-AI-Edited.mp4") content) w' ∧
    getVideo e pipeUpstream pid w' = Ok (Inline content) w'.
Proof.
  intros name outputPath Hlocal Hlook Hmandatory Hleaves Hdir Hflat Hdemo Hscratch w'.
  destruct (processed_name_plain (Project.id p)) as (Hname & Hother & Hremote).
  fold name in Hname, Hother, Hremote.
  destruct (processVideo_output_in_place (e_tools e) _ (projectsDir e) name _ _ _ (disk w)
              Hmandatory Hleaves Hdir Hname Hflat Hother Hscratch)
    as (m & Hrender & [content Hfile] & _).
  fold outputPath in Hrender, Hfile.
  destruct (processVideoWithAI_local_store e pid w p true m Hlocal Hlook Hrender)
    as [Hrow _].
  destruct (processVideoWithAI_local_success e pid w p true m Hlocal Hlook Hrender)
    as (w1 & p1 & Hw1 & _ & _ & _ & _ & _ & _ & _ & _ & Hdisk).
  assert (disk w' = m) as Hdisk' by (subst w'; by rewrite Hw1).
  fold w' in Hrow. clearbody w'. exists content.
  split; [by rewrite Hdisk'|].
  assert (locate e name (disk w') = outputPath) as Hlocate.
  { unfold locate. fold outputPath. by rewrite Hdisk', Hfile. }
  split.
  - unfold getDownload, try_catch, mbind, js_bind, gets, getProjectById.
    rewrite Hrow.
    cbn -[isRemoteUrl includes locate path_join String.append or_else demoVideoData].
    rewrite !or_else_empty. fold name. rewrite Hremote, Hdemo.
    destruct (String.eqb name ""); cbn -[locate path_join String.append];
      by rewrite Hlocate, Hdisk', Hfile.
  - unfold getVideo, try_catch, mbind, js_bind, gets, getProjectById.
    rewrite Hrow.
    cbn -[isRemoteUrl includes locate path_join String.append or_else].
    rewrite !or_else_empty. fold name. rewrite Hremote.
    destruct (String.eqb name ""); cbn -[locate path_join String.append];
      by rewrite Hlocate, Hdisk', Hfile.
Qed.

Lemma local_job_can_be_downloaded_witness :
  let e := localEnv optionalFailTools in
  let name := "processed-" +:+ Project.id exampleProject +:+ ".mp4" in
  let outputPath := path_join (projectsDir e) name in
  rendersLocally e ∧
  projects exampleWorld !! "p1" = Some exampleProject ∧
  mandatoryStagesSucceed (e_tools e)
    (path_join (uploadsDir e) (Project.originalVideo exampleProject)) outputPath
    (Project.style exampleProject) (Project.intensity exampleProject)
    (Project.quality exampleProject) ∧
  leavesOutput (e_tools e) ∧
  projectsDir e ≠ "" ∧
  dirname_aux name = None ∧
  includes "demo" name = false ∧
  scratchAvailable outputPath (disk exampleWorld) ∧
  let w' := final (processVideoWithAI e "p1" exampleWorld) in
  ∃ content,
    files (disk w') !! outputPath = Some (File content) ∧
    getDownload e "p1" w'
    = Ok (Attachment (Project.name exampleProject +:+ "-AI-Edited.mp4") content) w' ∧
    getVideo e (λ body, mret (Inline body)) "p1" w' = Ok (Inline content) w'.
Proof.
  assert (leavesOutput optionalFailTools) as Hleaves.
  { intros n command args f out err Hspawn. cbn in Hspawn.
    destruct (optionalStage args); discriminate Hspawn. }
  assert (mandatoryStagesSucceed optionalFailTools "/srv/uploads/clip.mp4"
            "/srv/projects/processed-p1.mp4" "cinematic" "medium" "1080p") as Hmandatory.
  { split; [|split; [|split; [|split]]].
    - intros n f. by eexists _, _, _.
    - intros n f. by eexists _, _.
    - intros n f. by eexists _, _, _.
    - intros Hin. repeat (apply elem_of_cons in Hin as [Heq|Hin]; [discriminate Heq|]).
      by apply elem_of_nil in Hin.
    - intros n f. by eexists _, _, _. }
  assert (scratchAvailable "/srv/projects/processed-p1.mp4" (disk exampleWorld)) as Hscratch.
  { split; [reflexivity|]. split; [intros content; vm_compute; discriminate|].
    intros p [->| ->]; vm_compute; discriminate. }
  cbv zeta.
  split; [reflexivity|]. split; [reflexivity|]. split; [exact Hmandatory|].
  split; [exact Hleaves|]. split; [discriminate|]. split; [reflexivity|].
  split; [reflexivity|]. split; [exact Hscratch|].
  apply (local_job_can_be_downloaded (localEnv optionalFailTools)
           (λ body, mret (Inline body)) "p1" exampleWorld exampleProject);
    [reflexivity|reflexivity|exact Hmandatory|exact Hleaves|discriminate|reflexivity
    |reflexivity|exact Hscratch].
Defined.

(** X14: what the file endpoints refuse.  A job that does not exist gives
    404 and a job that is not [completed] gives 400, whatever is on the
    disk; a [completed] job without an output reference makes
    [path.join] throw, which the download endpoint turns into 500; and a
    local output reference that names no file in the projects or the
    edited directory gives 404.  None of these changes the world. *)
Theorem download_refusals (e : env) (pid : string) (w : world) :
  (projects w !! pid = None →
   getDownload e pid w = Ok (Json 404 "Project not found") w) ∧
  (∀ p, projects w !! pid = Some p → Project.status p ≠ "completed" →
   getDownload e pid w = Ok (Json 400 "Video processing not complete") w) ∧
  (∀ p, projects w !! pid = Some p → Project.status p = "completed" →
   Project.processedVideo p = None →
   getDownload e pid w = Ok (Json 500 "Failed to download video") w) ∧
  (∀ p reference, projects w !! pid = Some p → Project.status p = "completed" →
   Project.processedVideo p = Some reference →
   isRemoteUrl reference = false → includes "demo" reference = false →
   files (disk w) !! path_join (projectsDir e) reference = None →
   files (disk w) !! path_join (editedDir e) reference = None →
   getDownload e pid w = Ok (Json 404 "Processed video file not found") w).
Proof.
  repeat apply conj.
  - intros Hlook. unfold getDownload, try_catch, mbind, js_bind, gets, getProjectById.
    by rewrite Hlook.
  - intros p Hlook Hstatus.
    unfold getDownload, try_catch, mbind, js_bind, gets, getProjectById.
    rewrite Hlook. apply String.eqb_neq in Hstatus. by rewrite Hstatus.
  - intros p Hlook Hstatus Hnone.
    unfold getDownload, try_catch, mbind, js_bind, gets, getProjectById.
    rewrite Hlook, Hstatus, Hnone. reflexivity.
  - intros p reference Hlook Hstatus Hsome Hremote Hdemo Hprojects Hedited.
    unfold getDownload, try_catch, mbind, js_bind, gets, getProjectById.
    rewrite Hlook, Hstatus, Hsome.
    cbn -[isRemoteUrl includes locate path_join or_else demoVideoData].
    rewrite !or_else_empty, Hremote, Hdemo, !andb_false_r.
    unfold locate. rewrite Hprojects, Hedited.
    cbn -[path_join]. by rewrite Hprojects.
Qed.

Lemma download_refusals_witness :
  let e := localEnv workingTools in
  (projects exampleWorld !! "p9" = None ∧
   getDownload e "p9" exampleWorld = Ok (Json 404 "Project not found") exampleWorld) ∧
  (projects exampleWorld !! "p1" = Some exampleProject ∧
   Project.status exampleProject ≠ "completed" ∧
   getDownload e "p1" exampleWorld
   = Ok (Json 400 "Video processing not complete") exampleWorld) ∧
  (let w := worldOf (exampleJob "completed" None) in
   projects w !! "p2" = Some (exampleJob "completed" None) ∧
   Project.status (exampleJob "completed" None) = "completed" ∧
   Project.processedVideo (exampleJob "completed" None) = None ∧
   getDownload e "p2" w = Ok (Json 500 "Failed to download video") w) ∧
  (let p := exampleJob "completed" (Some "processed-p2.mp4") in
   let w := worldOf p in
   projects w !! "p2" = Some p ∧
   Project.status p = "completed" ∧
   Project.processedVideo p = Some "processed-p2.mp4" ∧
   isRemoteUrl "processed-p2.mp4" = false ∧
   includes "demo" "processed-p2.mp4" = false ∧
   files (disk w) !! path_join (projectsDir e) "processed-p2.mp4" = None ∧
   files (disk w) !! path_join (editedDir e) "processed-p2.mp4" = None ∧
   getDownload e "p2" w = Ok (Json 404 "Processed video file not found") w).
Proof.
  cbv zeta. split; [|split; [|split]].
  - split; [reflexivity|].
    by apply (proj1 (download_refusals (localEnv workingTools) "p9" exampleWorld)).
  - split; [reflexivity|]. split; [discriminate|].
    by apply (proj1 (proj2 (download_refusals (localEnv workingTools) "p1" exampleWorld))
                exampleProject).
  - do 3 (split; [reflexivity|]).
    by apply (proj1 (proj2 (proj2 (download_refusals (localEnv workingTools) "p2"
                                     (worldOf (exampleJob "completed" None)))))
                (exampleJob "completed" None)).
  - do 7 (split; [reflexivity|]).
    by apply (proj2 (proj2 (proj2 (download_refusals (localEnv workingTools) "p2"
                                     (worldOf (exampleJob "completed"
                                                 (Some "processed-p2.mp4"))))))
                (exampleJob "completed" (Some "processed-p2.mp4")) "processed-p2.mp4").
Defined.

(** ** The start endpoint and the webhook *)



(** X16: the render webhook touches one job at most.  Whatever the
    request, it leaves the history, the disk, the timers and the queue of
    pipelines as they are, it creates and deletes no job, and it changes no
    job other than the one that the request names. *)
Theorem webhook_touches_one_job (e : env) (req : webhookRequest) (w : world) :
  let '(r, w') := postRenderWebhook e req w in
  history w' = history w ∧ disk w' = disk w ∧ timers w' = timers w ∧
  background w' = background w ∧ requests w' = requests w ∧
  (∀ pid, is_Some (projects w' !! pid) ↔ is_Some (projects w !! pid)) ∧
  (∀ other, wh_projectId req ≠ Some other → projects w' !! other = projects w !! other).
Proof.
  unfold postRenderWebhook.
  destruct (or_else_opt (wh_projectId req) "") as [|c rest] eqn:Hid;
    [by repeat apply conj|].
  assert (wh_projectId req = Some (String c rest)) as Hreq.
  { destruct (wh_projectId req) as [[|c' rest']|]; cbn in Hid; congruence. }
  unfold getProjectById.
  destruct (projects w !! String c rest) as [p|] eqn:Hlook; [|by repeat apply conj].
  destruct (String.eqb (or_else_opt (wh_status req) "") "done"
            && negb (String.eqb (or_else_opt (wh_outputUrl req) "") "")).
  - cbn. repeat apply conj; try reflexivity.
    + intros pid. rewrite updateProjectStatus_lookup, updateProject_lookup.
      destruct (decide (String c rest = pid)) as [<-|]; [|done].
      rewrite Hlook. cbn. split; eauto.
    + intros other Hother. rewrite updateProjectStatus_lookup, updateProject_lookup.
      by rewrite !decide_False by congruence.
  - destruct (String.eqb (or_else_opt (wh_status req) "") "failed"
              || String.eqb (or_else_opt (wh_status req) "") "error"
              || String.eqb (or_else_opt (wh_status req) "") "cancelled");
      [|by repeat apply conj].
    cbn. repeat apply conj; try reflexivity.
    + intros pid. rewrite updateProjectStatus_lookup.
      destruct (decide (String c rest = pid)) as [<-|]; [|done].
      rewrite Hlook. cbn. split; eauto.
    + intros other Hother. rewrite updateProjectStatus_lookup.
      by rewrite !decide_False by congruence.
Qed.

(** X17: what the render webhook does to the job it names.  A [done]
    render with an output URL completes the job at progress 100 with that
    URL as its output reference, whatever the status of the job was; a
    [failed], [error] or [cancelled] render puts the job in [error] at
    progress 0 with the step [Render failed (status)] and keeps its output
    reference; both are answered with 200. *)
Theorem webhook_outcomes (e : env) (req : webhookRequest) (w : world)
    (pid : string) (p : Project.t) :
  pid ≠ "" →
  wh_projectId req = Some pid →
  projects w !! pid = Some p →
  let '(r, w') := postRenderWebhook e req w in
  (∀ url, wh_status req = Some "done" → wh_outputUrl req = Some url → url ≠ "" →
     r = {| statusCode := 200; json := Success |} ∧
     ∃ p', projects w' !! pid = Some p' ∧
           Project.status p' = "completed" ∧ Project.progress p' = 100 ∧
           Project.currentStep p' = "Processing completed via webhook" ∧
           Project.processedVideo p' = Some url) ∧
  (∀ st, wh_status req = Some st → st ∈ ["failed"; "error"; "cancelled"] →
     r = {| statusCode := 200; json := SuccessError st |} ∧
     ∃ p', projects w' !! pid = Some p' ∧
           Project.status p' = "error" ∧ Project.progress p' = 0 ∧
           Project.currentStep p' = "Render failed (" +:+ st +:+ ")" ∧
           Project.processedVideo p' = Project.processedVideo p).
Proof.
  intros Hpid Hreq Hlook. unfold postRenderWebhook. rewrite Hreq.
  destruct pid as [|c rest]; [done|]. cbn [or_else_opt or_else].
  unfold getProjectById. rewrite Hlook.
  destruct (String.eqb (or_else_opt (wh_status req) "") "done"
            && negb (String.eqb (or_else_opt (wh_outputUrl req) "") "")) eqn:Hdone.
  - apply andb_true_iff in Hdone as [Hst Hurl]. apply String.eqb_eq in Hst. split.
    + intros url _ Hsome Hne. rewrite Hsome. destruct url as [|u url]; [done|].
      cbn [or_else_opt or_else final writeDetails writeStatus projects with_projects
           with_log].
      split; [reflexivity|].
      rewrite lookup_status_write, lookup_details_write, Hlook. cbn.
      eexists. split; [reflexivity|]. by repeat apply conj.
    + intros st Hsome Hin. rewrite Hsome in Hst. exfalso.
      repeat (apply elem_of_cons in Hin as [->|Hin]; [vm_compute in Hst; discriminate Hst|]).
      by apply elem_of_nil in Hin.
  - assert (∀ url, wh_status req = Some "done" → wh_outputUrl req = Some url →
                   url ≠ "" → False) as Hnot.
    { intros url Hsome Hurl Hne. rewrite Hsome, Hurl in Hdone.
      destruct url; [done|]. discriminate Hdone. }
    assert (∀ st, wh_status req = Some st → st ∈ ["failed"; "error"; "cancelled"] →
                  or_else_opt (wh_status req) "" = st ∧
                  String.eqb st "failed" || String.eqb st "error"
                  || String.eqb st "cancelled" = true) as Hfailed.
    { intros st Hsome Hin. rewrite Hsome.
      repeat (apply elem_of_cons in Hin as [->|Hin]; [by split|]).
      by apply elem_of_nil in Hin. }
    destruct (String.eqb (or_else_opt (wh_status req) "") "failed"
              || String.eqb (or_else_opt (wh_status req) "") "error"
              || String.eqb (or_else_opt (wh_status req) "") "cancelled") eqn:Hfail.
    + split; [intros url Hsome Hurl Hne; by destruct (Hnot url)|].
      intros st Hsome Hin. destruct (Hfailed st Hsome Hin) as [-> _].
      cbn [final writeStatus projects with_projects with_log].
      split; [reflexivity|].
      rewrite lookup_status_write, Hlook. cbn.
      eexists. split; [reflexivity|]. by repeat apply conj.
    + split; [intros url Hsome Hurl Hne; by destruct (Hnot url)|].
      intros st Hsome Hin. destruct (Hfailed st Hsome Hin) as [Heq Htrue].
      rewrite Heq in Hfail. congruence.
Qed.

Lemma webhook_outcomes_witness :
  let e := localEnv workingTools in
  let p := exampleJob "completed" (Some "processed-p2.mp4") in
  let w := worldOf p in
  let req := {| wh_status := Some "failed"; wh_outputUrl := None;
                wh_projectId := Some "p2" |} in
  "p2" ≠ "" ∧
  wh_projectId req = Some "p2" ∧
  projects w !! "p2" = Some p ∧
  let '(r, w') := postRenderWebhook e req w in
  (∀ url, wh_status req = Some "done" → wh_outputUrl req = Some url → url ≠ "" →
     r = {| statusCode := 200; json := Success |} ∧
     ∃ p', projects w' !! "p2" = Some p' ∧
           Project.status p' = "completed" ∧ Project.progress p' = 100 ∧
           Project.currentStep p' = "Processing completed via webhook" ∧
           Project.processedVideo p' = Some url) ∧
  (∀ st, wh_status req = Some st → st ∈ ["failed"; "error"; "cancelled"] →
     r = {| statusCode := 200; json := SuccessError st |} ∧
     ∃ p', projects w' !! "p2" = Some p' ∧
           Project.status p' = "error" ∧ Project.progress p' = 0 ∧
           Project.currentStep p' = "Render failed (" +:+ st +:+ ")" ∧
           Project.processedVideo p' = Project.processedVideo p).
Proof.
  cbv zeta. split; [discriminate|]. split; [reflexivity|]. split; [reflexivity|].
  apply (webhook_outcomes (localEnv workingTools)
           {| wh_status := Some "failed"; wh_outputUrl := None; wh_projectId := Some "p2" |}
           (worldOf (exampleJob "completed" (Some "processed-p2.mp4"))) "p2"
           (exampleJob "completed" (Some "processed-p2.mp4")));
    [discriminate|reflexivity|reflexivity].
Defined.

(** ** The identifier of a guest *)

Lemma underscored_app a b : underscored (a +:+ b) = underscored a +:+ underscored b.
Proof.
  induction a as [|x a IH]; [done|].
  change (underscored (String x (a +:+ b))
          = String (if alphanumeric x then x else "_"%char) (underscored a +:+ underscored b)).
  cbn [underscored]. by rewrite IH.
Qed.

(** X18: the identifier under which the projects of a guest are stored.
    It is [guest_] followed by the address with every character other
    than a letter or a digit replaced by an underscore: it has the length
    of the address, contains nothing but letters, digits and underscores,
    and sanitising it again changes nothing.  It does not identify the
    address: two addresses that differ only in a separator get the same
    identifier. *)
Theorem guestUserId_sanitised (ip : string) :
  Forall (λ c, alphanumeric c = true ∨ c = "_"%char)
    (list_ascii_of_string (underscored ip)) ∧
  String.length (underscored ip) = String.length ip ∧
  underscored (underscored ip) = underscored ip ∧
  (∀ a b c d, alphanumeric c = false → alphanumeric d = false →
     guestUserId (a +:+ String c b) = guestUserId (a +:+ String d b)).
Proof.
  split; [|split; [|split]].
  - induction ip as [|x ip IH]; [constructor|]. cbn [underscored list_ascii_of_string].
    constructor; [|exact IH]. destruct (alphanumeric x) eqn:Hx; [by left|by right].
  - induction ip as [|x ip IH]; [done|]. cbn [underscored String.length]. by rewrite IH.
  - induction ip as [|x ip IH]; [done|]. cbn [underscored]. rewrite IH.
    destruct (alphanumeric x) eqn:Hx; [by rewrite Hx|reflexivity].
  - intros a b c d Hc Hd. unfold guestUserId. rewrite !underscored_app.
    cbn [underscored]. by rewrite Hc, Hd.
Qed.

Lemma guestUserId_sanitised_witness :
  Forall (λ c, alphanumeric c = true ∨ c = "_"%char)
    (list_ascii_of_string (underscored "::ffff:1.2.3.4")) ∧
  String.length (underscored "::ffff:1.2.3.4") = String.length "::ffff:1.2.3.4" ∧
  underscored (underscored "::ffff:1.2.3.4") = underscored "::ffff:1.2.3.4" ∧
  alphanumeric "." = false ∧ alphanumeric ":" = false ∧
  guestUserId ("::ffff:1" +:+ String "." "2:3:4")
  = guestUserId ("::ffff:1" +:+ String ":" "2:3:4").
Proof.
  destruct (guestUserId_sanitised "::ffff:1.2.3.4") as (H2 & H3 & H4 & H5).
  split; [exact H2|]. split; [exact H3|]. split; [exact H4|].
  split; [reflexivity|]. split; [reflexivity|].
  by apply H5.
Defined.

(** ** The cloud renderer *)

Lemma lookupOr_unlisted table key fallback :
  JsObject.own table key = None → key ∉ objectPrototypeKeys →
  Shotstack.lookupOr table key fallback = Own fallback.
Proof.
  intros Hown Hkey. unfold Shotstack.lookupOr.
  by rewrite (get_not_inherited table key Hkey), Hown.
Qed.

(** X19: the render request.  The clip length is always positive: it is
    [targetSeconds] when that is a positive number and 10 otherwise.  A
    style that is not listed (and not a member of [Object.prototype]) gets
    the filter [boost], a quality that is not listed gets the resolution
    [hd], and [4k] and [8k] give the same request. *)
Theorem buildTimeline_defaults (inputUrl style quality : string) (targetSeconds : option Q) :
  (0 < Shotstack.clipLength (Shotstack.buildTimeline inputUrl style quality targetSeconds))%Q ∧
  (∀ seconds, targetSeconds = Some seconds → (0 < seconds)%Q →
     Shotstack.clipLength (Shotstack.buildTimeline inputUrl style quality targetSeconds) = seconds) ∧
  ((∀ seconds, targetSeconds = Some seconds → (seconds <= 0)%Q) →
     Shotstack.clipLength (Shotstack.buildTimeline inputUrl style quality targetSeconds) = 10%Q) ∧
  (JsObject.own Shotstack.filtersByStyle style = None → style ∉ objectPrototypeKeys →
     Shotstack.filter (Shotstack.buildTimeline inputUrl style quality targetSeconds) = Own "boost") ∧
  (JsObject.own Shotstack.resolutionMap quality = None → quality ∉ objectPrototypeKeys →
     Shotstack.resolution (Shotstack.buildTimeline inputUrl style quality targetSeconds) = Own "hd") ∧
  Shotstack.buildTimeline inputUrl style "4k" targetSeconds
  = Shotstack.buildTimeline inputUrl style "8k" targetSeconds.
Proof.
  repeat apply conj.
  - cbn. destruct targetSeconds as [seconds|]; [|done].
    by destruct (Qlt_le_dec 0 seconds).
  - intros seconds -> Hpos. cbn. destruct (Qlt_le_dec 0 seconds) as [_|Hle]; [done|].
    exfalso. apply (Qlt_irrefl 0). by eapply Qlt_le_trans.
  - intros Hnot. cbn. destruct targetSeconds as [seconds|]; [|done].
    destruct (Qlt_le_dec 0 seconds) as [Hpos|_]; [|done].
    exfalso. apply (Qlt_irrefl 0). eapply Qlt_le_trans; [exact Hpos|]. by apply Hnot.
  - intros Hown Hkey. cbn [Shotstack.filter Shotstack.buildTimeline]. by apply lookupOr_unlisted.
  - intros Hown Hkey. cbn [Shotstack.resolution Shotstack.buildTimeline]. by apply lookupOr_unlisted.
  - reflexivity.
Qed.

Lemma buildTimeline_defaults_witness :
  let request := Shotstack.buildTimeline "https://cdn.example/uploads/clip.mp4" "retro" "high" in
  (0 < Shotstack.clipLength (request (Some 42%Q)))%Q ∧
  ((0 < 42)%Q ∧ Shotstack.clipLength (request (Some 42%Q)) = 42%Q) ∧
  ((∀ seconds, None = Some seconds → (seconds <= 0)%Q) ∧
   Shotstack.clipLength (request None) = 10%Q) ∧
  (JsObject.own Shotstack.filtersByStyle "retro" = None ∧ ("retro" ∉ objectPrototypeKeys) ∧
   Shotstack.filter (request None) = Own "boost") ∧
  (JsObject.own Shotstack.resolutionMap "high" = None ∧ ("high" ∉ objectPrototypeKeys) ∧
   Shotstack.resolution (request None) = Own "hd").
Proof.
  assert (∀ key, key = "retro" ∨ key = "high" → key ∉ objectPrototypeKeys) as Hkeys.
  { intros key [->| ->] Hin;
      repeat (apply elem_of_cons in Hin as [Heq|Hin]; [discriminate Heq|]);
      by apply elem_of_nil in Hin. }
  cbv zeta. split; [|split; [|split; [|split]]].
  - apply (proj1 (buildTimeline_defaults "https://cdn.example/uploads/clip.mp4" "retro"
                    "high" (Some 42%Q))).
  - split; [reflexivity|].
    by apply (proj1 (proj2 (buildTimeline_defaults "https://cdn.example/uploads/clip.mp4"
                              "retro" "high" (Some 42%Q)))).
  - split; [discriminate|].
    apply (proj1 (proj2 (proj2 (buildTimeline_defaults
                                  "https://cdn.example/uploads/clip.mp4"
                                  "retro" "high" None)))). discriminate.
  - split; [reflexivity|]. split; [apply Hkeys; by left|].
    apply (proj1 (proj2 (proj2 (proj2 (buildTimeline_defaults
                                         "https://cdn.example/uploads/clip.mp4"
                                         "retro" "high" None)))));
      [reflexivity|apply Hkeys; by left].
  - split; [reflexivity|]. split; [apply Hkeys; by right|].
    apply (proj1 (proj2 (proj2 (proj2 (proj2 (buildTimeline_defaults
                                                "https://cdn.example/uploads/clip.mp4"
                                                "retro" "high" None))))));
      [reflexivity|apply Hkeys; by right].
Defined.

(** The loop returns once the clock has passed the deadline, and asks for
    no status after that. *)
Lemma pollLoop_returns getRenderStatus now start timeoutMs k :
  timeoutMs ≤ now (S k) - start →
  ∀ fuel i, (i ≤ k)%nat → (k - i < fuel)%nat →
  ∃ r, Shotstack.pollLoop getRenderStatus now fuel start timeoutMs i = Some r ∧
       ∀ getRenderStatus',
         (∀ j, (j < k)%nat → getRenderStatus' j = getRenderStatus j) →
         Shotstack.pollLoop getRenderStatus' now fuel start timeoutMs i = Some r.
Proof.
  intros Hdeadline fuel. induction fuel as [|fuel IH]; intros i Hi Hfuel; [lia|].
  cbn [Shotstack.pollLoop].
  destruct (Z.ltb_spec (now (S i) - start) timeoutMs) as [Hin|Hout].
  - assert (i < k)%nat as Hlt.
    { destruct (decide (i = k)) as [->|]; [lia|lia]. }
    destruct (getRenderStatus i) as [status|message] eqn:Hstatus.
    + destruct (String.eqb (or_else_opt (Shotstack.rs_status status) "") "done") eqn:Hdone.
      * eexists. split; [reflexivity|]. intros g Hg. by rewrite (Hg i Hlt), Hstatus, Hdone.
      * destruct (String.eqb (or_else_opt (Shotstack.rs_status status) "") "failed"
                  || String.eqb (or_else_opt (Shotstack.rs_status status) "") "error"
                  || String.eqb (or_else_opt (Shotstack.rs_status status) "") "cancelled") eqn:Hfail.
        -- eexists. split; [reflexivity|]. intros g Hg.
           by rewrite (Hg i Hlt), Hstatus, Hdone, Hfail.
        -- destruct (IH (S i)) as (r & Hr & Hsame); [lia|lia|].
           exists r. split; [exact Hr|]. intros g Hg.
           rewrite (Hg i Hlt), Hstatus, Hdone, Hfail. by apply Hsame.
    + eexists. split; [reflexivity|]. intros g Hg. by rewrite (Hg i Hlt), Hstatus.
  - eexists. split; [reflexivity|]. intros g Hg. reflexivity.
Qed.

(** X20: polling ends.  If the [k+1]-th reading of the clock after the
    start is at or past the deadline, then [Shotstack.pollUntilComplete] returns
    (given fuel for [k+1] rounds), and what it returns depends on the
    first [k] answers of the service only: no status is requested after
    the deadline, and none at all when the deadline has passed at the first
    reading. *)
Theorem pollUntilComplete_returns (getRenderStatus : nat → settled Shotstack.renderStatus)
    (now : nat → Z) (timeoutMs : Z) (k fuel : nat) :
  timeoutMs ≤ now (S k) - now 0%nat →
  (k < fuel)%nat →
  ∃ r, Shotstack.pollUntilComplete getRenderStatus now fuel timeoutMs = Some r ∧
       ∀ getRenderStatus',
         (∀ j, (j < k)%nat → getRenderStatus' j = getRenderStatus j) →
         Shotstack.pollUntilComplete getRenderStatus' now fuel timeoutMs = Some r.
Proof.
  intros Hdeadline Hfuel. unfold Shotstack.pollUntilComplete.
  apply (pollLoop_returns getRenderStatus now (now 0%nat) timeoutMs k Hdeadline); lia.
Qed.



Lemma pollUntilComplete_returns_witness :
  10000 ≤ tickingClock 3 - tickingClock 0 ∧
  (2 < 5)%nat ∧
  ∃ r, Shotstack.pollUntilComplete alwaysRendering tickingClock 5 10000 = Some r ∧
       ∀ getRenderStatus',
         (∀ j, (j < 2)%nat → getRenderStatus' j = alwaysRendering j) →
         Shotstack.pollUntilComplete getRenderStatus' tickingClock 5 10000 = Some r.
Proof.
  split; [by vm_compute|]. split; [lia|].
  apply (pollUntilComplete_returns alwaysRendering tickingClock 10000 2 5);
    [by vm_compute|lia].
Defined.


(** ** A cloud render that fails *)

Lemma set_status_idem st pr step st' pr' step' p :
  Project.set_status st pr step (Project.set_status st' pr' step' p)
  = Project.set_status st pr step p.
Proof. reflexivity. Qed.

Lemma statusOnly_writeStatus pid p n st pr step X :
  triple (statusOnly pid p n) (writeStatus st pr step pid)
    (λ _ w, statusOnly pid p n w ∧
            projects w !! pid = Some (Project.set_status st pr step p)) X.
Proof.
  intros w [Hn (st0 & pr0 & step0 & Hrow)]. rewrite writeStatus_world.
  unfold statusOnly. cbn [projects with_projects with_log requests].
  rewrite lookup_status_write, Hrow. cbn.
  split; [|done]. split; [done|]. by exists st, pr, step.
Qed.

Lemma statusOnly_status pid p n st pr step X :
  triple (statusOnly pid p n) (writeStatus st pr step pid) (λ _, statusOnly pid p n) X.
Proof.
  intros w Hw. pose proof (statusOnly_writeStatus pid p n st pr step X w Hw) as Hpost.
  rewrite writeStatus_world in *. by destruct Hpost.
Qed.

Lemma statusOnly_addStep pid p n pid' step st message X :
  triple (statusOnly pid p n) (addStep pid' step st message) (λ _, statusOnly pid p n) X.
Proof. by intros w Hw. Qed.

Lemma statusOnly_sleep pid p n ms X :
  triple (statusOnly pid p n) (sleep ms) (λ _, statusOnly pid p n) X.
Proof. by intros w Hw. Qed.

Lemma statusOnly_updateProgress pid p n pr message X :
  triple (statusOnly pid p n)
    (_ ← writeStatus "processing" pr message pid;
     addStep pid "progress_update" "success" message)
    (λ _, statusOnly pid p n) X.
Proof.
  eapply triple_bind; [apply statusOnly_status|intros ?; apply statusOnly_addStep].
Qed.

Lemma statusOnly_request pid p n {A} (call : nat → settled A) (a : A) X :
  call n = Resolved a →
  triple (statusOnly pid p n) (request call)
    (λ a' w, a' = a ∧ statusOnly pid p (S n) w) X.
Proof.
  intros Hcall w [Hn Hrow]. unfold request. rewrite Hn, Hcall.
  split; [done|]. split; [|done]. cbn. by f_equal.
Qed.

(** A run of the cloud pipeline whose render fails or has no URL. *)
Lemma processVideoWithAI_cloud_failure e sh pid p inputUrl jobId result n :
  String.eqb (mode e) "shotstack" = true →
  shotstack e = Some sh →
  ensureRemoteUrlForLocalFile sh n
    (path_join (uploadsDir e) (Project.originalVideo p)) (Project.originalVideo p)
    = Resolved inputUrl →
  submitRenderFromUrl sh (S n) inputUrl (Project.style p) (Project.quality p)
    = Resolved jobId →
  pollUntilComplete sh (S (S n)) jobId = Resolved result →
  r_success result = false ∨ or_else_opt (r_url result) "" = "" →
  triple (λ w, projects w !! pid = Some p ∧ requests w = n)
    (processVideoWithAI e pid)
    (λ _ w, projects w !! pid
            = Some (Project.set_status "error" 0
                      ("Error: Cloud render failed: " +:+
                       or_else_opt (r_status result) "unknown") p))
    (λ _ _, False).
Proof.
  intros Hmode Hsh Hensure Hsubmit Hpoll Hfailed.
  set (message := "Cloud render failed: " +:+ or_else_opt (r_status result) "unknown").
  unfold processVideoWithAI.
  apply triple_try_catch
    with (Y := λ err w, err = message ∧ statusOnly pid p (S (S (S n))) w).
  2: { intros err. apply triple_pure. intros ->.
       eapply triple_bind; [apply statusOnly_writeStatus|]. intros ?.
       intros w [_ Hrow]. exact Hrow. }
  apply triple_gets_bind. intros [project|].
  2: { intros w [[Hlook _] Hnone]. unfold getProjectById in Hnone. congruence. }
  apply triple_pre with (P' := λ w, project = p ∧ statusOnly pid p n w).
  { intros w [[Hlook Hn] Hget]. unfold getProjectById in Hget. split; [congruence|].
    split; [done|]. exists (Project.status p), (Project.progress p), (Project.currentStep p).
    rewrite Hlook. by destruct p. }
  apply triple_pure. intros ->. cbv zeta. rewrite Hmode, Hsh.
  eapply triple_bind; [apply statusOnly_status|]. intros ?.
  eapply triple_bind; [apply statusOnly_updateProgress|]. intros ?.
  eapply triple_bind; [apply statusOnly_sleep|]. intros ?.
  eapply triple_bind; [apply statusOnly_updateProgress|]. intros ?.
  eapply triple_bind; [apply statusOnly_sleep|]. intros ?.
  eapply triple_bind; [apply statusOnly_updateProgress|]. intros ?.
  eapply triple_bind; [apply statusOnly_sleep|]. intros ?.
  eapply triple_bind; [apply statusOnly_updateProgress|]. intros ?.
  eapply triple_bind with (Q := λ _ _, False); [|by intros ? w []].
  unfold renderInCloud.
  eapply triple_bind; [apply statusOnly_updateProgress|]. intros ?.
  eapply triple_bind; [by apply statusOnly_request|]. intros inputUrl'.
  apply triple_pure. intros ->.
  eapply triple_bind; [apply statusOnly_updateProgress|]. intros ?.
  eapply triple_bind; [by apply statusOnly_request|]. intros jobId'.
  apply triple_pure. intros ->.
  eapply triple_bind; [apply statusOnly_updateProgress|]. intros ?.
  eapply triple_bind; [by apply statusOnly_request|]. intros result'.
  apply triple_pure. intros ->.
  destruct Hfailed as [Hfailed|Hfailed]; rewrite Hfailed.
  - by apply triple_throw.
  - destruct (r_success result); by apply triple_throw.
Qed.

(** X22: a cloud render that fails reaches the job.  When the renderer
    reports failure, or reports success without a URL, the job ends in
    [error] at progress 0 and its step names the status that the renderer
    gave: [Error: Cloud render failed: timeout] after a time-out, and
    [... failed: done] for a render that is done but has no URL. *)
Theorem cloud_failure_reaches_the_job (e : env) (sh : shotstackModule) (pid : string)
    (w : world) (p : Project.t) (inputUrl jobId : string) (result : renderResult) :
  String.eqb (mode e) "shotstack" = true →
  shotstack e = Some sh →
  projects w !! pid = Some p →
  ensureRemoteUrlForLocalFile sh (requests w)
    (path_join (uploadsDir e) (Project.originalVideo p)) (Project.originalVideo p)
    = Resolved inputUrl →
  submitRenderFromUrl sh (S (requests w)) inputUrl (Project.style p) (Project.quality p)
    = Resolved jobId →
  pollUntilComplete sh (S (S (requests w))) jobId = Resolved result →
  r_success result = false ∨ r_url result = None →
  projects (final (processVideoWithAI e pid w)) !! pid
  = Some (Project.set_status "error" 0
            ("Error: Cloud render failed: " +:+ or_else_opt (r_status result) "unknown") p).
Proof.
  intros Hmode Hsh Hlook Hensure Hsubmit Hpoll Hfailed.
  assert (r_success result = false ∨ or_else_opt (r_url result) "" = "") as Hfailed'.
  { destruct Hfailed as [?|Hurl]; [by left|right]. by rewrite Hurl. }
  pose proof (processVideoWithAI_cloud_failure e sh pid p inputUrl jobId result (requests w)
                Hmode Hsh Hensure Hsubmit Hpoll Hfailed' w (conj Hlook eq_refl)) as Hrun.
  by destruct (processVideoWithAI e pid w).
Qed.

Lemma cloud_failure_reaches_the_job_witness :
  let e := pollingEnv alwaysRendering tickingClock 200 in
  let sh := pollingShotstack alwaysRendering tickingClock 200 in
  let result := {| r_success := false; r_url := None; r_status := Some "timeout" |} in
  String.eqb (mode e) "shotstack" = true ∧
  shotstack e = Some sh ∧
  projects exampleWorld !! "p1" = Some exampleProject ∧
  ensureRemoteUrlForLocalFile sh (requests exampleWorld)
    (path_join (uploadsDir e) (Project.originalVideo exampleProject))
    (Project.originalVideo exampleProject)
    = Resolved "https://cdn.example/uploads/clip.mp4" ∧
  submitRenderFromUrl sh (S (requests exampleWorld)) "https://cdn.example/uploads/clip.mp4"
    (Project.style exampleProject) (Project.quality exampleProject)
    = Resolved "render-1" ∧
  pollUntilComplete sh (S (S (requests exampleWorld))) "render-1" = Resolved result ∧
  (r_success result = false ∨ r_url result = None) ∧
  projects (final (processVideoWithAI e "p1" exampleWorld)) !! "p1"
  = Some (Project.set_status "error" 0
            ("Error: Cloud render failed: " +:+ or_else_opt (r_status result) "unknown")
            exampleProject).
Proof.
  assert (pollUntilComplete (pollingShotstack alwaysRendering tickingClock 200) 2 "render-1"
          = Resolved {| r_success := false; r_url := None; r_status := Some "timeout" |})
    as Hpoll by (by vm_compute).
  cbv zeta. split; [reflexivity|]. split; [reflexivity|]. split; [reflexivity|].
  split; [reflexivity|]. split; [reflexivity|]. split; [exact Hpoll|].
  split; [by left|].
  apply (cloud_failure_reaches_the_job (pollingEnv alwaysRendering tickingClock 200)
           (pollingShotstack alwaysRendering tickingClock 200) "p1" exampleWorld
           exampleProject "https://cdn.example/uploads/clip.mp4" "render-1"
           {| r_success := false; r_url := None; r_status := Some "timeout" |});
    [reflexivity|reflexivity|reflexivity|reflexivity|reflexivity|exact Hpoll|by left].
Defined.

(** ** The in-memory server: its invariant *)

Lemma legacy_mutate_lookup address f s a :
  Legacy.objects (Legacy.mutate address f s) !! a
  = if decide (address = a) then f <$> Legacy.objects s !! a else Legacy.objects s !! a.
Proof.
  unfold Legacy.mutate. cbn. rewrite lookup_alter.
  by destruct (decide (address = a)) as [->|].
Qed.

(** An assignment to an object that no timer holds. *)
Lemma legacy_mutate_keeps address f s p :
  Legacy.wellFormed s → Legacy.completedHasOutput s →
  Legacy.objects s !! address = Some p →
  address ∉ ((λ t : Z * Legacy.closure, Legacy.c_project t.2) <$> Legacy.timers s) →
  (Legacy.status (f p) = "completed" →
   Legacy.processedVideo (f p) = Some ("processed-" +:+ Legacy.id (f p) +:+ ".mp4") ∧
   Legacy.progress (f p) = 100) →
  Legacy.wellFormed (Legacy.mutate address f s) ∧
  Legacy.completedHasOutput (Legacy.mutate address f s).
Proof.
  intros (Hfresh & Hmap & Hnodup & Htimers) Hdone Hobj Hfree Hf. split; [repeat split|].
  - intros a q. rewrite legacy_mutate_lookup. destruct (decide (address = a)) as [<-|].
    + rewrite Hobj. intros _. by apply (Hfresh address p).
    + apply Hfresh.
  - intros pid a Hpid. rewrite legacy_mutate_lookup.
    destruct (decide (address = a)) as [<-|]; [by rewrite Hobj|by eapply Hmap].
  - exact Hnodup.
  - intros t Ht. destruct (Htimers t Ht) as (q & Hq & Hst). exists q.
    rewrite legacy_mutate_lookup. rewrite decide_False; [done|].
    intros ->. apply Hfree. apply list_elem_of_fmap. by exists t.
  - intros a q. rewrite legacy_mutate_lookup. destruct (decide (address = a)) as [<-|].
    + rewrite Hobj. intros [= <-]. exact Hf.
    + apply Hdone.
Qed.

(** A step of a simulation on an object that is [processing] and that no
    other timer holds. *)
Lemma legacy_processStep_keeps e address k s p :
  Legacy.wellFormed s → Legacy.completedHasOutput s →
  Legacy.objects s !! address = Some p → Legacy.status p = "processing" →
  address ∉ ((λ t : Z * Legacy.closure, Legacy.c_project t.2) <$> Legacy.timers s) →
  Legacy.wellFormed (Legacy.processStep e address k s) ∧
  Legacy.completedHasOutput (Legacy.processStep e address k s).
Proof.
  intros Hwf Hdone Hobj Hst Hfree. unfold Legacy.processStep.
  destruct (Legacy.processingSteps !! k) as [[[nm duration] pr]|].
  - destruct (legacy_mutate_keeps address (Legacy.set_progress pr) s p Hwf Hdone Hobj Hfree)
      as [(Hfresh & Hmap & Hnodup & Htimers) Hdone'].
    { cbn. rewrite Hst. discriminate. }
    split; [repeat split|exact Hdone']; try done.
    + cbn [Legacy.timers Legacy.with_timers]. rewrite fmap_app. apply NoDup_app.
      split; [exact Hnodup|]. split; [|apply NoDup_singleton].
      intros a Ha Hnew. cbn in Hnew. apply list_elem_of_singleton in Hnew. subst a.
      by apply Hfree.
    + intros t Ht. cbn [Legacy.timers Legacy.with_timers] in Ht.
      apply elem_of_app in Ht as [Ht|Ht]; [by apply Htimers|].
      apply list_elem_of_singleton in Ht. subst t.
      exists (Legacy.set_progress pr p). split; [|exact Hst].
      change (Legacy.objects (Legacy.mutate address (Legacy.set_progress pr) s) !! address
              = Some (Legacy.set_progress pr p)).
      rewrite legacy_mutate_lookup, decide_True by done. by rewrite Hobj.
  - rewrite Hobj.
    destruct (Legacy.copyFileSync e _ _ (Legacy.files s)) as [message|copied].
    + by apply (legacy_mutate_keeps address (Legacy.fail message) s p).
    + apply (legacy_mutate_keeps address Legacy.complete (Legacy.with_files copied s) p);
        try done.
Qed.

Lemma legacy_simulate_keeps e pid s :
  Legacy.wellFormed s → Legacy.completedHasOutput s →
  (∀ address, Legacy.projects s !! pid = Some address →
     address ∉ ((λ t : Z * Legacy.closure, Legacy.c_project t.2) <$> Legacy.timers s)) →
  Legacy.wellFormed (Legacy.simulateAIProcessing e pid s) ∧
  Legacy.completedHasOutput (Legacy.simulateAIProcessing e pid s).
Proof.
  intros Hwf Hdone Hfree. unfold Legacy.simulateAIProcessing.
  destruct (Legacy.projects s !! pid) as [address|] eqn:Hpid; [|done].
  pose proof Hwf as (_ & Hmap & _).
  destruct (Hmap pid address Hpid) as [p Hobj].
  destruct (legacy_mutate_keeps address
              (λ p, Legacy.set_estimatedTime "3-5 minutes" (Legacy.restart p)) s p
              Hwf Hdone Hobj (Hfree address eq_refl)) as [Hwf' Hdone'].
  { cbn. discriminate. }
  eapply legacy_processStep_keeps; try done.
  - rewrite legacy_mutate_lookup, decide_True by done. by rewrite Hobj.
  - reflexivity.
  - by apply Hfree.
Qed.

Lemma legacy_timer_below s t :
  Legacy.wellFormed s → t ∈ Legacy.timers s → (Legacy.c_project t.2 < Legacy.fresh s)%nat.
Proof.
  intros (Hfresh & _ & _ & Htimers) Ht. destruct (Htimers t Ht) as (p & Hp & _).
  by apply (Hfresh _ p).
Qed.

(** Every request and every timer keeps the invariant. *)
Lemma legacy_step_keeps e s s' :
  Legacy.step e s s' →
  Legacy.wellFormed s → Legacy.completedHasOutput s →
  Legacy.wellFormed s' ∧ Legacy.completedHasOutput s'.
Proof.
  intros Hstep Hwf Hdone. destruct Hstep as [filename body s|pid s|pid s|i s].
  - (* upload *)
    unfold Legacy.postUpload. destruct filename as [filename|]; [|done].
    cbn [snd]. pose proof Hwf as (Hfresh & Hmap & Hnodup & Htimers).
    assert (Legacy.objects s !! Legacy.fresh s = None) as Hnew.
    { destruct (Legacy.objects s !! Legacy.fresh s) as [q|] eqn:Hq; [|done].
      apply Hfresh in Hq. lia. }
    apply legacy_simulate_keeps.
    + repeat split; cbn.
      * intros a q. rewrite lookup_insert. case_decide as Ha.
        -- subst a. intros _. lia.
        -- intros Hq. apply Hfresh in Hq. lia.
      * intros pid a. rewrite lookup_insert. case_decide as Hid.
        -- intros [= <-]. by rewrite lookup_insert_eq.
        -- intros Hpid. apply lookup_insert_is_Some. right. 
           destruct (Hmap pid a Hpid) as [q Hq]. split; [|by exists q].
           intros <-. congruence.
      * exact Hnodup.
      * intros t Ht. destruct (Htimers t Ht) as (q & Hq & Hst). exists q.
        split; [|exact Hst]. rewrite lookup_insert_ne; [done|].
        intros Heq. rewrite <- Heq in Hq. congruence.
    + intros a q. cbn. rewrite lookup_insert. case_decide as Ha.
      * intros [= <-]. cbn. discriminate.
      * apply Hdone.
    + intros a. cbn. rewrite lookup_insert_eq. intros [= <-].
      intros Hin. apply list_elem_of_fmap in Hin as (t & Heq & Ht).
      pose proof (legacy_timer_below s t Hwf Ht). lia.
  - (* process *)
    unfold Legacy.postProcess.
    destruct (Legacy.projects s !! pid) as [address|] eqn:Hpid; [|done].
    destruct (Legacy.objects s !! address) as [p|] eqn:Hobj; [|done].
    destruct (String.eqb (Legacy.status p) "processing") eqn:Hst; [done|].
    apply String.eqb_neq in Hst. cbn [snd].
    assert (address ∉ ((λ t : Z * Legacy.closure, Legacy.c_project t.2)
                         <$> Legacy.timers s)) as Hfree.
    { intros Hin. apply list_elem_of_fmap in Hin as (t & -> & Ht).
      destruct Hwf as (_ & _ & _ & Htimers).
      destruct (Htimers t Ht) as (q & Hq & Hq'). congruence. }
    destruct (legacy_mutate_keeps address Legacy.restart s p Hwf Hdone Hobj Hfree)
      as [Hwf' Hdone'].
    { cbn. discriminate. }
    apply legacy_simulate_keeps; try done.
    intros a. cbn. rewrite Hpid. by intros [= <-].
  - (* delete *)
    unfold Legacy.deleteProject.
    destruct (Legacy.projects s !! pid) as [address|] eqn:Hpid; [|done].
    destruct (Legacy.objects s !! address) as [p|] eqn:Hobj; [|done].
    cbn [snd]. destruct Hwf as (Hfresh & Hmap & Hnodup & Htimers).
    split; [repeat split|]; try done.
    intros pid' a. cbn. intros Hlook. apply lookup_delete_Some in Hlook as [_ Hlook].
    by eapply Hmap.
  - (* timer *)
    unfold Legacy.fireTimer.
    destruct (Legacy.timers s !! i) as [[duration callback]|] eqn:Hi; [|done].
    pose proof Hwf as (Hfresh & Hmap & Hnodup & Htimers).
    destruct (Htimers (duration, callback)) as (p & Hobj & Hst);
      [by eapply list_elem_of_lookup_2|].
    cbn in Hobj.
    rewrite <- (take_drop_middle _ _ _ Hi) in Hnodup.
    rewrite fmap_app, fmap_cons in Hnodup. cbn in Hnodup.
    apply NoDup_app in Hnodup as (Hleft & Hapart & Hright).
    apply NoDup_cons in Hright as [Hnotin Hright].
    assert (NoDup ((λ t : Z * Legacy.closure, Legacy.c_project t.2)
                     <$> delete i (Legacy.timers s)) ∧
            Legacy.c_project callback
              ∉ ((λ t : Z * Legacy.closure, Legacy.c_project t.2)
                   <$> delete i (Legacy.timers s))) as [Hnodup' Hfree].
    { rewrite delete_take_drop, fmap_app. split.
      - apply NoDup_app. split; [done|]. split; [|done].
        intros a Ha Hin. apply (Hapart a Ha). by right.
      - intros Hin. apply elem_of_app in Hin as [Hin|Hin]; [|done].
        apply (Hapart _ Hin). by left. }
    apply (legacy_processStep_keeps e _ _ _ p); try done.
    repeat split; try done.
    intros t Ht. apply Htimers.
    cbn in Ht. rewrite delete_take_drop in Ht.
    rewrite <- (take_drop_middle _ _ _ Hi).
    apply elem_of_app in Ht as [Ht|Ht]; apply elem_of_app; [by left|right; by right].
Qed.

(** ** The in-memory server: a simulation from its start to its end *)

(** With no other timer pending, a step below the last one sets the
    progress and the next one runs when its timer fires. *)
Lemma legacy_running e address k step fuel s :
  Legacy.processingSteps !! k = Some step →
  Legacy.timers s = [] →
  Legacy.drainTimers e (S fuel) (Legacy.processStep e address k s)
  = Legacy.drainTimers e fuel
      (Legacy.processStep e address (S k) (Legacy.mutate address (Legacy.set_progress step.2) s)).
Proof.
  intros Hk Htimers. destruct s as [o pm f t n]. cbn in Htimers. subst t.
  destruct step as [[nm duration] pr]. unfold Legacy.processStep at 1. rewrite Hk.
  reflexivity.
Qed.

Lemma legacy_simulation e address s :
  Legacy.timers s = [] →
  Legacy.drainTimers e 5 (Legacy.processStep e address 0 s)
  = Legacy.processStep e address 5
      (Legacy.mutate address (Legacy.set_progress 100)
        (Legacy.mutate address (Legacy.set_progress 80)
          (Legacy.mutate address (Legacy.set_progress 60)
            (Legacy.mutate address (Legacy.set_progress 40)
              (Legacy.mutate address (Legacy.set_progress 20) s))))).
Proof.
  intros Htimers.
  do 5 (erewrite legacy_running; [|reflexivity|done]).
  cbn [snd]. unfold Legacy.processStep.
  cbn [lookup list_lookup Legacy.processingSteps].
  destruct (Legacy.objects _ !! address) as [p|]; [|done].
  by destruct (Legacy.copyFileSync _ _ _ _).
Qed.

(** What a simulation leaves when its timers have fired and no other timer
    was pending: the object is [completed] after the copy, and in [error]
    with its progress at 100 when the copy throws. *)
Lemma legacy_simulate_outcome e pid address p s :
  Legacy.projects s !! pid = Some address →
  Legacy.objects s !! address = Some p →
  Legacy.timers s = [] →
  let s' := Legacy.drainTimers e 5 (Legacy.simulateAIProcessing e pid s) in
  Legacy.projects s' = Legacy.projects s ∧ Legacy.timers s' = [] ∧
  (∀ a, a ≠ address → Legacy.objects s' !! a = Legacy.objects s !! a) ∧
  match Legacy.copyFileSync e
          (path_join (Legacy.uploadsDir e) (Legacy.originalVideo p))
          (path_join (Legacy.projectsDir e) ("processed-" +:+ Legacy.id p +:+ ".mp4"))
          (Legacy.files s) with
  | inr copied =>
      Legacy.files s' = copied ∧
      Legacy.objects s' !! address
      = Some (Legacy.complete (Legacy.set_estimatedTime "3-5 minutes" p))
  | inl message =>
      Legacy.files s' = Legacy.files s ∧
      Legacy.objects s' !! address
      = Some (Legacy.fail message
                (Legacy.set_progress 100
                   (Legacy.set_estimatedTime "3-5 minutes" (Legacy.restart p))))
  end.
Proof.
  intros Hpid Hobj Htimers s'. subst s'. unfold Legacy.simulateAIProcessing.
  rewrite Hpid. rewrite legacy_simulation by done.
  unfold Legacy.processStep. cbn [lookup list_lookup Legacy.processingSteps].
  rewrite !legacy_mutate_lookup, !decide_True by done. rewrite Hobj.
  cbn [fmap option_fmap option_map Legacy.originalVideo Legacy.id Legacy.set_progress
       Legacy.set_estimatedTime Legacy.restart].
  change (Legacy.files (Legacy.mutate _ _ _)) with (Legacy.files s).
  destruct (Legacy.copyFileSync e _ _ (Legacy.files s)) as [message|copied].
  - split; [done|]. split; [done|]. split.
    + intros a Ha. rewrite !legacy_mutate_lookup. by rewrite !decide_False by done.
    + split; [done|]. rewrite !legacy_mutate_lookup, !decide_True by done.
      by rewrite Hobj.
  - split; [done|]. split; [done|]. split.
    + intros a Ha. rewrite legacy_mutate_lookup. cbn [Legacy.objects Legacy.with_files].
      rewrite !legacy_mutate_lookup. by rewrite !decide_False by done.
    + split; [done|]. rewrite legacy_mutate_lookup. cbn [Legacy.objects Legacy.with_files].
      rewrite !legacy_mutate_lookup, !decide_True by done. by rewrite Hobj.
Qed.

Lemma legacy_upload_state e filename body s :
  let pid := Legacy.uuidv4 e (Legacy.fresh s) in
  (Legacy.postUpload e (Some filename) body s).2
  = Legacy.simulateAIProcessing e pid
      {| Legacy.objects :=
           <[Legacy.fresh s := Legacy.newProject e pid filename body s]> (Legacy.objects s);
         Legacy.projects := <[pid := Legacy.fresh s]> (Legacy.projects s);
         Legacy.files := Legacy.files s; Legacy.timers := Legacy.timers s;
         Legacy.fresh := S (S (S (Legacy.fresh s))) |}.
Proof. reflexivity. Qed.

(** X23: In the in-memory server, an upload whose file multer has stored,
    once the five timers of its simulation have fired with no other
    simulation pending, is reported as completed at 100 and the download
    and the preview both send the bytes that were uploaded. *)
Theorem legacy_upload_round_trip e filename body content s :
  Legacy.timers s = [] →
  Legacy.files s !! path_join (Legacy.uploadsDir e) filename = Some (File content) →
  Legacy.files s !! path_join (Legacy.projectsDir e)
                      ("processed-" +:+ Legacy.uuidv4 e (Legacy.fresh s) +:+ ".mp4")
    ≠ Some Directory →
  let pid := Legacy.uuidv4 e (Legacy.fresh s) in
  let s' := Legacy.drainTimers e 5 (Legacy.postUpload e (Some filename) body s).2 in
  Legacy.getProgress pid s' = Legacy.Progress "completed" 100 (Some "3-5 minutes") ∧
  Legacy.getDownload e pid s'
  = Legacy.Download
      (or_else (Legacy.f_projectName body)
         ("Project " +:+ Legacy.now e (S (Legacy.fresh s))) +:+ "-AI-Edited.mp4")
      content ∧
  Legacy.getVideo e pid s' = Legacy.Preview content.
Proof.
  intros Htimers Hsrc Hdest pid s'. subst s'. rewrite legacy_upload_state. fold pid. fold pid in Hdest.
  set (dest := path_join (Legacy.projectsDir e) ("processed-" +:+ pid +:+ ".mp4")) in *.
  destruct (legacy_simulate_outcome e pid (Legacy.fresh s)
              (Legacy.newProject e pid filename body s)
              {| Legacy.objects :=
                   <[Legacy.fresh s := Legacy.newProject e pid filename body s]>
                     (Legacy.objects s);
                 Legacy.projects := <[pid := Legacy.fresh s]> (Legacy.projects s);
                 Legacy.files := Legacy.files s; Legacy.timers := Legacy.timers s;
                 Legacy.fresh := S (S (S (Legacy.fresh s))) |})
    as (Hprojects & _ & _ & Hcopy);
    [apply lookup_insert_eq|apply lookup_insert_eq|exact Htimers|].
  cbn [Legacy.files Legacy.newProject Legacy.originalVideo Legacy.id] in Hcopy.
  fold dest in Hcopy. unfold Legacy.copyFileSync in Hcopy. rewrite Hsrc in Hcopy.
  assert (Legacy.files s !! dest = None ∨ ∃ c, Legacy.files s !! dest = Some (File c))
    as Hcase.
  { destruct (Legacy.files s !! dest) as [[c|]|]; [right; by exists c|done|by left]. }
  destruct Hcase as [Hcase|[c Hcase]]; rewrite Hcase in Hcopy;
    destruct Hcopy as [Hfiles Hobject].
  all: unfold Legacy.getProgress, Legacy.getVideo, Legacy.getDownload, Legacy.serve,
    Legacy.getProject.
  all: rewrite Hprojects; cbn [Legacy.projects]; rewrite lookup_insert_eq, Hobject.
  all: cbn [Legacy.status Legacy.complete Legacy.set_estimatedTime Legacy.progress
            Legacy.estimatedTime Legacy.processedVideo Legacy.id Legacy.name
            Legacy.newProject].
  all: cbn [String.eqb Ascii.eqb Bool.eqb negb].
  all: fold dest; by rewrite Hfiles, lookup_insert_eq.
Qed.

Lemma legacy_upload_round_trip_witness :
  Legacy.getDownload legacyEnv "id-0"
    (Legacy.drainTimers legacyEnv 5
       (Legacy.postUpload legacyEnv (Some "1700000000000-u1-clip.mp4") legacyForm
          (Legacy.initial legacyDisk)).2)
  = Legacy.Download "Holiday-AI-Edited.mp4" "source".
Proof.
  apply (legacy_upload_round_trip legacyEnv "1700000000000-u1-clip.mp4" legacyForm
           "source" (Legacy.initial legacyDisk)).
  - reflexivity.
  - by vm_compute.
  - by vm_compute.
Defined.

(** The state an upload leaves: the new object, already [processing] at 20,
    and the first timer of its simulation. *)
Lemma legacy_upload_pending e filename body s :
  Legacy.timers s = [] →
  let pid := Legacy.uuidv4 e (Legacy.fresh s) in
  Legacy.postUpload e (Some filename) body s
  = (Legacy.Uploaded pid
       (Legacy.set_progress 20
          (Legacy.set_estimatedTime "3-5 minutes"
             (Legacy.restart (Legacy.newProject e pid filename body s)))),
     {| Legacy.objects :=
          <[Legacy.fresh s :=
              Legacy.set_progress 20
                (Legacy.set_estimatedTime "3-5 minutes"
                   (Legacy.restart (Legacy.newProject e pid filename body s)))]>
            (Legacy.objects s);
        Legacy.projects := <[pid := Legacy.fresh s]> (Legacy.projects s);
        Legacy.files := Legacy.files s;
        Legacy.timers :=
          [ (2000, {| Legacy.c_project := Legacy.fresh s; Legacy.c_currentStep := 0 |}) ];
        Legacy.fresh := S (S (S (Legacy.fresh s))) |}).
Proof.
  intros Htimers pid. unfold Legacy.postUpload. fold pid.
  unfold Legacy.simulateAIProcessing. cbn [Legacy.projects]. rewrite lookup_insert_eq.
  unfold Legacy.processStep. cbn [lookup list_lookup Legacy.processingSteps].
  unfold Legacy.mutate, Legacy.with_objects, Legacy.with_timers.
  cbn [Legacy.objects Legacy.projects Legacy.files Legacy.timers Legacy.fresh].
  rewrite Htimers, !alter_insert_eq, lookup_insert_eq. reflexivity.
Qed.

Lemma legacy_drained e s : Legacy.drainTimers e 0 s = s.
Proof. by destruct s as [o pm f t n]. Qed.

(** With one timer pending, it fires and the step after its own runs. *)
Lemma legacy_pending e duration callback fuel s :
  Legacy.timers s = [ (duration, callback) ] →
  Legacy.drainTimers e (S fuel) s
  = Legacy.drainTimers e fuel
      (Legacy.processStep e (Legacy.c_project callback)
         (S (Legacy.c_currentStep callback)) (Legacy.with_timers [] s)).
Proof.
  intros Htimers. destruct s as [o pm f t n]. cbn in Htimers. subst t. reflexivity.
Qed.

(** X24: In the in-memory server, the reply to an upload already shows
    the project as processing at 20 with its estimate: the object is sent
    after the simulation has started on it. *)
Theorem legacy_upload_reply e filename body s :
  ∃ project,
    (Legacy.postUpload e (Some filename) body s).1
    = Legacy.Uploaded (Legacy.uuidv4 e (Legacy.fresh s)) project ∧
    Legacy.status project = "processing" ∧ Legacy.progress project = 20 ∧
    Legacy.estimatedTime project = Some "3-5 minutes" ∧
    Legacy.originalVideo project = filename ∧
    Legacy.getProject (Legacy.uuidv4 e (Legacy.fresh s))
      (Legacy.postUpload e (Some filename) body s).2 = Legacy.Found project.
Proof.
  set (pid := Legacy.uuidv4 e (Legacy.fresh s)).
  exists (Legacy.set_progress 20
            (Legacy.set_estimatedTime "3-5 minutes"
               (Legacy.restart (Legacy.newProject e pid filename body s)))).
  unfold Legacy.postUpload, Legacy.getProject. fold pid.
  unfold Legacy.simulateAIProcessing. cbn [Legacy.projects]. rewrite lookup_insert_eq.
  unfold Legacy.processStep. cbn [lookup list_lookup Legacy.processingSteps].
  unfold Legacy.mutate, Legacy.with_objects, Legacy.with_timers.
  cbn [Legacy.objects Legacy.projects Legacy.files Legacy.timers Legacy.fresh fst snd].
  by rewrite !alter_insert_eq, !lookup_insert_eq.
Qed.

(** X25: In the in-memory server, when the uploaded file is not there at
    the end of the simulation, the copy throws: the project ends in status
    error with its progress still at 100, the download is refused with 400
    and no file is written. *)
Theorem legacy_failed_copy e filename body s :
  Legacy.timers s = [] →
  (∀ content,
     Legacy.files s !! path_join (Legacy.uploadsDir e) filename ≠ Some (File content)) →
  let pid := Legacy.uuidv4 e (Legacy.fresh s) in
  let s' := Legacy.drainTimers e 5 (Legacy.postUpload e (Some filename) body s).2 in
  Legacy.getProgress pid s' = Legacy.Progress "error" 100 (Some "3-5 minutes") ∧
  Legacy.getDownload e pid s' = Legacy.Failure 400 "Video processing not complete" ∧
  Legacy.files s' = Legacy.files s.
Proof.
  intros Htimers Hsrc pid s'. subst s'. rewrite legacy_upload_state. fold pid.
  destruct (legacy_simulate_outcome e pid (Legacy.fresh s)
              (Legacy.newProject e pid filename body s)
              {| Legacy.objects :=
                   <[Legacy.fresh s := Legacy.newProject e pid filename body s]>
                     (Legacy.objects s);
                 Legacy.projects := <[pid := Legacy.fresh s]> (Legacy.projects s);
                 Legacy.files := Legacy.files s; Legacy.timers := Legacy.timers s;
                 Legacy.fresh := S (S (S (Legacy.fresh s))) |})
    as (Hprojects & _ & _ & Hcopy);
    [apply lookup_insert_eq|apply lookup_insert_eq|exact Htimers|].
  cbn [Legacy.files Legacy.newProject Legacy.originalVideo Legacy.id] in Hcopy.
  unfold Legacy.copyFileSync in Hcopy.
  destruct (Legacy.files s !! path_join (Legacy.uploadsDir e) filename)
    as [[content|]|] eqn:Hfile; [by destruct (Hsrc content)| |].
  all: destruct Hcopy as [Hfiles Hobject].
  all: unfold Legacy.getProgress, Legacy.getDownload, Legacy.serve, Legacy.getProject.
  all: rewrite Hprojects; cbn [Legacy.projects]; rewrite lookup_insert_eq, Hobject.
  all: done.
Qed.

Lemma legacy_failed_copy_witness :
  Legacy.getProgress "id-0"
    (Legacy.drainTimers legacyEnv 5
       (Legacy.postUpload legacyEnv (Some "lost.mp4") legacyForm
          (Legacy.initial legacyDisk)).2)
  = Legacy.Progress "error" 100 (Some "3-5 minutes").
Proof.
  apply (legacy_failed_copy legacyEnv "lost.mp4" legacyForm (Legacy.initial legacyDisk)).
  - reflexivity.
  - intros content. by vm_compute.
Defined.

(** X26: In the in-memory server, deleting a project while its simulation
    runs removes the upload and the entry, and the timers go on with the
    object they hold: the copy then fails and no processed file is left
    behind. *)
Theorem legacy_delete_while_processing e filename body s :
  Legacy.timers s = [] →
  filename ≠ "" →
  let pid := Legacy.uuidv4 e (Legacy.fresh s) in
  let uploaded := (Legacy.postUpload e (Some filename) body s).2 in
  let s' := Legacy.drainTimers e 5 (Legacy.deleteProject e pid uploaded).2 in
  (Legacy.deleteProject e pid uploaded).1 = Legacy.Deleted ∧
  Legacy.getProject pid s' = Legacy.Failure 404 "Project not found" ∧
  Legacy.timers s' = [] ∧
  Legacy.files s'
  = Legacy.removeSync (path_join (Legacy.uploadsDir e) filename) (Legacy.files s) ∧
  ∃ project,
    Legacy.objects s' !! Legacy.fresh s = Some project ∧
    Legacy.status project = "error" ∧ Legacy.processedVideo project = None.
Proof.
  intros Htimers Hname pid uploaded s'. subst s' uploaded.
  rewrite (legacy_upload_pending e filename body s Htimers). fold pid. cbn [snd].
  unfold Legacy.deleteProject.
  cbn [Legacy.objects Legacy.projects Legacy.files Legacy.timers Legacy.fresh].
  rewrite !lookup_insert_eq.
  cbn [Legacy.originalVideo Legacy.processedVideo Legacy.set_progress
       Legacy.set_estimatedTime Legacy.restart Legacy.newProject or_else_opt].
  destruct filename as [|c rest]; [done|]. cbn [fst snd].
  set (src := path_join (Legacy.uploadsDir e) (String c rest)).
  split; [done|].
  erewrite legacy_pending; [|reflexivity].
  do 4 (erewrite legacy_running; [|reflexivity|reflexivity]).
  rewrite legacy_drained. cbn [Legacy.c_project Legacy.c_currentStep snd].
  unfold Legacy.processStep. cbn [lookup list_lookup Legacy.processingSteps].
  rewrite !legacy_mutate_lookup, !decide_True by done.
  cbn [Legacy.objects Legacy.with_timers]. rewrite lookup_insert_eq.
  cbn [fmap option_fmap option_map Legacy.originalVideo Legacy.id Legacy.set_progress
       Legacy.set_estimatedTime Legacy.restart Legacy.newProject].
  fold src. unfold Legacy.copyFileSync.
  change (Legacy.files (Legacy.mutate _ _ _)) with (Legacy.removeSync src (Legacy.files s)).
  assert (Legacy.removeSync src (Legacy.files s) !! src = None) as ->.
  { apply map_lookup_filter_None. right. intros node _. cbn. unfold under.
    by rewrite String.eqb_refl. }
  unfold Legacy.getProject.
  split; [|split; [done|split; [done|]]].
  - change (Legacy.projects (Legacy.mutate _ _ _))
      with (delete pid (<[pid := Legacy.fresh s]> (Legacy.projects s))).
    by rewrite lookup_delete_eq.
  - eexists. rewrite !legacy_mutate_lookup, !decide_True by done.
    cbn [Legacy.objects Legacy.with_timers]. rewrite lookup_insert_eq.
    split; [reflexivity|]. done.
Qed.

Lemma legacy_delete_while_processing_witness :
  Legacy.files
    (Legacy.drainTimers legacyEnv 5
       (Legacy.deleteProject legacyEnv "id-0"
          (Legacy.postUpload legacyEnv (Some "1700000000000-u1-clip.mp4") legacyForm
             (Legacy.initial legacyDisk)).2).2)
  = Legacy.removeSync "/srv/uploads/1700000000000-u1-clip.mp4" legacyDisk.
Proof.
  apply (legacy_delete_while_processing legacyEnv "1700000000000-u1-clip.mp4" legacyForm
           (Legacy.initial legacyDisk)).
  - reflexivity.
  - discriminate.
Defined.

Lemma legacy_initial_wellFormed f :
  Legacy.wellFormed (Legacy.initial f) ∧ Legacy.completedHasOutput (Legacy.initial f).
Proof.
  split; [repeat split|].
  - intros address p. cbn. by rewrite lookup_empty.
  - intros pid address. cbn. by rewrite lookup_empty.
  - cbn. apply NoDup_nil_2.
  - intros t Ht. cbn in Ht. by apply elem_of_nil in Ht.
  - intros address p. cbn. by rewrite lookup_empty.
Qed.

Lemma legacy_serve_answers e notFound send pid s :
  Legacy.completedHasOutput s →
  (∀ content, send content ≠ Legacy.Failure 500 "Internal server error") →
  Legacy.serve e notFound send pid s ≠ Legacy.Failure 500 "Internal server error".
Proof.
  intros Hdone Hsend. unfold Legacy.serve, Legacy.getProject.
  destruct (Legacy.projects s !! pid) as [address|]; [|done].
  destruct (Legacy.objects s !! address) as [p|] eqn:Hobj; [|done].
  destruct (String.eqb (Legacy.status p) "completed") eqn:Hst; [|done].
  apply String.eqb_eq in Hst. destruct (Hdone address p Hobj Hst) as [-> _].
  cbn [negb]. by destruct (Legacy.files s !! _) as [[content|]|].
Qed.

(** X27: In the in-memory server started with no project, whatever
    single-video uploads, process requests, deletions and timers have
    happened: a completed object has processed-<id>.mp4 as its output and
    progress 100, so neither file endpoint passes null to path.join; and no
    two pending timers hold the same object, which is then processing. *)
Theorem legacy_completed_has_output e f s :
  rtc (Legacy.step e) (Legacy.initial f) s →
  Legacy.wellFormed s ∧ Legacy.completedHasOutput s ∧
  ∀ pid,
    Legacy.getDownload e pid s ≠ Legacy.Failure 500 "Internal server error" ∧
    Legacy.getVideo e pid s ≠ Legacy.Failure 500 "Internal server error".
Proof.
  intros Hreach.
  assert (Legacy.wellFormed s ∧ Legacy.completedHasOutput s) as [Hwf Hdone].
  { revert s Hreach.
    apply (rtc_ind_r (λ s, Legacy.wellFormed s ∧ Legacy.completedHasOutput s)).
    - apply legacy_initial_wellFormed.
    - intros s s' _ Hstep [Hwf Hdone]. by apply (legacy_step_keeps e s s'). }
  split; [done|]. split; [done|]. intros pid. split.
  - unfold Legacy.getDownload.
    destruct (Legacy.getProject pid s) as [code error| | p | | | | | |] eqn:Hget;
      try done.
    + unfold Legacy.getProject in Hget.
      destruct (Legacy.projects s !! pid) as [address|]; [|by injection Hget as <- <-].
      by destruct (Legacy.objects s !! address); [|injection Hget as <- <-].
    + by apply legacy_serve_answers.
  - by apply legacy_serve_answers.
Qed.

Lemma legacy_completed_has_output_witness :
  Legacy.completedHasOutput
    (Legacy.fireTimer legacyEnv 0 (Legacy.fireTimer legacyEnv 0
      (Legacy.fireTimer legacyEnv 0 (Legacy.fireTimer legacyEnv 0
        (Legacy.fireTimer legacyEnv 0
          (Legacy.postUpload legacyEnv (Some "1700000000000-u1-clip.mp4") legacyForm
             (Legacy.initial legacyDisk)).2))))).
Proof.
  apply (legacy_completed_has_output legacyEnv legacyDisk).
  do 5 (eapply rtc_r; [|apply Legacy.step_timer]).
  eapply rtc_r; [apply rtc_refl|apply Legacy.step_upload].
Defined.
